(** * unic-app-sdk: the article service, the widget resolver and the
      cross-origin policy of the MCP server, embedded in Rocq

    The development follows the JavaScript sources function by function:

    - [Js]              the ECMAScript and Node built-ins the sources call
                        (string methods, [Array.prototype.sort], [slice],
                        the [node:fs] calls);
    - [ArticleService]  [mcp-server/src/article-service.js];
    - [Widget]          [mcp-server/src/widget.js];
    - [Tools]           the tool handlers of [mcp-server/src/server.js];
    - [Cors]            [mcp-server/src/cors-utils.js].

    Strings are sequences of code units below 256 (Rocq's [string]); a
    JavaScript value that may be [undefined] or [null] is an [option]; a
    function that may throw returns a [result]. *)

From Stdlib Require Import ZArith Ascii Permutation Sorted.
From stdpp Require Import base option list sorting gmap strings pretty.
From Equations Require Import Equations.

Local Open Scope Z_scope.

(** ** Results of functions that may throw *)

Inductive result (A : Type) : Type :=
  | Returns (a : A)
  | Throws (message : string).
Arguments Returns {A} a.
Arguments Throws {A} message.

Definition is_Returns {A} (r : result A) : bool :=
  match r with Returns _ => true | Throws _ => false end.

(** [try { body } catch (err) { handler(err) }] *)
Definition try_catch {A} (body : result A) (handler : string → result A) : result A :=
  match body with
  | Returns a => Returns a
  | Throws message => handler message
  end.

#[global] Instance result_ret : MRet result := λ A a, Returns a.

#[global] Instance result_bind : MBind result := λ A B k r,
  match r with
  | Returns a => k a
  | Throws message => Throws message
  end.

(** ** The built-ins used by the sources *)

Module Js.

(** *** Code units *)

Definition code (c : ascii) : N := N_of_ascii c.

Definition in_range (lo hi : N) (c : ascii) : bool :=
  ((lo <=? code c) && (code c <=? hi))%N.

Definition shift_code (c : ascii) (d : Z) : ascii :=
  ascii_of_N (Z.to_N (Z.of_N (code c) + d)).

(** [String.prototype.toLowerCase] on one code unit: the letters A-Z and
    the Latin-1 capitals U+00C0-U+00DE (without the sign U+00D7) move 32
    up. *)
Definition lower_unit (c : ascii) : ascii :=
  if in_range 65 90 c then shift_code c 32
  else if in_range 192 222 c && negb (code c =? 215)%N then shift_code c 32
  else c.

(** The canonical form a regular expression with the [i] flag (and without
    [u]) compares code units in: the upper-case form, except that a code
    unit above 127 is never mapped onto an ASCII one. For the ASCII
    patterns of this program only the ASCII letters matter. *)
Definition canonicalize (c : ascii) : ascii :=
  if in_range 97 122 c then shift_code c (-32) else c.

(** White space and line terminators of [String.prototype.trim]. *)
Definition is_white_space (c : ascii) : bool :=
  in_range 9 13 c || (code c =? 32)%N || (code c =? 160)%N.

(** *** Strings *)

Fixpoint map_units (f : ascii → ascii) (s : string) : string :=
  match s with
  | EmptyString => EmptyString
  | String c s' => String (f c) (map_units f s')
  end.

Definition toLowerCase (s : string) : string := map_units lower_unit s.

Fixpoint trimStart (s : string) : string :=
  match s with
  | EmptyString => EmptyString
  | String c s' => if is_white_space c then trimStart s' else s
  end.

(** [trimEnd] drops a code unit when it is white space and nothing is left
    behind it. *)
Fixpoint trimEnd (s : string) : string :=
  match s with
  | EmptyString => EmptyString
  | String c s' =>
      match trimEnd s' with
      | EmptyString => if is_white_space c then EmptyString else String c EmptyString
      | rest => String c rest
      end
  end.

Definition trim (s : string) : string := trimEnd (trimStart s).

Fixpoint startsWith (s p : string) : bool :=
  match p, s with
  | EmptyString, _ => true
  | String _ _, EmptyString => false
  | String a p', String b s' => if Ascii.eqb a b then startsWith s' p' else false
  end.

Fixpoint includes (s q : string) : bool :=
  startsWith s q ||
  match s with
  | EmptyString => false
  | String _ s' => includes s' q
  end.

Fixpoint drop (n : nat) (s : string) : string :=
  match n, s with
  | O, _ => s
  | S n', String _ s' => drop n' s'
  | S _, EmptyString => EmptyString
  end.

Definition endsWith (s p : string) : bool :=
  (String.length p <=? String.length s)%nat &&
  String.eqb (drop (String.length s - String.length p) s) p.

(** A string is truthy when it is not empty. *)
Definition truthy (s : string) : bool :=
  match s with EmptyString => false | String _ _ => true end.

(** [value?.trim()] for a value that is a string, [null] or [undefined]. *)
Definition opt_trim (v : option string) : option string := trim <$> v.

(** Truthiness of a value that is a string, [null] or [undefined]. *)
Definition opt_truthy (v : option string) : bool :=
  match v with Some s => truthy s | None => false end.

(** [regexp.test] at the start of [s] for a pattern of literal code units
    with the [i] flag. *)
Fixpoint matches_here (pattern s : string) : bool :=
  match pattern, s with
  | EmptyString, _ => true
  | String _ _, EmptyString => false
  | String p pattern', String c s' =>
      if Ascii.eqb (canonicalize p) (canonicalize c) then matches_here pattern' s' else false
  end.

(** [source.replace(/pattern/gi, replacement)] for a non-empty pattern of
    literal code units and a replacement without [$]: at the leftmost match
    the replacement is put out and the scan goes on behind the match. *)
Equations replace_gi (pattern replacement source : string) : string
    by wf (String.length source) lt :=
  replace_gi pattern replacement EmptyString := EmptyString;
  replace_gi pattern replacement (String c rest) with matches_here pattern (String c rest) := {
    | true => replacement +:+
              replace_gi pattern replacement (drop (String.length pattern - 1) rest)
    | false => String c (replace_gi pattern replacement rest) }.
Next Obligation.
  clear. generalize (String.length pattern - 1)%nat as n.
  intros n; revert rest; induction n as [|n IH]; intros [|c' rest]; simpl; try lia.
  specialize (IH rest); lia.
Qed.

(** [string.split(',')] for a one-unit separator. *)
Fixpoint split (separator : ascii) (s : string) : list string :=
  match s with
  | EmptyString => [EmptyString]
  | String c s' =>
      let pieces := split separator s' in
      if Ascii.eqb c separator then EmptyString :: pieces
      else match pieces with
           | piece :: pieces' => String c piece :: pieces'
           | [] => [String c EmptyString]
           end
  end.

(** *** Arrays *)

(** [Array.prototype.sort(comparefn)]: the sort is stable (ECMAScript 2019);
    it is modelled by the insertion sort that puts an element in front of
    the first element it does not compare greater than. *)
Fixpoint insert_by {A} (comparefn : A → A → Z) (x : A) (l : list A) : list A :=
  match l with
  | [] => [x]
  | y :: l' =>
      if comparefn x y <=? 0 then x :: y :: l' else y :: insert_by comparefn x l'
  end.

Definition sort {A} (comparefn : A → A → Z) (l : list A) : list A :=
  foldr (insert_by comparefn) [] l.

(** The default comparison of [sort()]: strings by their code units. *)
Definition compare_strings (a b : string) : Z :=
  match String.compare a b with
  | Lt => -1
  | Eq => 0
  | Gt => 1
  end.

(** [array.slice(0, n)] for an integral [n] (a negative end counts from the
    end of the array). *)
Definition slice0 {A} (n : Z) (l : list A) : list A :=
  if n <? 0 then take (length l - Z.to_nat (- n)) l else take (Z.to_nat n) l.

(** [array.at(-1)] *)
Definition at_last {A} (l : list A) : option A := last l.

End Js.

(** *** node:fs and node:path *)

Module Fs.

Inductive node : Type :=
  | File (contents : string)
  | Directory (entries : list string).

(** A file system: what is found at each path. *)
Abbreviation t := (gmap string node).

(** [fs.existsSync] is true for files and for directories. *)
Definition existsSync (fs : t) (path : string) : bool :=
  match fs !! path with Some _ => true | None => false end.

Definition readFileSync (fs : t) (path : string) : result string :=
  match fs !! path with
  | Some (File contents) => Returns contents
  | Some (Directory _) => Throws "EISDIR: illegal operation on a directory, read"
  | None => Throws "ENOENT: no such file or directory"
  end.

Definition readdirSync (fs : t) (path : string) : result (list string) :=
  match fs !! path with
  | Some (Directory entries) => Returns entries
  | Some (File _) => Throws "ENOTDIR: not a directory, scandir"
  | None => Throws "ENOENT: no such file or directory, scandir"
  end.

(** [path.join(dir, name)] for a directory path without a trailing separator
    and a plain file name. *)
Definition join (dir name : string) : string := dir +:+ "/" +:+ name.

End Fs.

(** ** The articles and the host *)

(** [author] is a string or an object with an optional [name]. *)
Inductive Author : Type :=
  | AuthorString (value : string)
  | AuthorObject (name : option string).

(** The first entry of [keyvisual.cloudinaryAsset]. *)
Record CloudinaryAsset : Type := {
  url : option string;
  alt : option string;
}.

(** A record of the corpus file. [None] is a field that is [undefined] or
    [null]. *)
Record MagazineArticle : Type := {
  slug : option string;
  title : option string;
  publicationDate : option string;
  lead : option string;
  author : option Author;
  link : option string;
  heroUrl : option string;
  heroAlt : option string;
  keyvisual : option CloudinaryAsset;
}.

Inductive MonthStyle : Type := MonthLong | MonthShort.

(** What the sources take from the host and the deployment. A time value is
    the number of milliseconds since the epoch; [None] is [NaN]. *)
Class Host : Type := {
  (** [Date.parse]; [new Date(string).getTime()] is the same number. *)
  Date_parse : string → option Z;
  (** [JSON.parse] of the corpus file, for a text that is JSON for an array
      of records with the fields above; [None] is a [SyntaxError]. A text
      that is JSON of another shape has no value here: on a value that is
      not an array, on a [null] entry and on a slug, title or publication
      date that is not a string the load throws a [TypeError]. *)
  JSON_parse : string → option (list MagazineArticle);
  (** [date.toLocaleDateString('en-US', { year, month, day? })] *)
  toLocaleDateString : option Z → MonthStyle → bool → string;
  (** [date.toISOString()] of a valid date. *)
  toISOString : Z → string;
  (** [path.resolve(__dirname, '../../../ui-sdk/dist')] *)
  distDir : string;
}.

(** ** article-service.js *)

Module ArticleService.

Module CONFIG.
Definition DEFAULT_PORT : Z := 8001.
Definition DEFAULT_LIMIT : Z := 10.
Definition MAX_LIMIT : Z := 100.
End CONFIG.

(** [clampLimit(limit)]: [None] is [undefined]. *)
Definition clampLimit (limit : option Z) : Z :=
  match limit with
  | None => CONFIG.DEFAULT_LIMIT
  | Some l => Z.min (Z.max 1 l) CONFIG.MAX_LIMIT
  end.

(** A parameter with the default value [limit = CONFIG.DEFAULT_LIMIT]. *)
Definition default_limit (limit : option Z) : option Z :=
  Some (default CONFIG.DEFAULT_LIMIT limit).

(** The limit every query operation slices its result with. *)
Definition effective_limit (limit : option Z) : Z :=
  clampLimit (default_limit limit).

(** The module state: [magazineArticles] and [articlesBySlug]. *)
Record Index : Type := {
  magazineArticles : list MagazineArticle;
  articlesBySlug : gmap (option string) MagazineArticle;
}.

Definition emptyIndex : Index :=
  {| magazineArticles := []; articlesBySlug := ∅ |}.

Section WithHost.
Context `{Host}.

Definition isValidDate (dateString : string) : bool :=
  match Date_parse dateString with Some _ => true | None => false end.

Definition isLoadedArticle (article : MagazineArticle) : bool :=
  let slug := Js.opt_trim (slug article) in
  let title := Js.opt_trim (title article) in
  let publicationDate := Js.opt_trim (publicationDate article) in
  Js.opt_truthy slug && Js.opt_truthy title && Js.opt_truthy publicationDate &&
  match publicationDate with
  | Some d => match Date_parse d with Some _ => true | None => false end
  | None => false
  end.

Definition getAuthorRaw (article : MagazineArticle) : option string :=
  match author article with
  | None => None
  | Some (AuthorString value) =>
      if Js.truthy value
      then let trimmed := Js.trim value in
           if (0 <? String.length trimmed)%nat then Some trimmed else None
      else None
  | Some (AuthorObject name) =>
      match Js.opt_trim name with
      | Some name => if Js.truthy name && (0 <? String.length name)%nat then Some name else None
      | None => None
      end
  end.

Definition getAuthorName (article : MagazineArticle) : string :=
  default "Editorial team" (getAuthorRaw article).

Definition authorMatches (article : MagazineArticle) (lowerQuery : string) : bool :=
  match getAuthorRaw article with
  | Some name => if Js.truthy name then Js.includes (Js.toLowerCase name) lowerQuery else false
  | None => false
  end.

(** [value.trim()] throws on [undefined] and [null]. *)
Definition must_trim (field : string) (v : option string) : result string :=
  match v with
  | Some s => Returns (Js.trim s)
  | None => Throws ("Cannot read properties of undefined (reading 'trim'): " +:+ field)
  end.

(** The callback of [.map] in [loadMagazineArticles]. *)
Definition normalizeArticle (article : MagazineArticle) : result MagazineArticle :=
  slug' ← must_trim "slug" (slug article);
  title' ← must_trim "title" (title article);
  publicationDate' ← must_trim "publicationDate" (publicationDate article);
  Returns {| slug := Some slug'; title := Some title';
             publicationDate := Some publicationDate';
             lead := lead article; author := author article; link := link article;
             heroUrl := heroUrl article; heroAlt := heroAlt article;
             keyvisual := keyvisual article |}.

(** [articlesBySlug.clear()] followed by one [set] per article, in order. *)
Definition buildSlugIndex (articles : list MagazineArticle)
    : gmap (option string) MagazineArticle :=
  foldl (λ m article, <[slug article := article]> m) ∅ articles.

(** The body of the [try] block, on a file that is not valid JSON or holds
    an array of records. *)
Definition readArticles (fs : Fs.t) (blogDataPath : string)
    : result (list MagazineArticle) :=
  if negb (Fs.existsSync fs blogDataPath)
  then Throws ("Blog data file not found: " +:+ blogDataPath)
  else
    data ← Fs.readFileSync fs blogDataPath;
    articles ← match JSON_parse data with
               | Some articles => Returns articles
               | None => Throws "SyntaxError: the corpus file is not valid JSON"
               end;
    mapM normalizeArticle (filter (λ a, isLoadedArticle a = true) articles).

(** [loadMagazineArticles(blogDataPath)]: what it returns or throws, and
    the module state afterwards. *)
Definition loadMagazineArticles (fs : Fs.t) (blogDataPath : string)
    : result unit * Index :=
  match readArticles fs blogDataPath with
  | Returns articles =>
      (Returns (),
       {| magazineArticles := articles; articlesBySlug := buildSlugIndex articles |})
  | Throws message => (Throws message, emptyIndex)
  end.

(** [new Date(article.publicationDate)] as a number. *)
Definition dateOf (article : MagazineArticle) : option Z :=
  publicationDate article ≫= Date_parse.

(** [a >= b] on numbers; a comparison with [NaN] is false. *)
Definition num_ge (a b : option Z) : bool :=
  match a, b with
  | Some x, Some y => y <=? x
  | _, _ => false
  end.

Definition num_le (a b : option Z) : bool := num_ge b a.

(** [(a, b) => new Date(b.publicationDate).getTime() -
               new Date(a.publicationDate).getTime()];
    [sort] reads a [NaN] result as [+0]. *)
Definition newestFirst (a b : MagazineArticle) : Z :=
  match dateOf b, dateOf a with
  | Some tb, Some ta => tb - ta
  | _, _ => 0
  end.

(** [value?.toLowerCase().includes(lowerQuery)], falsy on a missing value. *)
Definition opt_includes (v : option string) (lowerQuery : string) : bool :=
  match v with
  | Some s => Js.includes (Js.toLowerCase s) lowerQuery
  | None => false
  end.

Definition searchArticles (index : Index) (query : string) (limit : option Z)
    : list MagazineArticle :=
  let clampedLimit := effective_limit limit in
  let lowerQuery := Js.toLowerCase query in
  Js.slice0 clampedLimit
    (filter (λ article,
               let titleMatch := opt_includes (title article) lowerQuery in
               let leadMatch := opt_includes (lead article) lowerQuery in
               let authorMatch := authorMatches article lowerQuery in
               titleMatch || leadMatch || authorMatch = true)
            (magazineArticles index)).

Definition searchArticlesByTitle (index : Index) (query : string) (limit : option Z)
    : list MagazineArticle :=
  let clampedLimit := effective_limit limit in
  let lowerQuery := Js.toLowerCase query in
  Js.slice0 clampedLimit
    (filter (λ article, opt_includes (title article) lowerQuery = true)
            (magazineArticles index)).

(** One bound of [filterArticlesByDateRange]: the [if (bound) { ... }]
    block, with the comparison the block filters by. *)
Definition applyBound (which : string) (keep : option Z → option Z → bool)
    (bound : option string) (filtered : list MagazineArticle)
    : result (list MagazineArticle) :=
  match bound with
  | Some dateString =>
      if Js.truthy dateString then
        if negb (isValidDate dateString)
        then Throws ("Invalid " +:+ which +:+ " date format: " +:+ dateString
                     +:+ ". Expected ISO format (YYYY-MM-DD)")
        else
          let limitDate := Date_parse dateString in
          Returns (filter (λ article, keep (dateOf article) limitDate = true) filtered)
      else Returns filtered
  | None => Returns filtered
  end.

Definition filterArticlesByDateRange (index : Index)
    (startDate endDate : option string) (limit : option Z)
    : result (list MagazineArticle) :=
  let clampedLimit := effective_limit limit in
  let filtered := magazineArticles index in
  filtered ← applyBound "start" num_ge startDate filtered;
  filtered ← applyBound "end" num_le endDate filtered;
  Returns (Js.slice0 clampedLimit (Js.sort newestFirst filtered)).

Definition filterArticlesByAuthor (index : Index) (authorName : string)
    (limit : option Z) : list MagazineArticle :=
  let clampedLimit := effective_limit limit in
  let lowerAuthor := Js.toLowerCase authorName in
  Js.slice0 clampedLimit
    (Js.sort newestFirst
       (filter (λ article, authorMatches article lowerAuthor = true)
               (magazineArticles index))).

End WithHost.

End ArticleService.


(** ** widget.js *)

Module Widget.

Definition dquote : string := String "034" EmptyString.
Definition nl : string := String "010" EmptyString.
Definition tab : string := String "009" EmptyString.

Record WidgetDescriptor : Type := {
  id : string;
  widgetTitle : string;
  templateUri : string;
  invoking : string;
  invoked : string;
  html : string;
}.

(** The article a widget renders. *)
Record WidgetArticle : Type := {
  wSlug : string;
  wTitle : string;
  wLead : string;
  wAuthor : string;
  wPublicationDate : string;
  wUrl : string;
  wHeroUrl : option string;
  wHeroAlt : option string;
}.

Definition escapeForInlineScript (source : string) : string :=
  Js.replace_gi "</script" "<\/script" source.

Definition escapeForInlineStyle (source : string) : string :=
  Js.replace_gi "</style" "<\/style" source.

(** The candidates of [resolveWidgetAsset], sorted by [sort()]. *)
Definition hashedCandidates (entryName extension : string) (files : list string)
    : list string :=
  Js.sort Js.compare_strings
    (filter (λ file, Js.startsWith file (entryName +:+ "-") && Js.endsWith file extension = true)
            files).

Definition resolveWidgetAsset (fs : Fs.t) (entryName extension uiAssetsDir : string)
    : result string :=
  files ← Fs.readdirSync fs uiAssetsDir;
  let fallback := entryName +:+ extension in
  let otherwise :=
    if bool_decide (fallback ∈ files) then Returns fallback
    else Throws ("Missing " +:+ extension +:+ " asset for widget " +:+ dquote +:+ entryName
                 +:+ dquote +:+ " inside " +:+ uiAssetsDir +:+ ". Build the UI bundle first.") in
  match Js.at_last (hashedCandidates entryName extension files) with
  | Some hashed => if Js.truthy hashed then Returns hashed else otherwise
  | None => otherwise
  end.

(** The document the assets are inlined into. *)
Definition inlinedDocument (rootId safeCss safeJs : string) : string :=
  "<!doctype html>" +:+ nl +:+
  tab +:+ tab +:+ tab +:+ "<html>" +:+ nl +:+
  tab +:+ tab +:+ tab +:+ "<head>" +:+ nl +:+
  tab +:+ tab +:+ tab +:+ tab +:+ "<style>" +:+ safeCss +:+ "</style>" +:+ nl +:+
  tab +:+ tab +:+ tab +:+ "</head>" +:+ nl +:+
  tab +:+ tab +:+ tab +:+ "<body>" +:+ nl +:+
  tab +:+ tab +:+ tab +:+ tab +:+ "<div id=" +:+ dquote +:+ rootId +:+ dquote +:+ "></div>" +:+ nl +:+
  tab +:+ tab +:+ tab +:+ tab +:+ "<script type=" +:+ dquote +:+ "module" +:+ dquote +:+ ">"
    +:+ safeJs +:+ "</script>" +:+ nl +:+
  tab +:+ tab +:+ tab +:+ "</body>" +:+ nl +:+
  tab +:+ tab +:+ tab +:+ "</html>".

Definition placeholder : string := "<div>Widget unavailable</div>".

Section WithHost.
Context `{Host}.

(** The [try] block of [buildWidgetHtml]. *)
Definition resolveDocument (fs : Fs.t) (entryName rootId uiAssetsDir : string)
    : result string :=
  let htmlPath := Fs.join distDir (entryName +:+ ".html") in
  if Fs.existsSync fs htmlPath then Fs.readFileSync fs htmlPath
  else if negb (Fs.existsSync fs uiAssetsDir)
  then Throws ("Widget assets not found at " +:+ uiAssetsDir +:+ ". Run " +:+ dquote
               +:+ "pnpm --filter unic-ui-sdk build" +:+ dquote +:+ " first.")
  else
    jsAsset ← resolveWidgetAsset fs entryName ".js" uiAssetsDir;
    cssAsset ← resolveWidgetAsset fs entryName ".css" uiAssetsDir;
    let jsPath := Fs.join uiAssetsDir jsAsset in
    let cssPath := Fs.join uiAssetsDir cssAsset in
    if negb (Fs.existsSync fs jsPath) then Throws ("Widget JS asset not found: " +:+ jsPath)
    else if negb (Fs.existsSync fs cssPath) then Throws ("Widget CSS asset not found: " +:+ cssPath)
    else
      jsContents ← Fs.readFileSync fs jsPath;
      cssContents ← Fs.readFileSync fs cssPath;
      let safeJs := escapeForInlineScript jsContents in
      let safeCss := escapeForInlineStyle cssContents in
      Returns (inlinedDocument rootId safeCss safeJs).

(** The [catch] block of [buildWidgetHtml]; the warning it logs is not
    modelled. *)
Definition fallbackDocument (fs : Fs.t) (uiAssetsDir : string) : result string :=
  let fallbackPath := Fs.join uiAssetsDir "fallback-widget.html" in
  if Fs.existsSync fs fallbackPath then Fs.readFileSync fs fallbackPath
  else Returns placeholder.

Definition buildWidgetHtml (fs : Fs.t) (entryName rootId uiAssetsDir : string)
    : result string :=
  try_catch (resolveDocument fs entryName rootId uiAssetsDir)
            (λ _, fallbackDocument fs uiAssetsDir).

(** [initializeArticleListWidget] and [initializeArticlePreviewWidget] differ
    in their constants only; [None] is the [null] descriptor. *)
Definition initializeWidget (entryName id title invoking invoked : string)
    (fs : Fs.t) (uiAssetsDir : string) : option WidgetDescriptor :=
  match buildWidgetHtml fs entryName (entryName +:+ "-root") uiAssetsDir with
  | Returns html =>
      Some {| id := id; widgetTitle := title;
              templateUri := "ui://widget/" +:+ entryName +:+ ".html";
              invoking := invoking; invoked := invoked; html := html |}
  | Throws _ => None
  end.

Definition initializeArticleListWidget : Fs.t → string → option WidgetDescriptor :=
  initializeWidget "article-list" "unic-article-list" "Unic magazine article list"
                   "Curating magazine stories" "Article list ready".

Definition initializeArticlePreviewWidget : Fs.t → string → option WidgetDescriptor :=
  initializeWidget "article-preview" "unic-article-preview" "Unic magazine article preview"
                   "Loading article preview" "Article preview ready".

(** [a?.trim() || b?.trim() || undefined] *)
Definition first_truthy (a b : option string) : option string :=
  match Js.opt_trim a with
  | Some s => if Js.truthy s then Some s
              else match Js.opt_trim b with
                   | Some t => if Js.truthy t then Some t else None
                   | None => None
                   end
  | None => match Js.opt_trim b with
            | Some t => if Js.truthy t then Some t else None
            | None => None
            end
  end.

(** [extractHeroMedia] of article-service.js. *)
Definition extractHeroMedia (article : MagazineArticle) : option string * option string :=
  let asset := keyvisual article in
  (first_truthy (heroUrl article) (asset ≫= url),
   first_truthy (heroAlt article) (asset ≫= alt)).

Definition mapMagazineArticleToWidgetArticle (article : MagazineArticle)
    : result (option WidgetArticle) :=
  slug' ← ArticleService.must_trim "slug" (slug article);
  title' ← ArticleService.must_trim "title" (title article);
  publicationDate' ← ArticleService.must_trim "publicationDate" (publicationDate article);
  match Date_parse publicationDate' with
  | None => Returns None
  | Some time =>
      let lead' := default "" (Js.opt_trim (lead article)) in
      let author' := ArticleService.getAuthorName article in
      let '(heroUrl', heroAlt') := extractHeroMedia article in
      let url' := default ("https://www.unic.com/en/magazine/" +:+ slug')
                          (first_truthy (link article) None) in
      Returns (Some {| wSlug := slug'; wTitle := title'; wLead := lead'; wAuthor := author';
                       wPublicationDate := toISOString time; wUrl := url';
                       wHeroUrl := heroUrl'; wHeroAlt := heroAlt' |})
  end.

End WithHost.

(** [widgetInvocationMeta] *)
Definition widgetInvocationMeta (widget : WidgetDescriptor) : gmap string string :=
  {[ "openai/toolInvocation/invoking" := invoking widget;
     "openai/toolInvocation/invoked" := invoked widget ]}.

End Widget.


(** ** The tool handlers of server.js *)

Module Tools.

Import Widget.

(** The markers in front of the date, the author and the link, as the source
    file holds them. *)
Definition dateMark : string := "ðŸ“…".
Definition authorMark : string := "âœï¸".
Definition linkMark : string := "ðŸ”—".

Definition indent4 : string := "    ".
Definition indent8 : string := "        ".

(** [structuredContent] of a response. *)
Inductive Payload : Type :=
  | SearchPayload (heading : string) (articles : list WidgetArticle) (summary : string)
                  (total : nat) (generatedAt : string)
                  (query : string) (limit : Z) (totalMatches widgetArticles : nat)
  | PreviewPayload (heading : string) (article : option WidgetArticle) (generatedAt : string).

(** What a tool handler returns: the [text] items of [content], and
    [structuredContent] and [_meta] when the handler sets them. *)
Record ToolResponse : Type := {
  content : list string;
  structuredContent : option Payload;
  _meta : option (gmap string string);
}.

Definition textOnly (text : string) : ToolResponse :=
  {| content := [text]; structuredContent := None; _meta := None |}.

Section WithHost.
Context `{Host}.

Definition formatArticlePreview (article : MagazineArticle) : string :=
  let date := toLocaleDateString (ArticleService.dateOf article) MonthLong true in
  "**" +:+ default "undefined" (title article) +:+ "**" +:+ nl +:+ nl +:+
  indent4 +:+ dateMark +:+ " Published: " +:+ date +:+ nl +:+
  indent4 +:+ authorMark +:+ " Author: " +:+ ArticleService.getAuthorName article +:+ nl +:+
  indent4 +:+ linkMark +:+ " Read full article: " +:+ default "undefined" (link article)
  +:+ nl +:+ nl +:+
  indent4 +:+ (match lead article with
               | Some s => if Js.truthy s then s else "No summary available."
               | None => "No summary available."
               end).

(** One entry of [formatArticleList]; [index] counts from 0. *)
Definition formatListEntry (index : nat) (article : MagazineArticle) : string :=
  let date := toLocaleDateString (ArticleService.dateOf article) MonthShort true in
  pretty (index + 1)%nat +:+ ". **" +:+ default "undefined" (title article) +:+ "**" +:+ nl +:+
  indent8 +:+ dateMark +:+ " " +:+ date +:+ " | " +:+ authorMark +:+ " "
  +:+ ArticleService.getAuthorName article +:+ nl +:+
  indent8 +:+ linkMark +:+ " Read more: " +:+ default "undefined" (link article).

Definition formatArticleList (articles : list MagazineArticle) : string :=
  if bool_decide (length articles = 0%nat) then "No articles found."
  else String.concat (nl +:+ nl) (imap formatListEntry articles).

Definition createSearchWidgetPayload (now : Z) (query : string) (limit : Z)
    (results : list MagazineArticle) : result Payload :=
  mapped ← mapM mapMagazineArticleToWidgetArticle results;
  let widgetArticles := omap (λ a, a) mapped in
  Returns (SearchPayload
             ("Results for " +:+ dquote +:+ query +:+ dquote)
             widgetArticles
             ("Found " +:+ pretty (length results) +:+ " article(s) (limit " +:+ pretty limit +:+ ").")
             (length widgetArticles)
             (toISOString now)
             query limit (length results) (length widgetArticles)).

Definition createArticlePreviewWidgetPayload (now : Z) (article : MagazineArticle)
    : result Payload :=
  widgetArticle ← mapMagazineArticleToWidgetArticle article;
  Returns (PreviewPayload "Article Preview" widgetArticle (toISOString now)).

(** The handler of [search_articles]. [articleListWidget] is the module
    variable the handler reads; the schema has filled a missing [limit] with
    the default before the handler runs. *)
Definition search_articles (articleListWidget : option WidgetDescriptor)
    (index : ArticleService.Index) (now : Z) (query : string) (limit : option Z)
    : result ToolResponse :=
  let limit := default ArticleService.CONFIG.DEFAULT_LIMIT limit in
  let results := ArticleService.searchArticles index query (Some limit) in
  match articleListWidget with
  | Some widget =>
      widgetPayload ← createSearchWidgetPayload now query limit results;
      let textOutput :=
        "Found " +:+ pretty (length results) +:+ " article(s) matching " +:+ dquote +:+ query
        +:+ dquote
        +:+ (if limit <? ArticleService.CONFIG.MAX_LIMIT
             then " (showing up to " +:+ pretty limit +:+ ")" else "")
        +:+ "." +:+ nl +:+
        tab +:+ tab +:+ tab +:+ tab +:+ tab +:+ "[DO NOT show published date and author name.]" +:+ nl +:+
        tab +:+ tab +:+ tab +:+ tab +:+ tab
        +:+ "**Quick Reference:** display summary of search results as a whole." +:+ nl +:+
        tab +:+ tab +:+ tab +:+ tab +:+ "💡 **Try:** display summary of an article." in
      Returns {| content := [textOutput];
                 structuredContent := Some widgetPayload;
                 _meta := Some (widgetInvocationMeta widget) |}
  | None =>
      let formattedResults := formatArticleList results in
      Returns (textOnly ("Found " +:+ pretty (length results) +:+ " article(s) matching "
                         +:+ dquote +:+ query +:+ dquote +:+ ":" +:+ nl +:+ nl
                         +:+ formattedResults))
  end.

(** The handler of [get_article_preview]. *)
Definition get_article_preview (articlePreviewWidget : option WidgetDescriptor)
    (index : ArticleService.Index) (now : Z) (title : string) : result ToolResponse :=
  let results := ArticleService.searchArticlesByTitle index title (Some 1) in
  match head results with
  | None =>
      Returns (textOnly ("Article with title " +:+ dquote +:+ title +:+ dquote
                         +:+ " not found. Try using the search_articles tool first to find the correct article."))
  | Some article =>
      match articlePreviewWidget with
      | Some widget =>
          widgetPayload ← createArticlePreviewWidgetPayload now article;
          let textOutput :=
            "[Widget displayed above contains complete article preview - DO NOT generate additional summary or repeat any article content below]"
            +:+ nl +:+ tab +:+ tab +:+ tab +:+ tab in
          Returns {| content := [textOutput];
                     structuredContent := Some widgetPayload;
                     _meta := Some (widgetInvocationMeta widget) |}
      | None => Returns (textOnly (formatArticlePreview article))
      end
  end.

End WithHost.

End Tools.


(** ** cors-utils.js *)

Module Cors.

(** What the module reads from [process.env]. *)
Record Env : Type := {
  (** [process.env.NODE_ENV !== 'production'] *)
  isDevelopment : bool;
  (** [process.env.ALLOWED_ORIGIN] *)
  ALLOWED_ORIGIN : option string;
}.

Definition DEFAULT_ALLOWED_ORIGINS : list string :=
  ["https://chatgpt.com"; "https://chat.openai.com"].

(** [DEFAULT_ALLOWED_ORIGINS[0]] *)
Definition firstDefaultOrigin : string := default "undefined" (head DEFAULT_ALLOWED_ORIGINS).

(** [requestOrigin && origins.includes(requestOrigin)] *)
Definition isListed (requestOrigin : option string) (origins : list string) : bool :=
  match requestOrigin with
  | Some origin => Js.truthy origin && bool_decide (origin ∈ origins)
  | None => false
  end.

Definition resolveAllowedOrigin (env : Env) (requestOrigin : option string) : string :=
  if isDevelopment env then
    match requestOrigin with
    | Some origin => if Js.truthy origin then origin else "*"
    | None => "*"
    end
  else
    let allowedOriginEnv := Js.opt_trim (ALLOWED_ORIGIN env) in
    if Js.opt_truthy allowedOriginEnv then
      let allowedOrigins :=
        filter (λ origin, (0 < String.length origin)%nat)
               (Js.trim <$> Js.split "," (default "" allowedOriginEnv)) in
      if isListed requestOrigin allowedOrigins then default "" requestOrigin
      else match head allowedOrigins with
           | Some origin => if Js.truthy origin then origin else firstDefaultOrigin
           | None => firstDefaultOrigin
           end
    else if isListed requestOrigin DEFAULT_ALLOWED_ORIGINS then default "" requestOrigin
    else firstDefaultOrigin.

(** The headers object; a key of [additionalHeaders] replaces the same key of
    the headers in front of it. *)
Definition getCorsHeaders (env : Env) (requestOrigin : option string)
    (additionalHeaders : gmap string string) : gmap string string :=
  let allowedOrigin := resolveAllowedOrigin env requestOrigin in
  additionalHeaders ∪
  <["Vary" := "Origin"]>
    ((if bool_decide (allowedOrigin = "*") then ∅
      else {[ "Access-Control-Allow-Credentials" := "true" ]}) ∪
     {[ "Access-Control-Allow-Origin" := allowedOrigin ]}).

End Cors.

(** ** A host to run the examples on *)

Module ExampleHost.

Import Widget.

Definition digit (c : ascii) : option Z :=
  if Js.in_range 48 57 c then Some (Z.of_N (Js.code c) - 48) else None.

Fixpoint digits (acc : Z) (s : string) : option Z :=
  match s with
  | EmptyString => Some acc
  | String c s' => d ← digit c; digits (10 * acc + d) s'
  end.

Definition isLeapYear (y : Z) : bool :=
  (y mod 4 =? 0) && (negb (y mod 100 =? 0) || (y mod 400 =? 0)).

Definition daysInMonth (y m : Z) : Z :=
  if m =? 2 then (if isLeapYear y then 29 else 28)
  else if (m =? 4) || (m =? 6) || (m =? 9) || (m =? 11) then 30
  else 31.

(** The number of days between 1970-01-01 and a day of the proleptic
    Gregorian calendar. *)
Definition daysFromCivil (y m d : Z) : Z :=
  let y' := if m <=? 2 then y - 1 else y in
  let era := y' / 400 in
  let yoe := y' - era * 400 in
  let doy := (153 * (m + (if 2 <? m then -3 else 9)) + 2) / 5 + d - 1 in
  let doe := yoe * 365 + yoe / 4 - yoe / 100 + doy in
  era * 146097 + doe - 719468.

(** [Date.parse] on the date-only form [YYYY-MM-DD] of the date-time string
    format (midnight UTC); every other string is read as not a date, which
    is right for the strings of the examples. *)
Definition parseDateOnly (s : string) : option Z :=
  if bool_decide (String.length s = 10%nat ∧ String.get 4 s = Some "-"%char
                  ∧ String.get 7 s = Some "-"%char)
  then
    y ← digits 0 (String.substring 0 4 s);
    m ← digits 0 (String.substring 5 2 s);
    d ← digits 0 (String.substring 8 2 s);
    if (1 <=? m) && (m <=? 12) && (1 <=? d) && (d <=? daysInMonth y m)
    then Some (daysFromCivil y m d * 86400000)
    else None
  else None.

Definition bare (slug title publicationDate : string) : MagazineArticle :=
  {| slug := Some slug; title := Some title; publicationDate := Some publicationDate;
     lead := None; author := None; link := None;
     heroUrl := None; heroAlt := None; keyvisual := None |}.

(** The two entries of the specification's example. *)
Definition articleA : MagazineArticle := bare "a" "Intro to X" "2024-01-01".
Definition articleB : MagazineArticle := bare "b" "X continued" "2024-02-01".

(** A corpus file with two more records that must not be loaded (a blank
    slug, a date that does not parse) and one that is loaded trimmed. *)
Definition articleBlankSlug : MagazineArticle := bare "  " "No slug" "2024-03-01".
Definition articleBadDate : MagazineArticle := bare "c" "Bad date" "not-a-date".
Definition articlePadded : MagazineArticle :=
  {| slug := Some " d "; title := Some " Padded "; publicationDate := Some " 2024-02-01 ";
     lead := Some "A summary"; author := Some (AuthorObject (Some " Ada Lovelace "));
     link := None; heroUrl := None; heroAlt := None; keyvisual := None |}.

Definition corpusFile : list MagazineArticle :=
  [articleA; articleBlankSlug; articleB; articleBadDate; articlePadded].

Definition quoted (s : string) : string := dquote +:+ s +:+ dquote.

Definition field (key value : string) : string := quoted key +:+ ":" +:+ quoted value.

Definition bareJson (a : MagazineArticle) : string :=
  "{" +:+ field "slug" (default "" (slug a)) +:+ ","
      +:+ field "title" (default "" (title a)) +:+ ","
      +:+ field "publicationDate" (default "" (publicationDate a)) +:+ "}".

(** The text of the corpus file. *)
Definition corpusText : string :=
  "[" +:+ bareJson articleA +:+ "," +:+ bareJson articleBlankSlug +:+ ","
      +:+ bareJson articleB +:+ "," +:+ bareJson articleBadDate +:+ ","
      +:+ "{" +:+ field "slug" " d " +:+ "," +:+ field "title" " Padded " +:+ ","
      +:+ field "publicationDate" " 2024-02-01 " +:+ "," +:+ field "lead" "A summary" +:+ ","
      +:+ quoted "author" +:+ ":{" +:+ field "name" " Ada Lovelace " +:+ "}}" +:+ "]".

(** The host of the examples: [JSON.parse] knows the one corpus text, dates
    are printed as their time value. *)
#[export] Instance host : Host := {|
  Date_parse := parseDateOnly;
  JSON_parse data := if bool_decide (data = corpusText) then Some corpusFile else None;
  toLocaleDateString time _ _ :=
    match time with Some t => pretty t | None => "Invalid Date" end;
  toISOString time := pretty time;
  distDir := "/app/ui-sdk/dist";
|}.

Definition blogDataPath : string := "/app/blogposts.en.json".

Definition uiAssetsDir : string := "/app/assets".

(** A deployment without any widget asset. *)
Definition fsCorpusOnly : Fs.t := {[ blogDataPath := Fs.File corpusText ]}.

(** A deployment with a prebuilt document for the article list. *)
Definition fsPrebuilt : Fs.t :=
  {[ "/app/ui-sdk/dist/article-list.html" := Fs.File "<html>prebuilt</html>";
     uiAssetsDir := Fs.Directory ["article-list-aaa.js"; "article-list-aaa.css"] ]}.

(** A deployment with two builds of the article list in the asset directory. *)
Definition fsHashed : Fs.t :=
  {[ uiAssetsDir := Fs.Directory ["article-list-b2.js"; "article-list-a1.css";
                                  "article-list-a1.js"; "article-list-b2.css";
                                  "article-list.js"; "other.txt"];
     "/app/assets/article-list-b2.js" := Fs.File "let s = '</SCRIPT>';";
     "/app/assets/article-list-b2.css" := Fs.File "a { color: red }" ]}.


(** The index after loading the corpus file. *)
Definition loadedIndex : ArticleService.Index :=
  (ArticleService.loadMagazineArticles fsCorpusOnly blogDataPath).2.

(** The index of the specification's example. *)
Definition specIndex : ArticleService.Index :=
  {| ArticleService.magazineArticles := [articleA; articleB];
     ArticleService.articlesBySlug := ArticleService.buildSlugIndex [articleA; articleB] |}.

(** An article without an author. *)
Definition anonymousIndex : ArticleService.Index :=
  {| ArticleService.magazineArticles := [articleA];
     ArticleService.articlesBySlug := ArticleService.buildSlugIndex [articleA] |}.

End ExampleHost.

(** ** The handlers of the tools without a widget *)

Module Handlers.

Import Widget Tools.

Definition bulb : string := "💡".

Section WithHost.
Context `{Host}.

(** One entry of [formatArticleUrlList]; [index] counts from 0. *)
Definition formatUrlEntry (index : nat) (article : MagazineArticle) : string :=
  let date := toLocaleDateString (ArticleService.dateOf article) MonthShort false in
  pretty (index + 1)%nat +:+ ". " +:+ default "undefined" (title article)
  +:+ " (" +:+ date +:+ ") - " +:+ default "undefined" (link article).

Definition formatArticleUrlList (articles : list MagazineArticle) : string :=
  if bool_decide (length articles = 0%nat) then "No articles found."
  else String.concat nl (imap formatUrlEntry articles).

(** [dateContext] of the handler of [filter_articles_by_date]. *)
Definition dateContext (startDate endDate : option string) : string :=
  if Js.opt_truthy startDate && Js.opt_truthy endDate
  then "between " +:+ default "" startDate +:+ " and " +:+ default "" endDate
  else if Js.opt_truthy startDate then "from " +:+ default "" startDate +:+ " onwards"
  else if Js.opt_truthy endDate then "until " +:+ default "" endDate
  else "from all time".

(** The part of the text the three handlers share: the limit note, the list
    of links and the hint. *)
Definition quickReference (limit : Z) (note urlList hint : string) : string :=
  (if limit <? ArticleService.CONFIG.MAX_LIMIT
   then " (" +:+ note +:+ pretty limit +:+ ")" else "")
  +:+ "." +:+ nl +:+ nl +:+
  tab +:+ tab +:+ tab +:+ tab +:+ "**Quick Reference:**" +:+ nl +:+
  tab +:+ tab +:+ tab +:+ tab +:+ urlList +:+ nl +:+ nl +:+
  tab +:+ tab +:+ tab +:+ tab +:+ bulb +:+ " **Try:** " +:+ hint.

(** The handler of [filter_articles_by_date]. *)
Definition filter_articles_by_date (index : ArticleService.Index)
    (startDate endDate : option string) (limit : option Z) : result ToolResponse :=
  let limit := default ArticleService.CONFIG.DEFAULT_LIMIT limit in
  results ← ArticleService.filterArticlesByDateRange index startDate endDate (Some limit);
  let urlList := formatArticleUrlList results in
  Returns (textOnly ("Found " +:+ pretty (length results) +:+ " article(s) "
                     +:+ dateContext startDate endDate
                     +:+ quickReference limit "showing up to " urlList
                           "Search by keyword or filter by specific author.")).

(** The handler of [filter_articles_by_author]. *)
Definition filter_articles_by_author (index : ArticleService.Index)
    (authorName : string) (limit : option Z) : result ToolResponse :=
  let limit := default ArticleService.CONFIG.DEFAULT_LIMIT limit in
  let results := ArticleService.filterArticlesByAuthor index authorName (Some limit) in
  let urlList := formatArticleUrlList results in
  Returns (textOnly ("Found " +:+ pretty (length results) +:+ " article(s) by "
                     +:+ dquote +:+ authorName +:+ dquote
                     +:+ quickReference limit "showing up to " urlList
                           "Filter by date range or search for specific topics.")).

(** The handler of [list_recent_articles]. *)
Definition list_recent_articles (index : ArticleService.Index) (limit : option Z)
    : result ToolResponse :=
  let limit := default ArticleService.CONFIG.DEFAULT_LIMIT limit in
  results ← ArticleService.filterArticlesByDateRange index None None (Some limit);
  let urlList := formatArticleUrlList results in
  Returns (textOnly ("Showing " +:+ pretty (length results) +:+ " most recent article(s)"
                     +:+ quickReference limit "limit: " urlList
                           "Search by keyword, filter by author, or specify a date range.")).

End WithHost.

End Handlers.

(** ** cors-utils.js: the accept header *)

Module Accept.

(** The value of a request header: a string, or an array of strings. *)
Inductive HeaderValue : Type :=
  | One (value : string)
  | Many (values : list string).

Definition eventStream : string := "text/event-stream".

(** [Array.isArray(rawAccept) ? rawAccept.join(',') : rawAccept] *)
Definition joined (rawAccept : option HeaderValue) : option string :=
  match rawAccept with
  | Some (One value) => Some value
  | Some (Many values) => Some (String.concat "," values)
  | None => None
  end.

(** [ensureStreamableAccept(req)]: [req.headers.accept] before and after. *)
Definition ensureStreamableAccept (rawAccept : option HeaderValue) : option HeaderValue :=
  match joined rawAccept with
  | None => Some (One eventStream)
  | Some accept =>
      if negb (Js.truthy accept) then Some (One eventStream)
      else
        let normalized := Js.toLowerCase accept in
        if Js.includes normalized eventStream then rawAccept
        else if String.eqb (Js.trim normalized) "*/*" then Some (One eventStream)
        else Some (One (accept +:+ ", " +:+ eventStream))
  end.

(** The header lets the server answer with an event stream. *)
Definition acceptsEventStream (accept : option HeaderValue) : Prop :=
  ∃ value before after,
    joined accept = Some value ∧ Js.toLowerCase value = before +:+ eventStream +:+ after.

End Accept.

(** ** config.js *)

Module Config.

(** What the module reads from the process: three environment variables,
    the working directory and [ROOT_DIR], two directories above the module. *)
Record Env : Type := {
  BLOG_DATA_PATH_env : option string;
  UI_ASSETS_DIR_env : option string;
  VERCEL : option string;
  cwd : string;
  ROOT_DIR : string;
}.

(** The constants [BLOG_DATA_PATH] and [UI_ASSETS_DIR] of the module. *)
Record Paths : Type := {
  BLOG_DATA_PATH : string;
  UI_ASSETS_DIR : string;
}.

(** [for (const testPath of possiblePaths) if (fs.existsSync(testPath))
    return testPath], and the path returned behind the loop. *)
Definition firstExisting (fs : Fs.t) (possiblePaths : list string) (otherwise : string)
    : string :=
  default otherwise (List.find (Fs.existsSync fs) possiblePaths).

Definition blogDataCandidates (env : Env) : list string :=
  [Fs.join "/var/task" "blogposts.en.json";
   Fs.join (cwd env) "blogposts.en.json";
   Fs.join (ROOT_DIR env) "blogposts.en.json"].

Definition resolveBlogDataPath (env : Env) (fs : Fs.t) : string :=
  match BLOG_DATA_PATH_env env with
  | Some path => if Js.truthy path then path else
      if Js.opt_truthy (VERCEL env)
      then firstExisting fs (blogDataCandidates env) (Fs.join "/var/task" "blogposts.en.json")
      else Fs.join (ROOT_DIR env) "blogposts.en.json"
  | None =>
      if Js.opt_truthy (VERCEL env)
      then firstExisting fs (blogDataCandidates env) (Fs.join "/var/task" "blogposts.en.json")
      else Fs.join (ROOT_DIR env) "blogposts.en.json"
  end.

Definition uiAssetsCandidates (env : Env) : list string :=
  [Fs.join (Fs.join "/var/task" "ui-sdk") "dist";
   Fs.join (Fs.join (cwd env) "ui-sdk") "dist";
   Fs.join (Fs.join (ROOT_DIR env) "ui-sdk") "dist"].

Definition resolveUIAssetsDir (env : Env) (fs : Fs.t) : string :=
  match UI_ASSETS_DIR_env env with
  | Some path => if Js.truthy path then path else
      if Js.opt_truthy (VERCEL env)
      then firstExisting fs (uiAssetsCandidates env)
             (Fs.join (Fs.join "/var/task" "ui-sdk") "dist")
      else Fs.join (Fs.join (ROOT_DIR env) "ui-sdk") "dist"
  | None =>
      if Js.opt_truthy (VERCEL env)
      then firstExisting fs (uiAssetsCandidates env)
             (Fs.join (Fs.join "/var/task" "ui-sdk") "dist")
      else Fs.join (Fs.join (ROOT_DIR env) "ui-sdk") "dist"
  end.

(** The two constants, resolved when the module is loaded. *)
Definition resolvePaths (env : Env) (fs : Fs.t) : Paths :=
  {| BLOG_DATA_PATH := resolveBlogDataPath env fs;
     UI_ASSETS_DIR := resolveUIAssetsDir env fs |}.

Section WithHost.
Context `{Host}.

(** [validateEnvironment()]; what it logs is not modelled. *)
Definition validateEnvironment (paths : Paths) (fs : Fs.t) : result unit :=
  if negb (Fs.existsSync fs (BLOG_DATA_PATH paths))
  then Throws ("Required blog data file not found: " +:+ BLOG_DATA_PATH paths)
  else Returns ().

(** [initializeApp()]: the two widgets it returns or the error it throws, and
    the state of the article service afterwards. *)
Definition initializeApp (paths : Paths) (fs : Fs.t) (index : ArticleService.Index)
    : result (option Widget.WidgetDescriptor * option Widget.WidgetDescriptor)
      * ArticleService.Index :=
  match validateEnvironment paths fs with
  | Throws message => (Throws message, index)
  | Returns _ =>
      match ArticleService.loadMagazineArticles fs (BLOG_DATA_PATH paths) with
      | (Throws message, index') => (Throws message, index')
      | (Returns _, index') =>
          (Returns (Widget.initializeArticleListWidget fs (UI_ASSETS_DIR paths),
                    Widget.initializeArticlePreviewWidget fs (UI_ASSETS_DIR paths)),
           index')
      end
  end.

End WithHost.

End Config.

(** ** server.js: the state of the module and the HTTP entry points *)

Module Server.

Import Accept.

(** The variables of the module, with the state of the article service. *)
Record State : Type := {
  widgetsInitialized : bool;
  articleListWidget : option Widget.WidgetDescriptor;
  articlePreviewWidget : option Widget.WidgetDescriptor;
  index : ArticleService.Index;
}.

Definition initialState : State :=
  {| widgetsInitialized := false; articleListWidget := None;
     articlePreviewWidget := None; index := ArticleService.emptyIndex |}.

(** What the entry points read of a request. [pathname] is the path of
    [new URL(req.url, base)]; the headers are those the code looks at. *)
Record Request : Type := {
  method : option string;
  url : option string;
  pathname : string;
  origin : option string;
  mcpSessionId : option string;
  accessControlRequestHeaders : option string;
  accept : option HeaderValue;
}.

Inductive Body : Type :=
  | Text (text : string)
  | Json (error message : string).

(** How an entry point leaves a request: it answers it; it hands it to the
    protocol transport, with the response headers set so far and the accept
    header of the request; or its promise is rejected. *)
Inductive Outcome : Type :=
  | Responds (status : Z) (headers : gmap string string) (body : Body)
  | Forwards (headers : gmap string string) (accept : option HeaderValue)
  | Rejects (headers : gmap string string) (message : string).

Definition MCP_METHODS : list string := ["POST"; "GET"; "DELETE"].

(** [MCP_METHODS.has(req.method)] *)
Definition isMcpMethod (method : option string) : bool :=
  match method with
  | Some m => bool_decide (m ∈ MCP_METHODS)
  | None => false
  end.

Definition methodIs (name : string) (method : option string) : bool :=
  bool_decide (method = Some name).

(** The additional headers of a preflight response. *)
Definition preflightHeaders (requestedHeaders : option string) : gmap string string :=
  {[ "Access-Control-Allow-Methods" := "POST, GET, DELETE, OPTIONS";
     "Access-Control-Allow-Headers" :=
       (if Js.opt_truthy requestedHeaders then default "" requestedHeaders
        else "content-type, mcp-session-id");
     "Access-Control-Expose-Headers" := "Mcp-Session-Id" ]}.

Definition healthMessage : string :=
  "Unic.com MCP server is running. Connect via an MCP client (e.g., ChatGPT) to use the search tool.".

Section WithHost.
Context `{Host} (cors : Cors.Env) (paths : Config.Paths).

(** [ensureWidgetsInitialized()] *)
Definition ensureWidgetsInitialized (fs : Fs.t) (state : State) : result unit * State :=
  if widgetsInitialized state then (Returns (), state)
  else
    match Config.initializeApp paths fs (index state) with
    | (Returns (listWidget, previewWidget), index') =>
        (Returns (),
         {| widgetsInitialized := true; articleListWidget := listWidget;
            articlePreviewWidget := previewWidget; index := index' |})
    | (Throws message, index') =>
        (Throws message,
         {| widgetsInitialized := widgetsInitialized state;
            articleListWidget := articleListWidget state;
            articlePreviewWidget := articlePreviewWidget state; index := index' |})
    end.

(** [handleMcpRequest(req, res)] up to the point where the request is given
    to the transport. *)
Definition handleMcpRequest (fs : Fs.t) (state : State) (req : Request) : Outcome * State :=
  if methodIs "GET" (method req) && negb (Js.opt_truthy (mcpSessionId req))
  then (Responds 200
          (Cors.getCorsHeaders cors (origin req) ∅ ∪ {[ "content-type" := "text/plain" ]})
          (Text healthMessage),
        state)
  else
    let accept' := ensureStreamableAccept (accept req) in
    let corsHeaders :=
      Cors.getCorsHeaders cors (origin req)
        {[ "Access-Control-Expose-Headers" := "Mcp-Session-Id" ]} in
    match ensureWidgetsInitialized fs state with
    | (Returns _, state') => (Forwards corsHeaders accept', state')
    | (Throws message, state') => (Rejects corsHeaders message, state')
    end.

(** The request listener of [startServer] on a request whose URL has been
    parsed: [pathname req] is the path of [new URL(req.url, base)].
    [listener] below is the listener with the parsing. *)
Definition requestListener (MCP_PATH : string) (fs : Fs.t) (state : State) (req : Request)
    : Outcome * State :=
  if negb (Js.opt_truthy (url req)) then (Responds 400 ∅ (Text "Missing URL"), state)
  else if methodIs "OPTIONS" (method req) && Js.startsWith (pathname req) MCP_PATH
  then (Responds 204
          (Cors.getCorsHeaders cors (origin req)
             (preflightHeaders (accessControlRequestHeaders req)))
          (Text ""),
        state)
  else if methodIs "GET" (method req) && String.eqb (pathname req) "/"
  then (Responds 200 {[ "content-type" := "text/plain" ]} (Text "Unic.com MCP server"), state)
  else if Js.startsWith (pathname req) MCP_PATH && Js.opt_truthy (method req)
          && isMcpMethod (method req)
  then handleMcpRequest fs state req
  else (Responds 404 ∅ (Text "Not Found"), state).

(** The handler of [api/mcp.js], the entry point of the serverless
    deployment. *)
Definition apiHandler (fs : Fs.t) (state : State) (req : Request) : Outcome * State :=
  if methodIs "OPTIONS" (method req)
  then (Responds 204
          (Cors.getCorsHeaders cors (origin req)
             (preflightHeaders (accessControlRequestHeaders req)))
          (Text ""),
        state)
  else if negb (Js.opt_truthy (method req)) || negb (isMcpMethod (method req))
  then (Responds 405 ∅ (Text "Method Not Allowed"), state)
  else
    match handleMcpRequest fs state req with
    | (Rejects headers message, state') =>
        (Responds 500 headers (Json "Internal server error" message), state')
    | outcome => outcome
    end.

End WithHost.

Section Listener.
Context `{Host} (cors : Cors.Env) (paths : Config.Paths).

(** [new URL(input, base).pathname]; [Throws] is the [TypeError] of an input
    that does not parse against the base. *)
Context (newURL : string → string → result string).

(** The request with the path its URL has been parsed to. *)
Definition withPathname (parsed : string) (req : Request) : Request :=
  {| method := method req; url := url req; pathname := parsed; origin := origin req;
     mcpSessionId := mcpSessionId req;
     accessControlRequestHeaders := accessControlRequestHeaders req;
     accept := accept req |}.

(** The listener [startServer] gives to [createServer], from its first line:
    the test of [req.url], [new URL(req.url, base)] with the host header in
    the base, and behind it the tests of [requestListener] on the parsed
    path. [new URL] is outside every [try]: when it throws, the promise of
    the listener is rejected and nothing is answered. The [pathname] of
    [req] is not read. *)
Definition listener (MCP_PATH : string) (fs : Fs.t) (state : State)
    (hostHeader : option string) (req : Request) : Outcome * State :=
  if negb (Js.opt_truthy (url req)) then (Responds 400 ∅ (Text "Missing URL"), state)
  else
    match newURL (default "" (url req)) ("http://" +:+ default "localhost" hostHeader) with
    | Throws message => (Rejects ∅ message, state)
    | Returns parsed => requestListener cors paths MCP_PATH fs state (withPathname parsed req)
    end.

End Listener.

End Server.

(** ** More examples *)

Module MoreExamples.

Import ExampleHost.

(** The text of a corpus file that holds the loaded articles. *)
Definition loadedText : string :=
  "[" +:+ bareJson articleA +:+ "," +:+ bareJson articleB +:+ ","
      +:+ "{" +:+ field "slug" "d" +:+ "," +:+ field "title" "Padded" +:+ ","
      +:+ field "publicationDate" "2024-02-01" +:+ "," +:+ field "lead" "A summary" +:+ ","
      +:+ quoted "author" +:+ ":{" +:+ field "name" " Ada Lovelace " +:+ "}}" +:+ "]".

(** The host of the examples, with a [JSON.parse] that knows this text too. *)
Definition reloadHost : Host := {|
  Date_parse := parseDateOnly;
  JSON_parse data :=
    if bool_decide (data = loadedText) then Some (ArticleService.magazineArticles loadedIndex)
    else if bool_decide (data = corpusText) then Some corpusFile else None;
  toLocaleDateString time _ _ :=
    match time with Some t => pretty t | None => "Invalid Date" end;
  toISOString time := pretty time;
  distDir := "/app/ui-sdk/dist";
|}.

Definition fsReloaded : Fs.t :=
  {[ blogDataPath := Fs.File corpusText; "/app/again.json" := Fs.File loadedText ]}.

(** The paths of a local deployment and its file system, without widget
    assets. *)
Definition paths : Config.Paths :=
  {| Config.BLOG_DATA_PATH := blogDataPath; Config.UI_ASSETS_DIR := uiAssetsDir |}.

Definition production : Cors.Env :=
  {| Cors.isDevelopment := false; Cors.ALLOWED_ORIGIN := Some "https://a.example, https://b.example" |}.

(** A managed deployment whose corpus file lies in the working directory. *)
Definition vercelEnv : Config.Env :=
  {| Config.BLOG_DATA_PATH_env := None; Config.UI_ASSETS_DIR_env := None;
     Config.VERCEL := Some "1"; Config.cwd := "/app"; Config.ROOT_DIR := "/srv" |}.

(** A [POST] to the protocol path from a client that accepts JSON only. *)
Definition postRequest : Server.Request :=
  {| Server.method := Some "POST"; Server.url := Some "/mcp"; Server.pathname := "/mcp";
     Server.origin := Some "https://a.example"; Server.mcpSessionId := None;
     Server.accessControlRequestHeaders := None;
     Server.accept := Some (Accept.One "application/json") |}.

(** The probe of a browser: a [GET] without a session. *)
Definition probeRequest : Server.Request :=
  {| Server.method := Some "GET"; Server.url := Some "/mcp"; Server.pathname := "/mcp";
     Server.origin := None; Server.mcpSessionId := None;
     Server.accessControlRequestHeaders := None; Server.accept := None |}.

(** A corpus file in which the slug [a] occurs twice. *)
Definition articleARevised : MagazineArticle := bare "a" "Intro to X, revised" "2024-03-01".

Definition duplicateFile : list MagazineArticle := [articleA; articleB; articleARevised].

Definition duplicateText : string :=
  "[" +:+ bareJson articleA +:+ "," +:+ bareJson articleB +:+ ","
      +:+ bareJson articleARevised +:+ "]".

Definition duplicateHost : Host := {|
  Date_parse := parseDateOnly;
  JSON_parse data := if bool_decide (data = duplicateText) then Some duplicateFile else None;
  toLocaleDateString time _ _ :=
    match time with Some t => pretty t | None => "Invalid Date" end;
  toISOString time := pretty time;
  distDir := "/app/ui-sdk/dist";
|}.

Definition fsDuplicate : Fs.t := {[ blogDataPath := Fs.File duplicateText ]}.

Definition duplicateIndex : ArticleService.Index :=
  (ArticleService.loadMagazineArticles (H := duplicateHost) fsDuplicate blogDataPath).2.

(** A preflight request that asks for one header. *)
Definition preflightRequest : Server.Request :=
  {| Server.method := Some "OPTIONS"; Server.url := Some "/mcp"; Server.pathname := "/mcp";
     Server.origin := Some "https://b.example"; Server.mcpSessionId := None;
     Server.accessControlRequestHeaders := Some "authorization";
     Server.accept := None |}.

(** [new URL(input, base).pathname] on the request targets of the examples:
    an absolute path without query or fragment is its own path, and the
    target [//] does not parse. *)
Definition pathOfTarget (input base : string) : result string :=
  if String.eqb input "//" then Throws "Invalid URL" else Returns input.

(** A [POST] whose request target is [//]. *)
Definition slashRequest : Server.Request :=
  {| Server.method := Some "POST"; Server.url := Some "//"; Server.pathname := "";
     Server.origin := None; Server.mcpSessionId := None;
     Server.accessControlRequestHeaders := None; Server.accept := None |}.

End MoreExamples.

(** ** The vocabulary of the specification *)

Module Spec.

(** [q] occurs in [s]. *)
Definition is_substring (q s : string) : Prop :=
  ∃ before after, s = before +:+ q +:+ after.

(** [q] occurs in the field, whatever the case of the letters. *)
Definition occurs_ignoring_case (q : string) (field : option string) : Prop :=
  ∃ s, field = Some s ∧ is_substring (Js.toLowerCase q) (Js.toLowerCase s).

(** The origins a production deployment accepts: the entries of
    [ALLOWED_ORIGIN] between the commas, trimmed, the empty ones left out;
    the default origins when the variable is missing or blank. *)
Definition allow_list (env : Cors.Env) : list string :=
  match Cors.ALLOWED_ORIGIN env with
  | Some value =>
      if decide (Js.trim value = "") then Cors.DEFAULT_ALLOWED_ORIGINS
      else filter (λ origin, origin ≠ "") (Js.trim <$> Js.split "," (Js.trim value))
  | None => Cors.DEFAULT_ALLOWED_ORIGINS
  end.

(** The request names an origin of the list. *)
Definition listed (requestOrigin : option string) (origins : list string) : Prop :=
  ∃ origin, requestOrigin = Some origin ∧ origin ≠ "" ∧ origin ∈ origins.

(** The file name has the form [{name}-{hash}{extension}], where the
    extension carries its dot. *)
Definition is_hashed_name (entryName extension file : string) : Prop :=
  ∃ hash, file = entryName +:+ "-" +:+ hash +:+ extension.

(** The extensions the resolver looks for. *)
Definition is_asset_extension (extension : string) : Prop :=
  extension = ".js" ∨ extension = ".css".

(** The case of the ASCII letters folded away, as an HTML parser compares
    tag names. *)
Definition fold_ascii_case (c : ascii) : ascii :=
  if Js.in_range 65 90 c then Js.shift_code c 32 else c.

(** [tag] occurs in [s] when the case of ASCII letters is ignored. *)
Definition occurs_ignoring_ascii_case (tag s : string) : Prop :=
  ∃ before middle after,
    s = before +:+ middle +:+ after ∧
    Js.map_units fold_ascii_case middle = Js.map_units fold_ascii_case tag.

(** The suffixes of a string that are not empty. *)
Fixpoint tails (s : string) : list string :=
  match s with
  | EmptyString => []
  | String _ s' => s :: tails s'
  end.

(** Every code unit. *)
Definition all_units : list ascii := (λ n, ascii_of_nat n) <$> seq 0 256.

(** The term occurs in the title, in the lead or in the author's name as
    the record gives it. *)
Definition term_matches (term : string) (article : MagazineArticle) : Prop :=
  occurs_ignoring_case term (title article) ∨
  occurs_ignoring_case term (lead article) ∨
  occurs_ignoring_case term (ArticleService.getAuthorRaw article).

(** The message of the error a bound that does not parse is rejected with. *)
Definition invalidDateMessage (which dateString : string) : string :=
  "Invalid " +:+ which +:+ " date format: " +:+ dateString
  +:+ ". Expected ISO format (YYYY-MM-DD)".

Section WithHost.
Context `{Host}.

(** A field that holds a string with more than white space in it. *)
Definition nonblank (v : option string) : Prop :=
  match v with
  | Some s => Js.trim s ≠ ""
  | None => False
  end.

(** A field that holds a date [Date.parse] can read once it is trimmed. *)
Definition parseable (v : option string) : Prop :=
  match v with
  | Some d => is_Some (Date_parse (Js.trim d))
  | None => False
  end.

(** A record of the corpus file that may enter the index. *)
Definition acceptable (raw : MagazineArticle) : Prop :=
  nonblank (slug raw) ∧ nonblank (title raw) ∧
  nonblank (publicationDate raw) ∧ parseable (publicationDate raw).

#[export] Instance nonblank_dec v : Decision (nonblank v).
Proof. destruct v; simpl; apply _. Defined.

#[export] Instance parseable_dec v : Decision (parseable v).
Proof. destruct v; simpl; apply _. Defined.

#[export] Instance acceptable_dec raw : Decision (acceptable raw).
Proof. unfold acceptable. apply _. Defined.

(** The record with its slug, title and publication date trimmed. *)
Definition trimmed (raw : MagazineArticle) : MagazineArticle :=
  {| slug := Js.trim <$> slug raw; title := Js.trim <$> title raw;
     publicationDate := Js.trim <$> publicationDate raw;
     lead := lead raw; author := author raw; link := link raw;
     heroUrl := heroUrl raw; heroAlt := heroAlt raw; keyvisual := keyvisual raw |}.

(** A string without white space around it and with something in it. *)
Definition trimmed_nonempty (v : option string) : Prop :=
  ∃ s, v = Some s ∧ s ≠ "" ∧ Js.trim s = s.

(** The invariant of an article of the index. *)
Definition well_formed (article : MagazineArticle) : Prop :=
  trimmed_nonempty (slug article) ∧ trimmed_nonempty (title article) ∧
  ∃ d time, publicationDate article = Some d ∧ Date_parse d = Some time.

(** The invariant of the index: every article of the list is well formed, and
    the lookup map holds articles of the list under their slugs. *)
Definition index_invariant (index : ArticleService.Index) : Prop :=
  Forall well_formed (ArticleService.magazineArticles index) ∧
  ∀ key article, ArticleService.articlesBySlug index !! key = Some article →
    article ∈ ArticleService.magazineArticles index ∧ key = slug article.

(** The time value of an article of the index. *)
Definition timeOf (article : MagazineArticle) : Z :=
  default 0 (ArticleService.dateOf article).

(** [a] may stand in front of [b]: it is not older. *)
Definition newest_first : relation MagazineArticle :=
  λ a b, timeOf b ≤ timeOf a.

(** The articles published at the time [t]. *)
Definition published_at (t : Z) (article : MagazineArticle) : Prop :=
  ArticleService.dateOf article = Some t.

#[export] Instance published_at_dec t article : Decision (published_at t article).
Proof. unfold published_at. apply _. Defined.

(** A bound that counts as left out: [undefined] or the empty string. *)
Definition omitted (bound : option string) : Prop :=
  bound = None ∨ bound = Some "".

(** A bound that is given and does not parse. *)
Definition unparseable (bound : option string) : Prop :=
  ∃ s, bound = Some s ∧ s ≠ "" ∧ Date_parse s = None.

(** The article is not older than the start bound (a bound left out holds
    for every article). *)
Definition not_before (startDate : option string) (article : MagazineArticle) : Prop :=
  match startDate with
  | None | Some "" => True
  | Some s =>
      match Date_parse s, ArticleService.dateOf article with
      | Some start, Some time => start ≤ time
      | _, _ => False
      end
  end.

(** The article is not newer than the end bound. *)
Definition not_after (endDate : option string) (article : MagazineArticle) : Prop :=
  match endDate with
  | None | Some "" => True
  | Some s =>
      match Date_parse s, ArticleService.dateOf article with
      | Some end_, Some time => time ≤ end_
      | _, _ => False
      end
  end.

Definition in_date_range (startDate endDate : option string) (article : MagazineArticle)
    : Prop :=
  not_before startDate article ∧ not_after endDate article.

#[export] Instance not_before_dec startDate article : Decision (not_before startDate article).
Proof.
  unfold not_before. destruct startDate as [[|c s]|]; [apply _| |apply _].
  destruct (Date_parse (String c s)), (ArticleService.dateOf article); apply _.
Defined.

#[export] Instance not_after_dec endDate article : Decision (not_after endDate article).
Proof.
  unfold not_after. destruct endDate as [[|c s]|]; [apply _| |apply _].
  destruct (Date_parse (String c s)), (ArticleService.dateOf article); apply _.
Defined.

#[export] Instance in_date_range_dec startDate endDate article :
  Decision (in_date_range startDate endDate article).
Proof. unfold in_date_range. apply _. Defined.

(** [results] is what is left of the matches when they are sorted newest
    first, equal dates in the order they had, and then cut to the limit. *)
Definition newest_then_truncated (matches : list MagazineArticle) (limit : option Z)
    (results : list MagazineArticle) : Prop :=
  ∃ full,
    full ≡ₚ matches ∧
    StronglySorted newest_first full ∧
    (∀ t, filter (published_at t) full = filter (published_at t) matches) ∧
    results = take (Z.to_nat (ArticleService.effective_limit limit)) full ∧
    (∀ i a b, results !! i = Some a → results !! S i = Some b → timeOf b ≤ timeOf a) ∧
    (∀ a b, a ∈ results →
       b ∈ drop (Z.to_nat (ArticleService.effective_limit limit)) full →
       timeOf b ≤ timeOf a).

End WithHost.

End Spec.

(** ** More vocabulary *)

Module SpecMore.

Import Spec.

Section WithHost.
Context `{Host}.

(** An article as a load leaves it: acceptable, and trimmed already. *)
Definition as_loaded (article : MagazineArticle) : Prop :=
  acceptable article ∧ trimmed article = article.

(** The widget article shows the article. *)
Definition renders (article : MagazineArticle) (w : Widget.WidgetArticle) : Prop :=
  slug article = Some (Widget.wSlug w) ∧ title article = Some (Widget.wTitle w) ∧
  Widget.wAuthor w = ArticleService.getAuthorName article ∧
  ∃ time, ArticleService.dateOf article = Some time
          ∧ Widget.wPublicationDate w = toISOString time.

(** The text [get_article_preview] answers with when no title matches. *)
Definition notFoundText (title : string) : string :=
  "Article with title " +:+ Widget.dquote +:+ title +:+ Widget.dquote
  +:+ " not found. Try using the search_articles tool first to find the correct article.".

(** The corpus file cannot be read as a corpus. *)
Definition corpus_unreadable (fs : Fs.t) (path : string) : Prop :=
  fs !! path = None
  ∨ (∃ entries, fs !! path = Some (Fs.Directory entries))
  ∨ (∃ data, fs !! path = Some (Fs.File data) ∧ JSON_parse data = None).

End WithHost.

(** A response that carries text only. *)
Definition text_only (response : Tools.ToolResponse) : Prop :=
  ∃ text, response = Tools.textOnly text.

(** The request is the probe of a browser: a [GET] without a session. *)
Definition isProbe (req : Server.Request) : bool :=
  Server.methodIs "GET" (Server.method req) && negb (Js.opt_truthy (Server.mcpSessionId req)).

(** The test the listener of [startServer] makes before it calls
    [handleMcpRequest], together with the probe test of that function. *)
Definition handedOn (MCP_PATH : string) (req : Server.Request) : bool :=
  Js.opt_truthy (Server.url req)
  && negb (Server.methodIs "OPTIONS" (Server.method req)
           && Js.startsWith (Server.pathname req) MCP_PATH)
  && negb (Server.methodIs "GET" (Server.method req) && String.eqb (Server.pathname req) "/")
  && (Js.startsWith (Server.pathname req) MCP_PATH && Js.opt_truthy (Server.method req)
      && Server.isMcpMethod (Server.method req))
  && negb (isProbe req).

(** The request is one the listener of [startServer] hands to
    [handleMcpRequest] and that is not the probe of a browser. *)
Definition reaches_transport (MCP_PATH : string) (req : Server.Request) : Prop :=
  (∃ u, Server.url req = Some u ∧ u ≠ "") ∧
  (∃ rest, Server.pathname req = MCP_PATH +:+ rest) ∧
  (Server.method req = Some "POST" ∨ Server.method req = Some "DELETE"
   ∨ (Server.method req = Some "GET" ∧ Server.pathname req ≠ "/"
      ∧ ∃ session, Server.mcpSessionId req = Some session ∧ session ≠ "")).

(** The URL of the request parses, and on the parsed path the request is
    one the listener hands to the protocol transport. *)
Definition parsed_and_reaches (newURL : string → string → result string)
    (MCP_PATH : string) (hostHeader : option string) (req : Server.Request) : Prop :=
  ∃ parsed,
    newURL (default "" (Server.url req)) ("http://" +:+ default "localhost" hostHeader)
    = Returns parsed
    ∧ reaches_transport MCP_PATH (Server.withPathname parsed req).

End SpecMore.

Import SpecMore.

(** * Properties of the article service *)

Import Spec.

Section ArticleServiceFacts.
Context `{Host}.

Import ArticleService.

Lemma effective_limit_range (limit : option Z) : 1 ≤ effective_limit limit ≤ 100.
Proof.
  unfold effective_limit, default_limit, clampLimit, CONFIG.MAX_LIMIT, CONFIG.DEFAULT_LIMIT.
  destruct limit as [l|]; simpl; lia.
Qed.

Lemma slice0_take {A} (n : Z) (l : list A) : 0 ≤ n → Js.slice0 n l = take (Z.to_nat n) l.
Proof. intros Hn. unfold Js.slice0. destruct (Z.ltb_spec n 0); [lia | done]. Qed.

Lemma slice0_effective {A} (limit : option Z) (l : list A) :
  Js.slice0 (effective_limit limit) l = take (Z.to_nat (effective_limit limit)) l.
Proof. apply slice0_take. pose proof (effective_limit_range limit). lia. Qed.

Lemma length_slice0_effective {A} (limit : option Z) (l : list A) :
  (length (Js.slice0 (effective_limit limit) l) ≤ Z.to_nat (effective_limit limit))%nat.
Proof. rewrite slice0_effective, length_take. lia. Qed.

(** C1, as amended: the effective limit of the four query operations is the
    default 10 when the limit is missing, the ceiling 100 when the requested
    limit is above 100, the floor 1 when the requested limit is not positive
    and the requested limit otherwise; it always lies between 1 and 100, and
    no operation returns more articles than the effective limit. *)
Theorem effective_limit_is_clamped (index : Index) (limit : option Z) :
  let n := effective_limit limit in
  (limit = None → n = CONFIG.DEFAULT_LIMIT ∧ n = 10) ∧
  (∀ l, limit = Some l → 100 < l → n = CONFIG.MAX_LIMIT ∧ n = 100) ∧
  (∀ l, limit = Some l → l ≤ 0 → n = 1) ∧
  (∀ l, limit = Some l → 1 ≤ l ≤ 100 → n = l) ∧
  1 ≤ n ≤ 100 ∧
  (∀ query, (length (searchArticles index query limit) ≤ Z.to_nat n)%nat) ∧
  (∀ query, (length (searchArticlesByTitle index query limit) ≤ Z.to_nat n)%nat) ∧
  (∀ startDate endDate results,
     filterArticlesByDateRange index startDate endDate limit = Returns results →
     (length results ≤ Z.to_nat n)%nat) ∧
  (∀ authorName, (length (filterArticlesByAuthor index authorName limit) ≤ Z.to_nat n)%nat).
Proof.
  cbv zeta.
  assert (∀ l, effective_limit (Some l) = Z.min (Z.max 1 l) 100) as Heff by done.
  split_and!; try (intros; apply length_slice0_effective).
  - by intros ->.
  - intros l -> Hl. rewrite Heff. unfold CONFIG.MAX_LIMIT. lia.
  - intros l -> Hl. rewrite Heff. lia.
  - intros l -> Hl. rewrite Heff. lia.
  - apply effective_limit_range.
  - apply effective_limit_range.
  - intros startDate endDate results. unfold filterArticlesByDateRange.
    destruct (applyBound "start" num_ge startDate _) as [l1|]; simpl; [|done].
    destruct (applyBound "end" num_le endDate l1) as [l2|]; simpl; [|done].
    intros [= <-]. apply length_slice0_effective.
Qed.

End ArticleServiceFacts.

(** C1, the claim as stated fails: a requested limit of 0 gives the effective
    limit 1, not the default 10; on the example corpus a search with limit 0
    returns one article. *)
Lemma non_positive_limit_is_not_default :
  ArticleService.effective_limit (Some 0) = 1 ∧
  ArticleService.effective_limit (Some 0) ≠ ArticleService.CONFIG.DEFAULT_LIMIT ∧
  ArticleService.clampLimit (Some (-5)) = 1 ∧
  ArticleService.searchArticles
    {| ArticleService.magazineArticles := [ExampleHost.articleA; ExampleHost.articleB];
       ArticleService.articlesBySlug := ∅ |} "x" (Some 0) = [ExampleHost.articleA].
Proof. repeat split; try done. Qed.

(** * The index after loading *)

Section TrimFacts.

Lemma truthy_nonempty (s : string) : Js.truthy s = true ↔ s ≠ "".
Proof. destruct s; simpl; split; congruence. Qed.

Lemma trimStart_head (s : string) :
  Js.trimStart s = "" ∨ ∃ c s', Js.trimStart s = String c s' ∧ Js.is_white_space c = false.
Proof.
  induction s as [|c s IH]; simpl; [by left|].
  destruct (Js.is_white_space c) eqn:Hc; [done|]. right. eauto.
Qed.

Lemma trimStart_fixed (c : ascii) (s : string) :
  Js.is_white_space c = false → Js.trimStart (String c s) = String c s.
Proof. intros Hc. simpl. by rewrite Hc. Qed.

Lemma trimEnd_head (c : ascii) (s : string) :
  Js.is_white_space c = false → ∃ s', Js.trimEnd (String c s) = String c s'.
Proof. intros Hc. simpl. rewrite Hc. destruct (Js.trimEnd s); eauto. Qed.

Lemma trimEnd_idem (s : string) : Js.trimEnd (Js.trimEnd s) = Js.trimEnd s.
Proof.
  induction s as [|c s IH]; [done|]. simpl.
  destruct (Js.trimEnd s) as [|c' rest] eqn:Hrest.
  - destruct (Js.is_white_space c) eqn:Hc; simpl; [done|]. by rewrite Hc.
  - simpl in *. by rewrite IH.
Qed.

Lemma trim_idem (s : string) : Js.trim (Js.trim s) = Js.trim s.
Proof.
  unfold Js.trim. destruct (trimStart_head s) as [->|(c & s' & -> & Hc)]; [done|].
  destruct (trimEnd_head c s' Hc) as [s'' Hs'']. rewrite Hs''.
  rewrite trimStart_fixed by done. rewrite <- Hs''. apply trimEnd_idem.
Qed.

End TrimFacts.

Section LoadFacts.
Context `{Host}.

Import ArticleService Spec.

Lemma opt_truthy_trim_nonblank (v : option string) :
  Js.opt_truthy (Js.opt_trim v) = true ↔ nonblank v.
Proof. destruct v as [s|]; simpl; [apply truthy_nonempty | split; [congruence | tauto]]. Qed.

Lemma isLoadedArticle_acceptable (raw : MagazineArticle) :
  isLoadedArticle raw = true ↔ acceptable raw.
Proof.
  unfold isLoadedArticle, acceptable.
  rewrite !andb_true_iff, !opt_truthy_trim_nonblank.
  assert (match Js.opt_trim (publicationDate raw) with
          | Some d => match Date_parse d with Some _ => true | None => false end
          | None => false
          end = true ↔ parseable (publicationDate raw)) as ->; [|tauto].
  unfold parseable. destruct (publicationDate raw) as [d|]; simpl; [|split; [congruence | tauto]].
  destruct (Date_parse (Js.trim d)); split; (congruence || eauto || by intros [? ?]).
Qed.

Lemma normalizeArticle_acceptable (raw : MagazineArticle) :
  acceptable raw → normalizeArticle raw = Returns (trimmed raw).
Proof.
  intros (Hs & Ht & Hd & _). unfold normalizeArticle, trimmed.
  destruct (slug raw), (title raw), (publicationDate raw); simpl in *; done.
Qed.

Lemma mapM_normalizeArticle (raws : list MagazineArticle) :
  Forall acceptable raws → mapM normalizeArticle raws = Returns (trimmed <$> raws).
Proof.
  induction 1 as [|raw raws Hraw _ IH]; [done|]. simpl.
  by rewrite (normalizeArticle_acceptable raw Hraw), IH.
Qed.

Lemma trimmed_well_formed (raw : MagazineArticle) : acceptable raw → well_formed (trimmed raw).
Proof.
  intros (Hs & Ht & Hd & Hp). unfold well_formed, trimmed_nonempty, trimmed. simpl.
  destruct (slug raw) as [s|], (title raw) as [t|], (publicationDate raw) as [d|];
    simpl in *; try done.
  destruct Hp as [time Htime].
  split_and!; eauto using trim_idem.
Qed.

Lemma buildSlugIndex_lookup (articles : list MagazineArticle) key article :
  buildSlugIndex articles !! key = Some article → article ∈ articles ∧ key = slug article.
Proof.
  unfold buildSlugIndex.
  assert (∀ m : gmap (option string) MagazineArticle,
            foldl (λ m a, <[slug a := a]> m) m articles !! key = Some article →
            (article ∈ articles ∧ key = slug article) ∨ m !! key = Some article) as Hgen.
  { induction articles as [|a articles IH]; intros m; simpl; [by right|].
    intros Hlook. destruct (IH _ Hlook) as [[Hin Hkey]|Hm].
    - left. split; [by right | done].
    - destruct (decide (slug a = key)) as [<-|Hne].
      + rewrite lookup_insert_eq in Hm. injection Hm as <-. left. split; [by left | done].
      + rewrite lookup_insert_ne in Hm by done. by right. }
  intros Hlook. destruct (Hgen ∅ Hlook) as [?|Hempty]; [done|].
  by rewrite lookup_empty in Hempty.
Qed.

(** What a successful load leaves in the module state. *)
Lemma loadMagazineArticles_success (fs : Fs.t) (blogDataPath : string) (index : Index) :
  loadMagazineArticles fs blogDataPath = (Returns (), index) →
  ∃ data raws,
    fs !! blogDataPath = Some (Fs.File data) ∧ JSON_parse data = Some raws ∧
    magazineArticles index = trimmed <$> filter acceptable raws ∧
    articlesBySlug index = buildSlugIndex (magazineArticles index).
Proof.
  unfold loadMagazineArticles, readArticles, Fs.existsSync, Fs.readFileSync.
  destruct (fs !! blogDataPath) as [[data|entries]|] eqn:Hfile; simpl; try done.
  destruct (JSON_parse data) as [raws|] eqn:Hparse; simpl; [|done].
  rewrite (list_filter_iff _ acceptable) by (intros; apply isLoadedArticle_acceptable).
  rewrite mapM_normalizeArticle by (apply Forall_forall; intros ? [? _]%list_elem_of_filter; done).
  intros [= <-]. by exists data, raws.
Qed.

Lemma load_well_formed (fs : Fs.t) (blogDataPath : string) (index : Index) :
  loadMagazineArticles fs blogDataPath = (Returns (), index) →
  Forall well_formed (magazineArticles index).
Proof.
  intros (data & raws & _ & _ & -> & _)%loadMagazineArticles_success.
  apply Forall_fmap, Forall_forall.
  intros raw [Hraw _]%list_elem_of_filter. by apply trimmed_well_formed.
Qed.

End LoadFacts.

(** * [Array.prototype.sort] *)

Section SortFacts.
Context {A : Type} (comparefn : A → A → Z).

Lemma insert_by_perm (x : A) (l : list A) : Js.insert_by comparefn x l ≡ₚ x :: l.
Proof.
  induction l as [|y l IH]; simpl; [done|].
  destruct (comparefn x y <=? 0); [done|]. rewrite IH. apply Permutation_swap.
Qed.

Lemma sort_perm (l : list A) : Js.sort comparefn l ≡ₚ l.
Proof.
  induction l as [|x l IH]; simpl; [done|].
  unfold Js.sort in *. simpl. rewrite insert_by_perm. by rewrite IH.
Qed.

Lemma elem_of_sort (x : A) (l : list A) : x ∈ Js.sort comparefn l ↔ x ∈ l.
Proof. by rewrite sort_perm. Qed.

(** The order the comparison function stands for on the elements at hand. *)
Section Sorted.
Context (R : relation A) `{!Transitive R} `{!Total R}.

Lemma insert_by_sorted (x : A) (l : list A) :
  (∀ y, y ∈ l → comparefn x y ≤ 0 ↔ R x y) →
  StronglySorted R l → StronglySorted R (Js.insert_by comparefn x l).
Proof.
  intros Hagree Hsorted. induction Hsorted as [|y l Hsorted IH Hall]; simpl.
  - repeat constructor.
  - destruct (Z.leb_spec (comparefn x y) 0) as [Hle|Hgt].
    + assert (R x y) as Hxy by (apply Hagree; [left | done]).
      constructor; [by constructor|]. constructor; [done|].
      eapply Forall_impl; [exact Hall|]. intros z Hyz. by trans y.
    + assert (R y x) as Hyx.
      { destruct (total R x y) as [Hxy|]; [|done].
        apply Hagree in Hxy; [lia | left]. }
      constructor.
      * apply IH. intros z Hz. apply Hagree. by right.
      * apply Forall_forall. intros z Hz.
        apply (elem_of_Permutation_proper z _ _ (insert_by_perm x l)) in Hz.
        apply elem_of_cons in Hz as [->|Hz]; [done|].
        by apply (proj1 (Forall_forall _ _) Hall).
Qed.

Lemma sort_sorted (l : list A) :
  (∀ x y, x ∈ l → y ∈ l → comparefn x y ≤ 0 ↔ R x y) →
  StronglySorted R (Js.sort comparefn l).
Proof.
  induction l as [|x l IH]; intros Hagree; [constructor|].
  change (Js.sort comparefn (x :: l)) with (Js.insert_by comparefn x (Js.sort comparefn l)).
  apply insert_by_sorted.
  - intros y Hy. rewrite elem_of_sort in Hy. apply Hagree; [left | by right].
  - apply IH. intros y z Hy Hz. apply Hagree; by right.
Qed.

End Sorted.

(** Stability: the elements of a class of mutually equal elements keep the
    order they had. *)
Section Stable.
Context (P : A → Prop) `{!∀ x, Decision (P x)}.

Lemma filter_insert_by (x : A) (l : list A) :
  (∀ y, P x → P y → comparefn x y ≤ 0) →
  filter P (Js.insert_by comparefn x l) = filter P (x :: l).
Proof.
  intros Hclass. induction l as [|y l IH]; simpl; [done|].
  destruct (Z.leb_spec (comparefn x y) 0) as [Hle|Hgt]; [done|].
  rewrite (filter_cons P y), IH, !(filter_cons P x), (filter_cons P y).
  destruct (decide (P x)) as [Hx|Hx], (decide (P y)) as [Hy|Hy]; try done.
  specialize (Hclass y Hx Hy). lia.
Qed.

Lemma filter_sort (l : list A) :
  (∀ x y, P x → P y → comparefn x y ≤ 0) →
  filter P (Js.sort comparefn l) = filter P l.
Proof.
  intros Hclass. induction l as [|x l IH]; [done|].
  change (Js.sort comparefn (x :: l)) with (Js.insert_by comparefn x (Js.sort comparefn l)).
  rewrite filter_insert_by by auto. by rewrite !filter_cons, IH.
Qed.

End Stable.

End SortFacts.

(** * What the queries return *)

Section QueryFacts.
Context `{Host}.

Import ArticleService Spec.

Lemma slice0_subseteq {A} (limit : option Z) (l : list A) :
  Js.slice0 (effective_limit limit) l ⊆ l.
Proof. rewrite slice0_effective. apply subseteq_take. Qed.

Lemma applyBound_subseteq which keep bound (l l' : list MagazineArticle) :
  applyBound which keep bound l = Returns l' → l' ⊆ l.
Proof.
  unfold applyBound. destruct bound as [dateString|]; [|by intros [= <-]].
  destruct (Js.truthy dateString); [|by intros [= <-]].
  destruct (negb (isValidDate dateString)); [done|].
  intros [= <-]. apply list_subseteq_filter.
Qed.

Lemma searchArticles_subseteq index query limit :
  searchArticles index query limit ⊆ magazineArticles index.
Proof.
  unfold searchArticles. etrans; [apply slice0_subseteq | apply list_subseteq_filter].
Qed.

Lemma searchArticlesByTitle_subseteq index query limit :
  searchArticlesByTitle index query limit ⊆ magazineArticles index.
Proof.
  unfold searchArticlesByTitle. etrans; [apply slice0_subseteq | apply list_subseteq_filter].
Qed.

Lemma filterArticlesByDateRange_subseteq index startDate endDate limit results :
  filterArticlesByDateRange index startDate endDate limit = Returns results →
  results ⊆ magazineArticles index.
Proof.
  unfold filterArticlesByDateRange.
  destruct (applyBound "start" _ _ _) as [l1|] eqn:H1; simpl; [|done].
  destruct (applyBound "end" _ _ _) as [l2|] eqn:H2; simpl; [|done].
  intros [= <-]. etrans; [apply slice0_subseteq|].
  intros a Ha%elem_of_sort.
  by eapply applyBound_subseteq, applyBound_subseteq.
Qed.

Lemma filterArticlesByAuthor_subseteq index authorName limit :
  filterArticlesByAuthor index authorName limit ⊆ magazineArticles index.
Proof.
  unfold filterArticlesByAuthor. etrans; [apply slice0_subseteq|].
  intros a Ha%elem_of_sort. by eapply list_subseteq_filter.
Qed.

(** C6: after a load that succeeds, every article of [magazineArticles] and
    of the slug map has a slug and a title that are trimmed and not empty and
    a publication date that parses; the list holds exactly the acceptable
    records of the corpus file, trimmed and in their order, so a record that
    fails a condition is not in the index; and every query operation returns
    articles of the index only. *)
Theorem loaded_index_is_well_formed (fs : Fs.t) (blogDataPath : string) (index : Index) :
  loadMagazineArticles fs blogDataPath = (Returns (), index) →
  Forall well_formed (magazineArticles index) ∧
  (∀ key article, articlesBySlug index !! key = Some article →
     well_formed article ∧ article ∈ magazineArticles index ∧ key = slug article) ∧
  (∃ data raws,
     fs !! blogDataPath = Some (Fs.File data) ∧ JSON_parse data = Some raws ∧
     magazineArticles index = trimmed <$> filter acceptable raws) ∧
  (∀ query limit, Forall well_formed (searchArticles index query limit)) ∧
  (∀ query limit, Forall well_formed (searchArticlesByTitle index query limit)) ∧
  (∀ startDate endDate limit results,
     filterArticlesByDateRange index startDate endDate limit = Returns results →
     Forall well_formed results) ∧
  (∀ authorName limit, Forall well_formed (filterArticlesByAuthor index authorName limit)).
Proof.
  intros Hload. pose proof (load_well_formed _ _ _ Hload) as Hwf.
  apply loadMagazineArticles_success in Hload as (data & raws & Hfile & Hparse & Hlist & Hmap).
  assert (∀ l, l ⊆ magazineArticles index → Forall well_formed l) as Hsub.
  { intros l Hl. apply Forall_forall. intros a Ha.
    by apply (proj1 (Forall_forall _ _) Hwf), Hl. }
  split_and!.
  - done.
  - intros key article Hlook. rewrite Hmap in Hlook.
    apply buildSlugIndex_lookup in Hlook as [Hin ->].
    split_and!; [|done..]. by apply (proj1 (Forall_forall _ _) Hwf).
  - by exists data, raws.
  - intros. apply Hsub, searchArticles_subseteq.
  - intros. apply Hsub, searchArticlesByTitle_subseteq.
  - intros ???? Hres. by eapply Hsub, filterArticlesByDateRange_subseteq.
  - intros. apply Hsub, filterArticlesByAuthor_subseteq.
Qed.

End QueryFacts.

(** C6 on the example corpus file: the records with a blank slug and with a
    date that does not parse are left out, the padded record is trimmed. *)
Lemma loaded_index_is_well_formed_witness :
  ∃ index,
    ArticleService.loadMagazineArticles (H := ExampleHost.host)
      ExampleHost.fsCorpusOnly ExampleHost.blogDataPath = (Returns (), index) ∧
    slug <$> ArticleService.magazineArticles index = [Some "a"; Some "b"; Some "d"] ∧
    Forall (Spec.well_formed (H := ExampleHost.host)) (ArticleService.magazineArticles index).
Proof.
  eexists. split; [vm_compute; reflexivity|]. split; [vm_compute; reflexivity|].
  refine (proj1 (loaded_index_is_well_formed (H := ExampleHost.host)
                   ExampleHost.fsCorpusOnly ExampleHost.blogDataPath _ _)).
  vm_compute. reflexivity.
Defined.

Lemma filter_Forall {A} (P : A → Prop) `{!∀ x, Decision (P x)} (l : list A) :
  Forall P l → filter P l = l.
Proof. induction 1 as [|x l Hx _ IH]; [done|]. by rewrite filter_cons_True, IH. Qed.

Lemma filter_all {A} (P : A → Prop) `{!∀ x, Decision (P x)} (l : list A) :
  (∀ x, P x) → filter P l = l.
Proof. intros HP. apply filter_Forall, Forall_forall. auto. Qed.

(** * The date filters *)

Section DateFacts.
Context `{Host}.

Import ArticleService Spec.

#[local] Instance newest_first_trans : Transitive newest_first.
Proof. unfold newest_first. intros a b c. lia. Qed.

#[local] Instance newest_first_total : Total newest_first.
Proof. unfold newest_first. intros a b. lia. Qed.

Lemma well_formed_dateOf (article : MagazineArticle) :
  well_formed article → ∃ time, dateOf article = Some time.
Proof. intros (_ & _ & d & time & Hd & Htime). exists time. unfold dateOf. by rewrite Hd. Qed.

Lemma newestFirst_agrees (a b : MagazineArticle) :
  well_formed a → well_formed b → newestFirst a b ≤ 0 ↔ newest_first a b.
Proof.
  intros [ta Ha]%well_formed_dateOf [tb Hb]%well_formed_dateOf.
  unfold newestFirst, newest_first, timeOf. rewrite Ha, Hb. simpl. lia.
Qed.

Lemma newestFirst_same_time (t : Z) (a b : MagazineArticle) :
  published_at t a → published_at t b → newestFirst a b ≤ 0.
Proof. unfold published_at, newestFirst. intros -> ->. lia. Qed.

Lemma StronglySorted_lookup_next {A} (R : relation A) (l : list A) i a b :
  StronglySorted R l → l !! i = Some a → l !! S i = Some b → R a b.
Proof.
  intros Hsorted Ha Hb. rewrite <- (take_drop_middle l i a Ha) in Hsorted.
  apply StronglySorted_app_1_r, StronglySorted_cons in Hsorted as [Hall _].
  apply (proj1 (Forall_forall _ _) Hall). apply list_elem_of_lookup. exists 0%nat.
  rewrite lookup_drop. by rewrite Nat.add_0_r.
Qed.

(** Sorting valid articles with [newestFirst] and slicing to the limit. *)
Lemma sort_then_slice (matches : list MagazineArticle) (limit : option Z) :
  Forall well_formed matches →
  newest_then_truncated matches limit
    (Js.slice0 (effective_limit limit) (Js.sort newestFirst matches)).
Proof.
  intros Hwf. rewrite Forall_forall in Hwf.
  assert (StronglySorted newest_first (Js.sort newestFirst matches)) as Hsorted.
  { apply sort_sorted; [apply _..|]. intros a b Ha Hb. apply newestFirst_agrees; auto. }
  exists (Js.sort newestFirst matches). split_and!.
  - apply sort_perm.
  - done.
  - intros t. apply filter_sort. intros a b. apply newestFirst_same_time.
  - apply slice0_effective.
  - intros i a b. rewrite slice0_effective. intros Ha Hb.
    eapply (StronglySorted_lookup_next newest_first); [|exact Ha|exact Hb].
    eapply StronglySorted_app_1_l. by erewrite take_drop.
  - intros a b. rewrite slice0_effective. intros Ha Hb.
    eapply (StronglySorted_app_1_elem_of newest_first); [|exact Ha|exact Hb].
    by rewrite take_drop.
Qed.

Lemma applyBound_cases which keep bound (P : MagazineArticle → Prop)
    `{!∀ a, Decision (P a)} (l : list MagazineArticle) :
  (omitted bound → ∀ a, P a) →
  (∀ s t a, bound = Some s → s ≠ "" → Date_parse s = Some t →
     keep (dateOf a) (Some t) = true ↔ P a) →
  (∃ s, bound = Some s ∧ s ≠ "" ∧ Date_parse s = None ∧
        applyBound which keep bound l = Throws (invalidDateMessage which s)) ∨
  (¬ unparseable bound ∧ applyBound which keep bound l = Returns (filter P l)).
Proof.
  intros Homitted Hkeep. unfold applyBound, isValidDate.
  destruct bound as [[|c s]|]; simpl.
  - right. split; [by intros (? & [= <-] & ? & _)|].
    f_equal. symmetry. apply filter_all. intros a. apply Homitted. by right.
  - destruct (Date_parse (String c s)) as [t|] eqn:Hparse; simpl.
    + right. split; [intros (? & [= <-] & _ & ?); congruence|].
      f_equal. apply list_filter_iff. intros a. by apply (Hkeep (String c s)).
    + left. by exists (String c s).
  - right. split; [by intros (? & ? & _)|].
    f_equal. symmetry. apply filter_all. intros a. apply Homitted. by left.
Qed.

Lemma not_before_omitted startDate a : omitted startDate → not_before startDate a.
Proof. by intros [-> | ->]. Qed.

Lemma not_after_omitted endDate a : omitted endDate → not_after endDate a.
Proof. by intros [-> | ->]. Qed.

Lemma num_ge_not_before s t a :
  s ≠ "" → Date_parse s = Some t → num_ge (dateOf a) (Some t) = true ↔ not_before (Some s) a.
Proof.
  intros Hs Ht. unfold not_before, num_ge. destruct s as [|c s]; [done|]. rewrite Ht.
  destruct (dateOf a) as [ta|]; [apply Z.leb_le | split; [congruence | tauto]].
Qed.

Lemma num_le_not_after s t a :
  s ≠ "" → Date_parse s = Some t → num_le (dateOf a) (Some t) = true ↔ not_after (Some s) a.
Proof.
  intros Hs Ht. unfold not_after, num_le, num_ge. destruct s as [|c s]; [done|]. rewrite Ht.
  destruct (dateOf a) as [ta|]; [apply Z.leb_le | split; [congruence | tauto]].
Qed.

(** The three ways [filterArticlesByDateRange] ends. *)
Lemma filterArticlesByDateRange_cases index startDate endDate limit :
  (∃ s, startDate = Some s ∧ s ≠ "" ∧ Date_parse s = None ∧
        filterArticlesByDateRange index startDate endDate limit
          = Throws (invalidDateMessage "start" s)) ∨
  (¬ unparseable startDate ∧
   ∃ s, endDate = Some s ∧ s ≠ "" ∧ Date_parse s = None ∧
        filterArticlesByDateRange index startDate endDate limit
          = Throws (invalidDateMessage "end" s)) ∨
  (¬ unparseable startDate ∧ ¬ unparseable endDate ∧
   filterArticlesByDateRange index startDate endDate limit
     = Returns (Js.slice0 (effective_limit limit)
                  (Js.sort newestFirst
                     (filter (in_date_range startDate endDate) (magazineArticles index))))).
Proof.
  unfold filterArticlesByDateRange.
  destruct (applyBound_cases "start" num_ge startDate (not_before startDate)
              (magazineArticles index)) as [(s & -> & Hs & Hparse & ->)|[Hstart ->]].
  { intros ? a. by apply not_before_omitted. }
  { intros s t a -> Hs Ht. by apply num_ge_not_before. }
  { left. by exists s. }
  right. simpl.
  destruct (applyBound_cases "end" num_le endDate (not_after endDate)
              (filter (not_before startDate) (magazineArticles index)))
    as [(s & -> & Hs & Hparse & ->)|[Hend ->]].
  { intros ? a. by apply not_after_omitted. }
  { intros s t a -> Hs Ht. by apply num_le_not_after. }
  { left. split; [done|]. by exists s. }
  right. split_and!; [done..|]. simpl. do 3 f_equal.
  rewrite list_filter_filter. apply list_filter_iff. unfold in_date_range. tauto.
Qed.

End DateFacts.

Lemma loadedIndex_well_formed :
  Forall (Spec.well_formed (H := ExampleHost.host))
         (ArticleService.magazineArticles ExampleHost.loadedIndex).
Proof.
  apply (load_well_formed (H := ExampleHost.host)
           ExampleHost.fsCorpusOnly ExampleHost.blogDataPath).
  vm_compute. reflexivity.
Qed.

Section DateClaims.
Context `{Host}.

Import ArticleService Spec.

(** C2: on an index of well-formed articles, what [filterArticlesByDateRange]
    and [filterArticlesByAuthor] return is the full set of matches sorted by
    publication date, newest first, and then cut to the effective limit:
    consecutive entries have [date[i] >= date[i+1]], no match left out is
    newer than a returned one, and articles with the same publication time
    keep the order they have in the corpus. *)
Theorem filters_sort_newest_first_then_truncate (index : Index) :
  Forall well_formed (magazineArticles index) →
  (∀ startDate endDate limit results,
     filterArticlesByDateRange index startDate endDate limit = Returns results →
     newest_then_truncated
       (filter (in_date_range startDate endDate) (magazineArticles index)) limit results) ∧
  (∀ authorName limit,
     newest_then_truncated
       (filter (λ article, authorMatches article (Js.toLowerCase authorName) = true)
               (magazineArticles index))
       limit (filterArticlesByAuthor index authorName limit)).
Proof.
  intros Hwf.
  assert (∀ (P : MagazineArticle → Prop) `{!∀ a, Decision (P a)},
            Forall well_formed (filter P (magazineArticles index))) as Hfilter.
  { intros P ?. apply Forall_forall. intros a [_ Ha]%list_elem_of_filter.
    by apply (proj1 (Forall_forall _ _) Hwf). }
  split.
  - intros startDate endDate limit results Hres.
    destruct (filterArticlesByDateRange_cases index startDate endDate limit)
      as [(s & _ & _ & _ & Hthrow)|[(_ & s & _ & _ & _ & Hthrow)|(_ & _ & Hreturn)]];
      try congruence.
    rewrite Hreturn in Hres. injection Hres as <-. apply sort_then_slice, Hfilter.
  - intros authorName limit. apply sort_then_slice, Hfilter.
Qed.

(** C3, as amended: [filterArticlesByDateRange] throws exactly when a bound
    that is given and not the empty string does not parse, with a message
    that names the bound; a bound that is left out or is the empty string
    leaves its side open; when nothing is thrown the result is cut from the
    articles within both bounds, the bounds themselves included. *)
Theorem date_range_rejects_unparseable_bounds (index : Index)
    (startDate endDate : option string) (limit : option Z) :
  let outcome := filterArticlesByDateRange index startDate endDate limit in
  ((∃ message, outcome = Throws message) ↔ unparseable startDate ∨ unparseable endDate) ∧
  (∀ s, startDate = Some s → s ≠ "" → Date_parse s = None →
     outcome = Throws (invalidDateMessage "start" s)) ∧
  (∀ s, ¬ unparseable startDate → endDate = Some s → s ≠ "" → Date_parse s = None →
     outcome = Throws (invalidDateMessage "end" s)) ∧
  (∀ results, outcome = Returns results →
     results = take (Z.to_nat (effective_limit limit))
                 (Js.sort newestFirst
                    (filter (in_date_range startDate endDate) (magazineArticles index)))) ∧
  (∀ article, omitted startDate → not_before startDate article) ∧
  (∀ article, omitted endDate → not_after endDate article) ∧
  (∀ s bound article, s ≠ "" → Date_parse s = Some bound →
     (not_before (Some s) article ↔ ∃ time, dateOf article = Some time ∧ bound ≤ time) ∧
     (not_after (Some s) article ↔ ∃ time, dateOf article = Some time ∧ time ≤ bound)).
Proof.
  cbv zeta.
  pose proof (filterArticlesByDateRange_cases index startDate endDate limit) as Hcases.
  split_and!.
  - split.
    + intros [message Hthrow].
      destruct Hcases as [(s & ? & ? & ? & _)|[(_ & s & ? & ? & ? & _)|(_ & _ & Hreturn)]].
      * left. by exists s.
      * right. by exists s.
      * congruence.
    + intros Hbad.
      destruct Hcases as [(s & _ & _ & _ & ->)|[(_ & s & _ & _ & _ & ->)|(? & ? & _)]];
        [eauto | eauto | tauto].
  - intros s -> Hs Hparse.
    destruct Hcases as [(s' & [= <-] & _ & _ & ->)|[(Hok & _)|(Hok & _)]]; [done| |];
      destruct Hok; by exists s.
  - intros s Hstart -> Hs Hparse.
    destruct Hcases as [(s' & ? & ? & ? & _)|[(_ & s' & [= <-] & _ & _ & ->)|(_ & Hok & _)]];
      [|done|].
    + destruct Hstart. by exists s'.
    + destruct Hok. by exists s.
  - intros results Hres.
    destruct Hcases as [(s & _ & _ & _ & Hthrow)|[(_ & s & _ & _ & _ & Hthrow)|(_ & _ & Hreturn)]];
      try congruence.
    rewrite Hreturn in Hres. injection Hres as <-. apply slice0_effective.
  - intros article. apply not_before_omitted.
  - intros article. apply not_after_omitted.
  - intros s bound article Hs Hparse. unfold not_before, not_after.
    destruct s as [|c s]; [done|]. rewrite Hparse.
    destruct (dateOf article) as [time|]; split; split;
      try (intros (? & [= <-] & ?)); try (intros (? & [=] & ?)); eauto; done.
Qed.

End DateClaims.

(** C2 on the loaded example corpus: [b] and [d] share the newest date and
    come out in load order, the older [a] is cut off by the limit 2. *)
Lemma filters_sort_newest_first_then_truncate_witness :
  slug <$> ArticleService.magazineArticles ExampleHost.loadedIndex
    = [Some "a"; Some "b"; Some "d"] ∧
  ∃ results,
    ArticleService.filterArticlesByDateRange (H := ExampleHost.host)
      ExampleHost.loadedIndex None None (Some 2) = Returns results ∧
    slug <$> results = [Some "b"; Some "d"] ∧
    Spec.newest_then_truncated (H := ExampleHost.host)
      (filter (Spec.in_date_range (H := ExampleHost.host) None None)
              (ArticleService.magazineArticles ExampleHost.loadedIndex))
      (Some 2) results.
Proof.
  split; [vm_compute; reflexivity|]. eexists.
  split; [vm_compute; reflexivity|]. split; [vm_compute; reflexivity|].
  apply (proj1 (filters_sort_newest_first_then_truncate (H := ExampleHost.host)
                  ExampleHost.loadedIndex loadedIndex_well_formed)).
  vm_compute. reflexivity.
Defined.

(** C3, the claim as stated fails: the empty string is a bound that is given
    and does not parse, yet no error is raised and the side stays open. *)
Lemma empty_bound_is_not_rejected :
  ArticleService.isValidDate (H := ExampleHost.host) "" = false ∧
  ArticleService.filterArticlesByDateRange (H := ExampleHost.host)
    ExampleHost.specIndex (Some "") (Some "") (Some 10)
  = Returns [ExampleHost.articleB; ExampleHost.articleA].
Proof. split; vm_compute; reflexivity. Qed.

(** The examples of the specification for the date filter. *)
Example date_range_examples :
  ArticleService.filterArticlesByDateRange (H := ExampleHost.host)
    ExampleHost.specIndex None (Some "2024-01-15") (Some 10) = Returns [ExampleHost.articleA] ∧
  ArticleService.filterArticlesByDateRange (H := ExampleHost.host)
    ExampleHost.specIndex (Some "not-a-date") None (Some 10)
  = Throws "Invalid start date format: not-a-date. Expected ISO format (YYYY-MM-DD)" ∧
  ArticleService.filterArticlesByDateRange (H := ExampleHost.host)
    ExampleHost.specIndex (Some "2024-01-01") (Some "2024-02-01") None
  = Returns [ExampleHost.articleB; ExampleHost.articleA].
Proof. split_and!; vm_compute; reflexivity. Qed.

(** * Searching *)

Section StringFacts.

Lemma append_cons (c : ascii) (s t : string) : String c s +:+ t = String c (s +:+ t).
Proof. reflexivity. Qed.

Lemma append_empty_l (t : string) : "" +:+ t = t.
Proof. reflexivity. Qed.

Lemma startsWith_spec (s p : string) :
  Js.startsWith s p = true ↔ ∃ rest, s = p +:+ rest.
Proof.
  revert s. induction p as [|a p IH]; intros s; simpl.
  - split; [intros _; by exists s | by destruct s].
  - destruct s as [|b s]; simpl.
    + split; [done | intros [rest Hrest]; rewrite append_cons in Hrest; done].
    + destruct (Ascii.eqb_spec a b) as [<-|Hne].
      * rewrite IH. split; intros [rest Hrest]; exists rest.
        -- by rewrite append_cons, <- Hrest.
        -- rewrite append_cons in Hrest. by injection Hrest.
      * split; [done|]. intros [rest Hrest]. rewrite append_cons in Hrest. congruence.
Qed.

Lemma includes_nil (q : string) : Js.includes "" q = Js.startsWith "" q || false.
Proof. reflexivity. Qed.

Lemma includes_cons (c : ascii) (s q : string) :
  Js.includes (String c s) q = Js.startsWith (String c s) q || Js.includes s q.
Proof. reflexivity. Qed.

Lemma includes_spec (s q : string) : Js.includes s q = true ↔ is_substring q s.
Proof.
  split.
  - induction s as [|c s IH].
    + rewrite includes_nil, orb_true_iff.
      intros [[rest ->]%startsWith_spec|?]; [|done]. by exists "", rest.
    + rewrite includes_cons, orb_true_iff.
      intros [[rest Hrest]%startsWith_spec|Hin]; [by exists "", rest|].
      destruct (IH Hin) as (before & after & ->). by exists (String c before), after.
  - intros (before & after & ->). induction before as [|c before IH].
    + rewrite append_empty_l.
      assert (Js.startsWith (q +:+ after) q = true) as Hstart
        by (apply startsWith_spec; by exists after).
      destruct (q +:+ after); [rewrite includes_nil | rewrite includes_cons];
        by rewrite Hstart.
    + rewrite append_cons, includes_cons, IH. apply orb_true_r.
Qed.

Lemma includes_empty (s : string) : Js.includes s "" = true.
Proof. apply includes_spec. by exists "", s. Qed.

End StringFacts.

Section SearchFacts.
Context `{Host}.

Import ArticleService.

Lemma opt_includes_spec (field : option string) (term : string) :
  opt_includes field (Js.toLowerCase term) = true ↔ occurs_ignoring_case term field.
Proof.
  unfold opt_includes, occurs_ignoring_case. destruct field as [s|].
  - rewrite includes_spec. split; [by exists s | by intros (? & [= <-] & ?)].
  - split; [done | by intros (? & ? & _)].
Qed.

Lemma getAuthorRaw_nonempty (article : MagazineArticle) (name : string) :
  getAuthorRaw article = Some name → name ≠ "".
Proof.
  unfold getAuthorRaw. destruct (author article) as [[value|[name'|]]|]; simpl; try done.
  - destruct (Js.truthy value); [|done].
    destruct (Js.trim value); simpl; [done|]. by intros [= <-].
  - destruct (Js.trim name'); simpl; [done|]. by intros [= <-].
Qed.

Lemma authorMatches_spec (article : MagazineArticle) (term : string) :
  authorMatches article (Js.toLowerCase term) = true
  ↔ occurs_ignoring_case term (getAuthorRaw article).
Proof.
  unfold authorMatches. rewrite <- opt_includes_spec. unfold opt_includes.
  destruct (getAuthorRaw article) as [name|] eqn:Hraw; [|done].
  apply getAuthorRaw_nonempty, truthy_nonempty in Hraw. by rewrite Hraw.
Qed.

Lemma search_predicate_spec (term : string) (article : MagazineArticle) :
  opt_includes (title article) (Js.toLowerCase term)
  || opt_includes (lead article) (Js.toLowerCase term)
  || authorMatches article (Js.toLowerCase term) = true
  ↔ term_matches term article.
Proof.
  unfold term_matches.
  rewrite !orb_true_iff, !opt_includes_spec, authorMatches_spec. tauto.
Qed.

#[export] Instance term_matches_dec term article : Decision (term_matches term article).
Proof.
  refine (cast_if (decide (opt_includes (title article) (Js.toLowerCase term)
                           || opt_includes (lead article) (Js.toLowerCase term)
                           || authorMatches article (Js.toLowerCase term) = true)));
    by rewrite <- search_predicate_spec.
Defined.

Lemma searchArticles_spec (index : Index) (term : string) (limit : option Z) :
  searchArticles index term limit
  = take (Z.to_nat (effective_limit limit))
         (filter (term_matches term) (magazineArticles index)).
Proof.
  unfold searchArticles. rewrite slice0_effective. f_equal.
  apply list_filter_iff. intros article. apply search_predicate_spec.
Qed.

End SearchFacts.

Section SearchClaims.
Context `{Host}.

Import ArticleService.

(** C7, as amended: [searchArticles] returns the articles in which the
    lower-cased term occurs in the lower-cased title, lead or author name as
    the record gives it (an article without an author never matches through
    the author, whatever its display name), in corpus order, cut to the
    effective limit; on the corpus of the specification's example the search
    for [x] with limit 10 returns both articles in load order. *)
Theorem search_returns_matches_in_load_order (index : Index) (term : string)
    (limit : option Z) :
  searchArticles index term limit
  = take (Z.to_nat (effective_limit limit))
         (filter (term_matches term) (magazineArticles index)) ∧
  searchArticles index term limit `sublist_of` magazineArticles index ∧
  (∀ article, getAuthorRaw article = None →
     (term_matches term article
      ↔ occurs_ignoring_case term (title article) ∨ occurs_ignoring_case term (lead article))) ∧
  searchArticles ExampleHost.specIndex "x" (Some 10)
  = [ExampleHost.articleA; ExampleHost.articleB].
Proof.
  split_and!.
  - apply searchArticles_spec.
  - rewrite searchArticles_spec. etrans; [apply sublist_take | apply sublist_filter].
  - intros article Hraw. unfold term_matches. rewrite Hraw.
    assert (¬ occurs_ignoring_case term None) by (by intros (? & ? & _)). tauto.
  - vm_compute. reflexivity.
Qed.

(** C10: on an index of well-formed articles the empty query matches every
    article: the search returns the first articles of the index, as many as
    the effective limit allows, and at least one when the index is not
    empty. *)
Theorem empty_query_returns_first_articles (index : Index) (limit : option Z) :
  Forall well_formed (magazineArticles index) →
  searchArticles index "" limit
  = take (Z.to_nat (effective_limit limit)) (magazineArticles index) ∧
  (magazineArticles index ≠ [] → searchArticles index "" limit ≠ []) ∧
  length (searchArticles index "" limit)
  = (Z.to_nat (effective_limit limit) `min` length (magazineArticles index))%nat.
Proof.
  intros Hwf.
  assert (searchArticles index "" limit
          = take (Z.to_nat (effective_limit limit)) (magazineArticles index)) as Heq.
  { unfold searchArticles. rewrite slice0_effective. f_equal.
    apply filter_Forall. eapply Forall_impl; [exact Hwf|].
    intros article (_ & (t & -> & _) & _). simpl. by rewrite includes_empty. }
  split_and!; [done| |].
  - rewrite Heq. pose proof (effective_limit_range limit).
    destruct (magazineArticles index); [done|].
    destruct (Z.to_nat (effective_limit limit)) eqn:Hn; [lia | done].
  - by rewrite Heq, length_take.
Qed.

End SearchClaims.

(** C7, the claim as stated fails: the display name of an article without
    an author is [Editorial team], the term [editorial] occurs in it, and the
    search does not return the article. *)
Lemma display_name_is_not_searched :
  ArticleService.getAuthorName ExampleHost.articleA = "Editorial team" ∧
  Js.includes (Js.toLowerCase (ArticleService.getAuthorName ExampleHost.articleA))
              (Js.toLowerCase "editorial") = true ∧
  ArticleService.searchArticles ExampleHost.anonymousIndex "editorial" (Some 10) = [].
Proof. split_and!; vm_compute; reflexivity. Qed.

(** C10 on the loaded example corpus: the empty query with limit 2 returns
    the first two articles of the index. *)
Lemma empty_query_returns_first_articles_witness :
  slug <$> ArticleService.searchArticles ExampleHost.loadedIndex "" (Some 2)
    = [Some "a"; Some "b"] ∧
  ArticleService.searchArticles ExampleHost.loadedIndex "" (Some 2)
    = take (Z.to_nat (ArticleService.effective_limit (Some 2)))
           (ArticleService.magazineArticles ExampleHost.loadedIndex).
Proof.
  split; [vm_compute; reflexivity|].
  exact (proj1 (empty_query_returns_first_articles (H := ExampleHost.host)
                  ExampleHost.loadedIndex (Some 2) loadedIndex_well_formed)).
Defined.

(** * Escaping the inlined assets *)

Section EscapeFacts.

Lemma elem_of_all_units (c : ascii) : c ∈ all_units.
Proof.
  unfold all_units. apply list_elem_of_fmap. exists (nat_of_ascii c).
  split; [by rewrite ascii_nat_embedding|].
  apply elem_of_seq. pose proof (nat_ascii_bounded c). lia.
Qed.

(** The regular expression and the HTML parser agree on when two code units
    are the same letter. *)
Lemma canonicalize_fold (a b : ascii) :
  Js.canonicalize a = Js.canonicalize b ↔ fold_ascii_case a = fold_ascii_case b.
Proof.
  assert (forallb (λ a, forallb (λ b,
            Bool.eqb (Ascii.eqb (Js.canonicalize a) (Js.canonicalize b))
                     (Ascii.eqb (fold_ascii_case a) (fold_ascii_case b)))
            all_units) all_units = true) as Hall by (vm_compute; reflexivity).
  rewrite forallb_forall in Hall.
  specialize (Hall a (proj1 (list_elem_of_In _ _) (elem_of_all_units a))).
  rewrite forallb_forall in Hall.
  specialize (Hall b (proj1 (list_elem_of_In _ _) (elem_of_all_units b))).
  apply Bool.eqb_prop in Hall.
  destruct (Ascii.eqb_spec (Js.canonicalize a) (Js.canonicalize b)),
           (Ascii.eqb_spec (fold_ascii_case a) (fold_ascii_case b)); naive_solver.
Qed.

Lemma matches_here_spec (pattern s : string) :
  Js.matches_here pattern s = true ↔
  ∃ middle after, s = middle +:+ after ∧
    Js.map_units fold_ascii_case middle = Js.map_units fold_ascii_case pattern.
Proof.
  revert s. induction pattern as [|p pattern IH]; intros s.
  - split; [intros _; by exists "", s | done].
  - destruct s as [|c s]; simpl.
    + split; [done|]. intros ([|c' middle] & after & Hs & Hmid); discriminate.
    + destruct (Ascii.eqb_spec (Js.canonicalize p) (Js.canonicalize c)) as [Heq|Hne].
      * rewrite IH. apply canonicalize_fold in Heq. split.
        -- intros (middle & after & -> & Hmid). exists (String c middle), after.
           split; [done|]. simpl. by rewrite Hmid, Heq.
        -- intros ([|c' middle] & after & Hs & Hmid); [discriminate|].
           rewrite append_cons in Hs. injection Hs as <- ->.
           injection Hmid as _ Hmid. by exists middle, after.
      * split; [done|]. intros ([|c' middle] & after & Hs & Hmid); [discriminate|].
        rewrite append_cons in Hs. injection Hs as <- ->.
        injection Hmid as Hc _. destruct Hne. by apply canonicalize_fold.
Qed.

Lemma occurs_spec (tag s : string) :
  occurs_ignoring_ascii_case tag s ↔
  ∃ before rest, s = before +:+ rest ∧ Js.matches_here tag rest = true.
Proof.
  unfold occurs_ignoring_ascii_case. split.
  - intros (before & middle & after & -> & Hmid).
    exists before, (middle +:+ after). split; [done|].
    apply matches_here_spec. by exists middle, after.
  - intros (before & rest & -> & (middle & after & -> & Hmid)%matches_here_spec).
    by exists before, middle, after.
Qed.

Lemma tails_spec (s before rest : string) :
  s = before +:+ rest → rest ≠ "" → rest ∈ tails s.
Proof.
  revert s. induction before as [|b before IH]; intros s ->.
  - rewrite append_empty_l. destruct rest; [done|]. intros _. by left.
  - intros Hrest. rewrite append_cons. simpl. right. by apply IH.
Qed.

Lemma append_eq_append (a b c d : string) :
  a +:+ b = c +:+ d →
  (∃ r, a = c +:+ r ∧ d = r +:+ b) ∨ (∃ r, c = a +:+ r ∧ b = r +:+ d).
Proof.
  revert c. induction a as [|x a IH]; intros c.
  - rewrite append_empty_l. intros ->. right. by exists c.
  - destruct c as [|y c].
    + rewrite append_empty_l. intros <-. left. by exists (String x a).
    + rewrite !append_cons. intros [= <- Heq].
      destruct (IH _ Heq) as [(r & -> & ->)|(r & -> & ->)]; [left | right]; by exists r.
Qed.

Lemma drop_length_le (n : nat) (s : string) :
  (String.length (Js.drop n s) ≤ String.length s)%nat.
Proof.
  revert s. induction n as [|n IH]; intros [|c s]; simpl; try lia.
  specialize (IH s). lia.
Qed.

Lemma replace_gi_cons (pattern replacement : string) (c : ascii) (rest : string) :
  Js.replace_gi pattern replacement (String c rest)
  = if Js.matches_here pattern (String c rest)
    then replacement +:+
         Js.replace_gi pattern replacement (Js.drop (String.length pattern - 1) rest)
    else String c (Js.replace_gi pattern replacement rest).
Proof.
  rewrite Js.replace_gi_equation_2.
  by destruct (Js.matches_here pattern (String c rest)).
Qed.

Lemma matches_here_cons (p : ascii) (pattern : string) (c : ascii) (s : string) :
  Js.matches_here (String p pattern) (String c s)
  = if Ascii.eqb (Js.canonicalize p) (Js.canonicalize c)
    then Js.matches_here pattern s else false.
Proof. reflexivity. Qed.

(** A closing tag and what it is replaced with: the tag starts with [<] and
    has no other [<]; the replacement starts with [<] too, and no closing tag
    starts inside it, whatever follows it. *)
Section Replace.
Context (ptail rtail : string).
Let pattern : string := String "<" ptail.
Let replacement : string := String "<" rtail.
Context (Hptail : Forall (λ x, Js.canonicalize x ≠ "<"%char) (String.list_ascii_of_string ptail)).
Context (Hreplacement : Forall (λ r, ∀ t, Js.matches_here pattern (r +:+ t) = false)
                               (tails replacement)).

(** What follows the [<] of a match in the output followed it in the input. *)
Lemma matches_through_replace (p : string) :
  Forall (λ x, Js.canonicalize x ≠ "<"%char) (String.list_ascii_of_string p) →
  ∀ t, Js.matches_here p (Js.replace_gi pattern replacement t) = true →
       Js.matches_here p t = true.
Proof.
  induction p as [|x p IH]; [done|]. simpl. intros [Hx Hp]%Forall_cons t.
  destruct t as [|c rest]; [by rewrite Js.replace_gi_equation_1|].
  rewrite replace_gi_cons.
  destruct (Js.matches_here pattern (String c rest)).
  - unfold replacement. rewrite append_cons.
    destruct (Ascii.eqb_spec (Js.canonicalize x) (Js.canonicalize "<")); done.
  - destruct (Ascii.eqb (Js.canonicalize x) (Js.canonicalize c)); [|done]. auto.
Qed.

(** No match starts anywhere in the output. *)
Lemma replace_gi_leaves_no_match (source : string) :
  ∀ before rest, Js.replace_gi pattern replacement source = before +:+ rest →
                 Js.matches_here pattern rest = false.
Proof.
  remember (String.length source) as n eqn:Hn. revert source Hn.
  induction (lt_wf n) as [n _ IH]. intros [|c source] -> before rest.
  - rewrite Js.replace_gi_equation_1. by destruct before, rest.
  - rewrite replace_gi_cons.
    destruct (Js.matches_here pattern (String c source)) eqn:Hhead.
    + intros [(r & Hrep & ->)|(r & -> & Hrest)]%append_eq_append.
      * destruct r as [|x r].
        -- rewrite append_empty_l.
           eapply (IH _ _ _ eq_refl ""); by rewrite append_empty_l.
        -- apply (proj1 (Forall_forall _ _) Hreplacement).
           by eapply tails_spec.
      * by eapply (IH _ _ _ eq_refl r).
    + destruct before as [|b before].
      * rewrite append_empty_l. intros <-.
        destruct (Js.matches_here pattern (String c (Js.replace_gi pattern replacement source)))
          eqn:Hout; [|done].
        unfold pattern in Hout, Hhead. rewrite matches_here_cons in Hout, Hhead.
        destruct (Ascii.eqb (Js.canonicalize "<") (Js.canonicalize c)); [|done].
        apply matches_through_replace in Hout; [congruence | done].
      * rewrite append_cons. intros [= <- Hrest].
        by eapply (IH _ _ _ eq_refl before).
  Unshelve.
  all: simpl; pose proof (drop_length_le (String.length ptail - 0) source); lia.
Qed.

Lemma replace_gi_escapes (source : string) :
  ¬ occurs_ignoring_ascii_case pattern (Js.replace_gi pattern replacement source).
Proof.
  intros (before & rest & Hout & Hmatch)%occurs_spec.
  apply replace_gi_leaves_no_match in Hout. congruence.
Qed.

End Replace.

End EscapeFacts.

(** * Resolving the widget assets *)

Section NameFacts.

Lemma append_assoc (a b c : string) : (a +:+ b) +:+ c = a +:+ b +:+ c.
Proof. induction a as [|x a IH]; [done|]. by rewrite !append_cons, IH. Qed.

Lemma append_empty_r (a : string) : a +:+ "" = a.
Proof. induction a as [|x a IH]; [done|]. by rewrite append_cons, IH. Qed.

Lemma length_append (a b : string) :
  String.length (a +:+ b) = (String.length a + String.length b)%nat.
Proof. induction a as [|x a IH]; [done|]. rewrite append_cons. simpl. by rewrite IH. Qed.

Lemma drop_append (a b : string) : Js.drop (String.length a) (a +:+ b) = b.
Proof. induction a as [|x a IH]; [by destruct b|]. by rewrite append_cons. Qed.

Lemma drop_split (n : nat) (s : string) : ∃ before, s = before +:+ Js.drop n s.
Proof.
  revert s. induction n as [|n IH]; intros s; [by exists ""|].
  destruct s as [|c s]; [by exists ""|].
  destruct (IH s) as [before Hbefore]. exists (String c before).
  rewrite append_cons. simpl. by rewrite <- Hbefore.
Qed.

Lemma endsWith_spec (s p : string) : Js.endsWith s p = true ↔ ∃ before, s = before +:+ p.
Proof.
  unfold Js.endsWith. rewrite andb_true_iff, Nat.leb_le, String.eqb_eq. split.
  - intros [_ Hdrop].
    destruct (drop_split (String.length s - String.length p) s) as [before Hbefore].
    exists before. by rewrite <- Hdrop.
  - intros [before ->]. rewrite length_append. split; [lia|].
    replace (String.length before + String.length p - String.length p)%nat
      with (String.length before) by lia.
    apply drop_append.
Qed.

(** A string that ends with [-] and also ends with something that is not
    empty: that something ends with [-]. *)
Lemma ends_with_dash (name before r : string) :
  name +:+ "-" = before +:+ r → r ≠ "" → ∃ r', r = r' +:+ "-".
Proof.
  intros [(x & _ & ->)|(x & _ & Hr)]%append_eq_append Hne.
  - by exists x.
  - destruct x as [|c x].
    + rewrite append_empty_l in Hr. subst r. by exists "".
    + rewrite append_cons in Hr. injection Hr as _ Hrest. by destruct x, r.
Qed.

Lemma no_dash_in_extension (extension : string) :
  is_asset_extension extension → ¬ is_substring "-" extension.
Proof.
  intros [-> | ->] Hsub%includes_spec; vm_compute in Hsub; done.
Qed.

(** The test of [resolveWidgetAsset] is the pattern [{name}-{hash}{ext}]. *)
Lemma hashed_name_spec (entryName extension file : string) :
  is_asset_extension extension →
  Js.startsWith file (entryName +:+ "-") && Js.endsWith file extension = true
  ↔ is_hashed_name entryName extension file.
Proof.
  intros Hext. rewrite andb_true_iff, startsWith_spec, endsWith_spec. split.
  - intros [[rest ->] [before Hend]]. rewrite append_assoc in Hend.
    rewrite <- (append_assoc entryName "-" rest) in Hend.
    apply append_eq_append in Hend as [(r & Hname & Hextension)|(r & -> & ->)].
    + destruct r as [|c r].
      * rewrite append_empty_l in Hextension. subst extension.
        exists "". by rewrite append_assoc.
      * destruct (ends_with_dash entryName before (String c r) Hname) as [r' Hr']; [done|].
        destruct (no_dash_in_extension extension Hext).
        exists r', rest. by rewrite Hextension, Hr', append_assoc.
    + exists r. by rewrite !append_assoc.
  - intros [hash ->]. split.
    + exists (hash +:+ extension). by rewrite append_assoc.
    + exists (entryName +:+ "-" +:+ hash). by rewrite !append_assoc.
Qed.

Lemma compare_strings_le (a b : string) : Js.compare_strings a b ≤ 0 ↔ String.le a b.
Proof.
  unfold Js.compare_strings, String.le, String.leb.
  destruct (String.compare a b); simpl; split; (lia || done).
Qed.

End NameFacts.

Section AssetFacts.

Import Widget.

Lemma last_of_sorted {A} (R : relation A) `{!Reflexive R} (l : list A) (m : A) :
  StronglySorted R l → last l = Some m → m ∈ l ∧ ∀ x, x ∈ l → R x m.
Proof.
  intros Hsorted [l' ->]%last_Some. split; [set_solver|].
  intros x [Hx | ->%list_elem_of_singleton]%elem_of_app; [|done].
  eapply StronglySorted_app_1_elem_of; [done..|]. by left.
Qed.

Lemma elem_of_hashedCandidates (entryName extension file : string) (files : list string) :
  is_asset_extension extension →
  file ∈ hashedCandidates entryName extension files
  ↔ file ∈ files ∧ is_hashed_name entryName extension file.
Proof.
  intros Hext. unfold hashedCandidates.
  rewrite elem_of_sort, list_elem_of_filter, hashed_name_spec by done. tauto.
Qed.

Lemma hashedCandidates_sorted (entryName extension : string) (files : list string) :
  StronglySorted String.le (hashedCandidates entryName extension files).
Proof. apply sort_sorted; [apply _..|]. intros a b _ _. apply compare_strings_le. Qed.

(** What [resolveWidgetAsset] picks in a directory. *)
Lemma resolveWidgetAsset_spec (fs : Fs.t) (entryName extension uiAssetsDir : string)
    (files : list string) :
  is_asset_extension extension →
  fs !! uiAssetsDir = Some (Fs.Directory files) →
  ((∃ file, file ∈ files ∧ is_hashed_name entryName extension file) →
   ∃ picked,
     resolveWidgetAsset fs entryName extension uiAssetsDir = Returns picked ∧
     picked ∈ files ∧ is_hashed_name entryName extension picked ∧
     ∀ file, file ∈ files → is_hashed_name entryName extension file → String.le file picked) ∧
  ((∀ file, file ∈ files → ¬ is_hashed_name entryName extension file) →
   (entryName +:+ extension ∈ files →
    resolveWidgetAsset fs entryName extension uiAssetsDir = Returns (entryName +:+ extension)) ∧
   (entryName +:+ extension ∉ files →
    ∃ message, resolveWidgetAsset fs entryName extension uiAssetsDir = Throws message)).
Proof.
  intros Hext Hdir. unfold resolveWidgetAsset, Fs.readdirSync, Js.at_last.
  rewrite Hdir. simpl. split.
  - intros (file & Hfile & Hhashed).
    destruct (last (hashedCandidates entryName extension files)) as [picked|] eqn:Hlast.
    + destruct (last_of_sorted String.le _ picked
                  (hashedCandidates_sorted entryName extension files) Hlast)
        as [Hpicked Hmax].
      apply elem_of_hashedCandidates in Hpicked as [Hin Hname]; [|done].
      assert (Js.truthy picked = true) as ->.
      { destruct Hname as [hash ->]. by destruct entryName. }
      exists picked. split_and!; [done..|].
      intros g Hg Hg'. apply Hmax. by apply elem_of_hashedCandidates.
    + apply last_None in Hlast.
      assert (file ∈ hashedCandidates entryName extension files) as Hin
        by (by apply elem_of_hashedCandidates).
      rewrite Hlast in Hin. by apply elem_of_nil in Hin.
  - intros Hnone.
    assert (last (hashedCandidates entryName extension files) = None) as ->.
    { destruct (last _) as [picked|] eqn:Hlast; [|done].
      apply last_Some_elem_of, elem_of_hashedCandidates in Hlast as [Hin Hname]; [|done].
      by destruct (Hnone picked). }
    split; intros Hfallback; [by rewrite bool_decide_eq_true_2|].
    rewrite bool_decide_eq_false_2 by done. eauto.
Qed.

Section WithHost.
Context `{Host}.

Lemma buildWidgetHtml_prebuilt (fs : Fs.t) (entryName rootId uiAssetsDir document : string) :
  fs !! Fs.join distDir (entryName +:+ ".html") = Some (Fs.File document) →
  buildWidgetHtml fs entryName rootId uiAssetsDir = Returns document.
Proof.
  intros Hfile. unfold buildWidgetHtml, resolveDocument, Fs.existsSync, Fs.readFileSync.
  by rewrite Hfile.
Qed.

(** When there is no prebuilt document, the document is built by inlining
    the two assets the resolver picks, escaped. *)
Lemma resolveDocument_inlines (fs : Fs.t) (entryName rootId uiAssetsDir document : string) :
  fs !! Fs.join distDir (entryName +:+ ".html") = None →
  resolveDocument fs entryName rootId uiAssetsDir = Returns document ↔
  ∃ jsAsset cssAsset jsContents cssContents,
    resolveWidgetAsset fs entryName ".js" uiAssetsDir = Returns jsAsset ∧
    resolveWidgetAsset fs entryName ".css" uiAssetsDir = Returns cssAsset ∧
    fs !! Fs.join uiAssetsDir jsAsset = Some (Fs.File jsContents) ∧
    fs !! Fs.join uiAssetsDir cssAsset = Some (Fs.File cssContents) ∧
    document = inlinedDocument rootId (escapeForInlineStyle cssContents)
                                      (escapeForInlineScript jsContents).
Proof.
  intros Hnone. unfold resolveDocument, Fs.existsSync, Fs.readFileSync. rewrite Hnone.
  split.
  - destruct (fs !! uiAssetsDir) as [node|] eqn:Hdir; simpl; [|done].
    destruct (resolveWidgetAsset fs entryName ".js" uiAssetsDir) as [jsAsset|]; simpl; [|done].
    destruct (resolveWidgetAsset fs entryName ".css" uiAssetsDir) as [cssAsset|]; simpl; [|done].
    destruct (fs !! Fs.join uiAssetsDir jsAsset) as [[jsContents|?]|] eqn:Hjs; simpl;
      destruct (fs !! Fs.join uiAssetsDir cssAsset) as [[cssContents|?]|] eqn:Hcss; simpl;
      try done.
    intros [= <-]. by exists jsAsset, cssAsset, jsContents, cssContents.
  - intros (jsAsset & cssAsset & jsContents & cssContents & Hjs & Hcss & Hjsf & Hcssf & ->).
    assert (is_Some (fs !! uiAssetsDir)) as [node ->].
    { unfold resolveWidgetAsset, Fs.readdirSync in Hjs.
      destruct (fs !! uiAssetsDir); [eauto | done]. }
    simpl. rewrite Hjs, Hcss. simpl. by rewrite Hjsf, Hcssf.
Qed.


End WithHost.

End AssetFacts.

Section WidgetClaims.
Context `{Host}.

Import Widget Tools.

(** C4: the order in which a widget document is resolved. (1) When a
    prebuilt document is at [dist/{name}.html], [buildWidgetHtml] returns it
    as it is. (2) Otherwise the document is the one inlined from the script
    and the style the resolver picks in the asset directory, and among the
    files named [{name}-{hash}{ext}] the resolver picks the one that is last
    in the order of the file names. (3) When no file has that form the
    resolver picks [{name}{ext}] if the directory lists it, and fails
    otherwise. *)
Theorem widget_resolution_precedence (fs : Fs.t) (entryName rootId uiAssetsDir : string) :
  (∀ document,
     fs !! Fs.join distDir (entryName +:+ ".html") = Some (Fs.File document) →
     buildWidgetHtml fs entryName rootId uiAssetsDir = Returns document) ∧
  (fs !! Fs.join distDir (entryName +:+ ".html") = None →
   ∀ document,
     buildWidgetHtml fs entryName rootId uiAssetsDir = Returns document ∧
     (∃ resolved, resolveDocument fs entryName rootId uiAssetsDir = Returns resolved)
     ↔ ∃ jsAsset cssAsset jsContents cssContents,
         resolveWidgetAsset fs entryName ".js" uiAssetsDir = Returns jsAsset ∧
         resolveWidgetAsset fs entryName ".css" uiAssetsDir = Returns cssAsset ∧
         fs !! Fs.join uiAssetsDir jsAsset = Some (Fs.File jsContents) ∧
         fs !! Fs.join uiAssetsDir cssAsset = Some (Fs.File cssContents) ∧
         document = inlinedDocument rootId (escapeForInlineStyle cssContents)
                                           (escapeForInlineScript jsContents)) ∧
  (∀ extension files,
     is_asset_extension extension →
     fs !! uiAssetsDir = Some (Fs.Directory files) →
     ((∃ file, file ∈ files ∧ is_hashed_name entryName extension file) →
      ∃ picked,
        resolveWidgetAsset fs entryName extension uiAssetsDir = Returns picked ∧
        picked ∈ files ∧ is_hashed_name entryName extension picked ∧
        ∀ file, file ∈ files → is_hashed_name entryName extension file →
                String.le file picked) ∧
     ((∀ file, file ∈ files → ¬ is_hashed_name entryName extension file) →
      (entryName +:+ extension ∈ files →
       resolveWidgetAsset fs entryName extension uiAssetsDir
       = Returns (entryName +:+ extension)) ∧
      (entryName +:+ extension ∉ files →
       ∃ message, resolveWidgetAsset fs entryName extension uiAssetsDir = Throws message))).
Proof.
  split_and!.
  - intros document. apply buildWidgetHtml_prebuilt.
  - intros Hnone document. rewrite <- resolveDocument_inlines by done.
    unfold buildWidgetHtml. split.
    + intros [Hbuilt [resolved Hres]]. rewrite Hres in Hbuilt. simpl in Hbuilt. congruence.
    + intros Hres. rewrite Hres. eauto.
  - intros extension files. apply resolveWidgetAsset_spec.
Qed.

End WidgetClaims.

(** The resolver on the example deployments: the prebuilt document wins; of
    two builds the one with the later name is inlined, its closing tag
    escaped; without any asset the placeholder is returned. *)
Example widget_resolution_examples :
  Widget.buildWidgetHtml (H := ExampleHost.host) ExampleHost.fsPrebuilt
    "article-list" "article-list-root" ExampleHost.uiAssetsDir
  = Returns "<html>prebuilt</html>" ∧
  Widget.resolveWidgetAsset ExampleHost.fsHashed "article-list" ".js" ExampleHost.uiAssetsDir
  = Returns "article-list-b2.js" ∧
  Widget.resolveWidgetAsset ExampleHost.fsHashed "article-preview" ".js" ExampleHost.uiAssetsDir
  = Throws ("Missing .js asset for widget " +:+ Widget.dquote +:+ "article-preview"
            +:+ Widget.dquote +:+ " inside /app/assets. Build the UI bundle first.") ∧
  Widget.buildWidgetHtml (H := ExampleHost.host) ExampleHost.fsHashed
    "article-list" "root" ExampleHost.uiAssetsDir
  = Returns (Widget.inlinedDocument "root" "a { color: red }" "let s = '<\/script>';") ∧
  Widget.buildWidgetHtml (H := ExampleHost.host) ExampleHost.fsCorpusOnly
    "article-list" "root" ExampleHost.uiAssetsDir
  = Returns "<div>Widget unavailable</div>".
Proof. split_and!; vm_compute; reflexivity. Qed.

Section EscapeClaims.

Import Widget.

(** C9: what [escapeForInlineScript] returns holds no [</script], and what
    [escapeForInlineStyle] returns holds no [</style], whatever the case of
    the letters; and a document that [resolveDocument] inlines holds the
    style and the script in their escaped form only. *)
Theorem inlined_content_cannot_close_its_tag :
  (∀ source, ¬ occurs_ignoring_ascii_case "</script" (escapeForInlineScript source)) ∧
  (∀ source, ¬ occurs_ignoring_ascii_case "</style" (escapeForInlineStyle source)) ∧
  (∀ (host : Host) fs entryName rootId uiAssetsDir document,
     fs !! Fs.join distDir (entryName +:+ ".html") = None →
     resolveDocument fs entryName rootId uiAssetsDir = Returns document →
     ∃ jsContents cssContents,
       document = inlinedDocument rootId (escapeForInlineStyle cssContents)
                                         (escapeForInlineScript jsContents)).
Proof.
  split_and!.
  - intros source. apply (replace_gi_escapes "/script" "\/script").
    + repeat constructor; by vm_compute.
    + repeat constructor; intros t; reflexivity.
  - intros source. apply (replace_gi_escapes "/style" "\/style").
    + repeat constructor; by vm_compute.
    + repeat constructor; intros t; reflexivity.
  - intros host fs entryName rootId uiAssetsDir document Hnone Hres.
    apply resolveDocument_inlines in Hres as (_ & _ & js & css & _ & _ & _ & _ & ->); eauto.
Qed.

End EscapeClaims.

(** * The cross-origin headers *)

Section CorsClaims.

Import Cors.

Lemma getCorsHeaders_origin env requestOrigin (additionalHeaders : gmap string string) :
  additionalHeaders !! "Access-Control-Allow-Origin" = None →
  getCorsHeaders env requestOrigin additionalHeaders !! "Access-Control-Allow-Origin"
  = Some (resolveAllowedOrigin env requestOrigin).
Proof.
  intros Hextra. unfold getCorsHeaders.
  rewrite lookup_union_r by done. rewrite lookup_insert_ne by done.
  destruct (bool_decide _).
  - rewrite lookup_union_r by done. apply lookup_singleton_eq.
  - rewrite lookup_union_r by (by rewrite lookup_singleton_ne). apply lookup_singleton_eq.
Qed.

Lemma getCorsHeaders_credentials env requestOrigin (additionalHeaders : gmap string string) :
  additionalHeaders !! "Access-Control-Allow-Credentials" = None →
  getCorsHeaders env requestOrigin additionalHeaders !! "Access-Control-Allow-Credentials"
  = if bool_decide (resolveAllowedOrigin env requestOrigin = "*") then None else Some "true".
Proof.
  intros Hextra. unfold getCorsHeaders.
  rewrite lookup_union_r by done. rewrite lookup_insert_ne by done.
  destruct (bool_decide _).
  - rewrite lookup_union_r by done. by rewrite lookup_singleton_ne.
  - rewrite lookup_union_l by (by rewrite lookup_singleton_ne). apply lookup_singleton_eq.
Qed.

Lemma isListed_spec (requestOrigin : option string) (origins : list string) :
  isListed requestOrigin origins = true ↔ listed requestOrigin origins.
Proof.
  unfold isListed, listed. destruct requestOrigin as [origin|].
  - rewrite andb_true_iff, truthy_nonempty, bool_decide_eq_true. split.
    + intros [? ?]. by exists origin.
    + by intros (? & [= <-] & ? & ?).
  - split; [done | by intros (? & ? & _)].
Qed.

Lemma head_filter_nonempty (origins : list string) :
  match head (filter (λ origin, origin ≠ "") origins) with
  | Some origin => if Js.truthy origin then origin else firstDefaultOrigin
  | None => firstDefaultOrigin
  end = default "https://chatgpt.com" (head (filter (λ origin, origin ≠ "") origins)).
Proof.
  destruct (filter _ origins) as [|origin rest] eqn:Hfilter; [done|]. simpl.
  assert (origin ∈ filter (λ origin, origin ≠ "") origins) as [Hne _]%list_elem_of_filter
    by (rewrite Hfilter; left).
  by apply truthy_nonempty in Hne as ->.
Qed.

(** [resolveAllowedOrigin] in production, in terms of the allow-list. *)
Lemma resolveAllowedOrigin_production (env : Env) (requestOrigin : option string) :
  isDevelopment env = false →
  resolveAllowedOrigin env requestOrigin
  = if isListed requestOrigin (allow_list env) then default "" requestOrigin
    else default "https://chatgpt.com" (head (allow_list env)).
Proof.
  intros Hprod. unfold resolveAllowedOrigin, allow_list. rewrite Hprod.
  destruct (ALLOWED_ORIGIN env) as [value|]; simpl; [|done].
  destruct (decide (Js.trim value = "")) as [Hblank|Hvalue].
  - rewrite Hblank. done.
  - rewrite (proj2 (truthy_nonempty _) Hvalue).
    rewrite (list_filter_iff (λ origin, (0 < String.length origin)%nat) (λ origin, origin ≠ ""))
      by (intros [|??]; simpl; split; (lia || done)).
    by rewrite head_filter_nonempty.
Qed.

(** C8, as amended: [getCorsHeaders] advertises
    [Access-Control-Allow-Credentials: true] exactly when the value of
    [Access-Control-Allow-Origin] is not the wildcard, be it the origin of
    the request echoed back or, in production, the first origin of the
    allow-list; outside production every request origin that is not empty is
    echoed back, and a missing or empty one gives the wildcard. *)
Theorem credentials_only_without_wildcard (env : Env) (requestOrigin : option string)
    (additionalHeaders : gmap string string) :
  additionalHeaders !! "Access-Control-Allow-Origin" = None →
  additionalHeaders !! "Access-Control-Allow-Credentials" = None →
  let headers := getCorsHeaders env requestOrigin additionalHeaders in
  (∃ allowedOrigin,
     headers !! "Access-Control-Allow-Origin" = Some allowedOrigin ∧
     allowedOrigin = resolveAllowedOrigin env requestOrigin ∧
     (headers !! "Access-Control-Allow-Credentials" = Some "true" ↔ allowedOrigin ≠ "*") ∧
     (headers !! "Access-Control-Allow-Credentials" = None ↔ allowedOrigin = "*")) ∧
  (isDevelopment env = true →
   (∀ origin, requestOrigin = Some origin → origin ≠ "" →
      headers !! "Access-Control-Allow-Origin" = Some origin) ∧
   (requestOrigin = None ∨ requestOrigin = Some "" →
      headers !! "Access-Control-Allow-Origin" = Some "*")) ∧
  (isDevelopment env = false →
   (∀ origin, requestOrigin = Some origin → origin ≠ "" → origin ∈ allow_list env →
      headers !! "Access-Control-Allow-Origin" = Some origin) ∧
   (¬ listed requestOrigin (allow_list env) →
      headers !! "Access-Control-Allow-Origin"
      = Some (default "https://chatgpt.com" (head (allow_list env))))).
Proof.
  intros Horigin Hcredentials. cbv zeta.
  rewrite getCorsHeaders_origin, getCorsHeaders_credentials by done.
  split_and!.
  - exists (resolveAllowedOrigin env requestOrigin). split_and!; [done..| |];
      case_bool_decide; naive_solver.
  - intros Hdev. unfold resolveAllowedOrigin. rewrite Hdev. split.
    + intros origin -> Hne. by destruct origin.
    + by intros [-> | ->].
  - intros Hprod. rewrite resolveAllowedOrigin_production by done. split.
    + intros origin -> Hne Hin. rewrite (proj2 (isListed_spec _ _)); [done|]. by exists origin.
    + intros Hout. destruct (isListed _ _) eqn:Hlisted; [|done].
      by apply isListed_spec in Hlisted.
Qed.

End CorsClaims.

(** C8 at the headers of a development server for a request from
    [http://localhost:5173], with the headers the MCP endpoint adds. *)
Lemma credentials_only_without_wildcard_witness :
  let env := {| Cors.isDevelopment := true; Cors.ALLOWED_ORIGIN := None |} in
  let extra : gmap string string := {[ "Access-Control-Expose-Headers" := "Mcp-Session-Id" ]} in
  let headers := Cors.getCorsHeaders env (Some "http://localhost:5173") extra in
  headers !! "Access-Control-Allow-Origin" = Some "http://localhost:5173" ∧
  headers !! "Access-Control-Allow-Credentials" = Some "true".
Proof.
  cbv zeta.
  pose proof (credentials_only_without_wildcard
                {| Cors.isDevelopment := true; Cors.ALLOWED_ORIGIN := None |}
                (Some "http://localhost:5173")
                ({[ "Access-Control-Expose-Headers" := "Mcp-Session-Id" ]} : gmap string string))
    as Hheaders.
  destruct Hheaders as [(allowed & Hallowed & -> & Hcredentials & _) _];
    [vm_compute; reflexivity..|].
  split; [exact Hallowed|]. apply Hcredentials. vm_compute. discriminate.
Defined.

(** C8, the claim as stated fails: in production a request from an origin
    outside the allow-list is answered with the first origin of the list,
    which is not the origin of the request, and credentials are advertised
    all the same. *)
Lemma credentials_without_echoed_origin :
  let env := {| Cors.isDevelopment := false; Cors.ALLOWED_ORIGIN := None |} in
  let headers := Cors.getCorsHeaders env (Some "https://evil.example") ∅ in
  headers !! "Access-Control-Allow-Credentials" = Some "true" ∧
  headers !! "Access-Control-Allow-Origin" = Some "https://chatgpt.com" ∧
  headers !! "Access-Control-Allow-Origin" ≠ Some "https://evil.example".
Proof. cbv zeta. split_and!; vm_compute; (reflexivity || discriminate). Qed.

(** * Further properties of the article service *)

Section AuthorFacts.

Import ArticleService.

Lemma getAuthorRaw_trimmed (article : MagazineArticle) (name : string) :
  getAuthorRaw article = Some name → Js.trim name = name.
Proof.
  unfold getAuthorRaw. destruct (author article) as [[value|[name'|]]|]; simpl; try done.
  - destruct (Js.truthy value); [|done].
    destruct (0 <? String.length (Js.trim value))%nat; [|done].
    intros [= <-]. apply trim_idem.
  - destruct (Js.truthy (Js.trim name') && (0 <? String.length (Js.trim name'))%nat); [|done].
    intros [= <-]. apply trim_idem.
Qed.

Lemma getAuthorName_nonempty (article : MagazineArticle) : getAuthorName article ≠ "".
Proof.
  unfold getAuthorName. destruct (getAuthorRaw article) as [name|] eqn:Hraw; simpl; [|done].
  by eapply getAuthorRaw_nonempty.
Qed.

(** X1: the display name of an author is never empty and carries no white
    space around it: it is the trimmed name the record gives, as a string or
    as the name of the author object, and [Editorial team] when the record
    gives none or a blank one. *)
Theorem author_name_is_never_blank (article : MagazineArticle) :
  getAuthorName article ≠ "" ∧
  Js.trim (getAuthorName article) = getAuthorName article ∧
  (∀ value, author article = Some (AuthorString value) → Js.trim value ≠ "" →
     getAuthorName article = Js.trim value) ∧
  (∀ name, author article = Some (AuthorObject (Some name)) → Js.trim name ≠ "" →
     getAuthorName article = Js.trim name) ∧
  (getAuthorRaw article = None → getAuthorName article = "Editorial team").
Proof.
  unfold getAuthorName. split_and!.
  - destruct (getAuthorRaw article) as [name|] eqn:Hraw; simpl; [|done].
    by eapply getAuthorRaw_nonempty.
  - destruct (getAuthorRaw article) as [name|] eqn:Hraw; simpl; [|by vm_compute].
    by eapply getAuthorRaw_trimmed.
  - intros value Hauthor Hvalue. unfold getAuthorRaw. rewrite Hauthor.
    assert (Js.truthy value = true) as ->.
    { destruct value; [by vm_compute in Hvalue | done]. }
    by destruct (Js.trim value).
  - intros name Hauthor Hname. unfold getAuthorRaw. rewrite Hauthor. simpl.
    by destruct (Js.trim name).
  - by intros ->.
Qed.

End AuthorFacts.

Section LoadExtras.
Context `{Host}.

Import ArticleService.

(** X2: how a load ends. [loadMagazineArticles] throws when the corpus file
    is missing, with a message that names the path, when it is a directory
    and when it is not valid JSON; it returns whenever the file holds an
    array of article records, whatever their fields hold. When it throws,
    the article list and the slug map are left empty. *)
Theorem load_returns_on_every_record_list (fs : Fs.t) (blogDataPath : string) :
  (fs !! blogDataPath = None →
     (loadMagazineArticles fs blogDataPath).1
     = Throws ("Blog data file not found: " +:+ blogDataPath)) ∧
  (∀ entries, fs !! blogDataPath = Some (Fs.Directory entries) →
     ∃ message, (loadMagazineArticles fs blogDataPath).1 = Throws message) ∧
  (∀ data, fs !! blogDataPath = Some (Fs.File data) → JSON_parse data = None →
     ∃ message, (loadMagazineArticles fs blogDataPath).1 = Throws message) ∧
  (∀ data raws, fs !! blogDataPath = Some (Fs.File data) → JSON_parse data = Some raws →
     (loadMagazineArticles fs blogDataPath).1 = Returns ()) ∧
  (∀ message, (loadMagazineArticles fs blogDataPath).1 = Throws message →
     (loadMagazineArticles fs blogDataPath).2 = emptyIndex ∧
     magazineArticles (loadMagazineArticles fs blogDataPath).2 = [] ∧
     ∀ key, articlesBySlug (loadMagazineArticles fs blogDataPath).2 !! key = None).
Proof.
  unfold loadMagazineArticles, readArticles, Fs.existsSync, Fs.readFileSync.
  destruct (fs !! blogDataPath) as [[data|entries]|] eqn:Hfile; simpl.
  - destruct (JSON_parse data) as [raws|] eqn:Hparse; simpl.
    + rewrite (list_filter_iff _ acceptable) by (intros; apply isLoadedArticle_acceptable).
      rewrite mapM_normalizeArticle
        by (apply Forall_forall; intros ? [? _]%list_elem_of_filter; done).
      simpl. split_and!; [done..| | |done].
      * intros ? [= <-]. by rewrite Hparse.
      * done.
    + split_and!; [done..| eauto | | done].
      intros ?? [= <-]. by rewrite Hparse.
  - split_and!; [done | eauto | done..].
  - split_and!; done.
Qed.

Lemma foldl_insert_lookup (articles : list MagazineArticle) (key : option string)
    (m : gmap (option string) MagazineArticle) :
  foldl (λ m a, <[slug a := a]> m) m articles !! key
  = match last (filter (λ a, slug a = key) articles) with
    | Some article => Some article
    | None => m !! key
    end.
Proof.
  revert m. induction articles as [|a articles IH]; intros m; [done|]. simpl.
  rewrite IH, filter_cons. destruct (decide (slug a = key)) as [<-|Hne].
  - rewrite lookup_insert_eq. rewrite last_cons. by destruct (last _).
  - by rewrite lookup_insert_ne.
Qed.

(** X3: after a load that succeeds, looking a slug up in [articlesBySlug]
    gives the last article of the list with that slug, and nothing when no
    article has it; so every article of the list is found under its slug
    unless a later article has the same slug. *)
Theorem slug_lookup_is_last_write_wins (fs : Fs.t) (blogDataPath : string) (index : Index) :
  loadMagazineArticles fs blogDataPath = (Returns (), index) →
  (∀ key, articlesBySlug index !! key
          = last (filter (λ a, slug a = key) (magazineArticles index))) ∧
  (∀ key, articlesBySlug index !! key = None
          ↔ ∀ article, article ∈ magazineArticles index → slug article ≠ key) ∧
  (∀ before article after,
     magazineArticles index = before ++ article :: after →
     (∀ later, later ∈ after → slug later ≠ slug article) →
     articlesBySlug index !! slug article = Some article).
Proof.
  intros (data & raws & _ & _ & _ & Hmap)%loadMagazineArticles_success.
  assert (∀ key, articlesBySlug index !! key
                 = last (filter (λ a, slug a = key) (magazineArticles index))) as Hlookup.
  { intros key. rewrite Hmap. unfold buildSlugIndex. rewrite foldl_insert_lookup.
    rewrite lookup_empty. by destruct (last _). }
  split_and!; [done| |].
  - intros key. rewrite Hlookup, last_None. split.
    + intros Hnil article Hin Hslug.
      by eapply (filter_nil_not_elem_of (λ a, slug a = key)).
    + intros Hnone. destruct (filter _ _) as [|a l] eqn:Hfilter; [done|].
      assert (a ∈ filter (λ a, slug a = key) (magazineArticles index)) as [? ?]%list_elem_of_filter
        by (rewrite Hfilter; left).
      by destruct (Hnone a).
  - intros before article after Hlist Hlater. rewrite Hlookup, Hlist.
    assert (filter (λ a, slug a = slug article) after = []) as Hafter.
    { clear Hlist. induction after as [|a after IH]; [done|].
      rewrite filter_cons_False by (apply Hlater; left).
      apply IH. intros later Hin. apply Hlater. by right. }
    rewrite filter_app, filter_cons_True, Hafter by done. apply last_snoc.
Qed.

End LoadExtras.

(** X3 on a corpus file in which two records have the slug [a]: the slug
    leads to the later of the two, and the earlier one is not found under
    it. *)
Lemma slug_lookup_is_last_write_wins_witness :
  ArticleService.magazineArticles MoreExamples.duplicateIndex
  = [ExampleHost.articleA; ExampleHost.articleB; MoreExamples.articleARevised] ∧
  filter (λ a, slug a = Some "a") (ArticleService.magazineArticles MoreExamples.duplicateIndex)
  = [ExampleHost.articleA; MoreExamples.articleARevised] ∧
  ArticleService.articlesBySlug MoreExamples.duplicateIndex !! Some "a"
  = Some MoreExamples.articleARevised ∧
  ArticleService.articlesBySlug MoreExamples.duplicateIndex !! Some "b"
  = Some ExampleHost.articleB.
Proof.
  assert (ArticleService.loadMagazineArticles (H := MoreExamples.duplicateHost)
            MoreExamples.fsDuplicate ExampleHost.blogDataPath
          = (Returns (), MoreExamples.duplicateIndex)) as Hload
    by (vm_compute; reflexivity).
  destruct (slug_lookup_is_last_write_wins (H := MoreExamples.duplicateHost) _ _ _ Hload)
    as (Hlast & _ & Hunique).
  split; [vm_compute; reflexivity|]. split; [vm_compute; reflexivity|]. split.
  - rewrite Hlast. vm_compute. reflexivity.
  - apply (Hunique [ExampleHost.articleA] ExampleHost.articleB [MoreExamples.articleARevised]).
    + vm_compute. reflexivity.
    + intros later ->%list_elem_of_singleton. vm_compute. discriminate.
Defined.

Section ReloadFacts.
Context `{Host}.

Import ArticleService.

Lemma trimmed_acceptable (raw : MagazineArticle) : acceptable raw → acceptable (trimmed raw).
Proof.
  unfold acceptable, nonblank, parseable, trimmed. simpl.
  destruct (slug raw), (title raw), (publicationDate raw); simpl; try tauto.
  by rewrite !trim_idem.
Qed.

Lemma trimmed_idem (raw : MagazineArticle) : trimmed (trimmed raw) = trimmed raw.
Proof.
  unfold trimmed. simpl.
  destruct (slug raw), (title raw), (publicationDate raw); simpl; by rewrite ?trim_idem.
Qed.

(** X4: loading is idempotent. When the list a load has produced is itself
    the content of a corpus file, loading that file keeps every article,
    changes none and gives the same index. *)
Theorem reloading_the_loaded_list_changes_nothing (fs fs' : Fs.t)
    (blogDataPath blogDataPath' data' : string) (index : Index) :
  loadMagazineArticles fs blogDataPath = (Returns (), index) →
  fs' !! blogDataPath' = Some (Fs.File data') →
  JSON_parse data' = Some (magazineArticles index) →
  loadMagazineArticles fs' blogDataPath' = (Returns (), index) ∧
  Forall (λ article, isLoadedArticle article = true
                     ∧ normalizeArticle article = Returns article)
         (magazineArticles index).
Proof.
  intros (data & raws & _ & _ & Hlist & Hmap)%loadMagazineArticles_success Hfile Hparse.
  assert (Forall (λ a, acceptable a ∧ trimmed a = a) (magazineArticles index)) as Hall.
  { rewrite Hlist. apply Forall_fmap, Forall_forall.
    intros raw [Hraw _]%list_elem_of_filter. simpl.
    split; [by apply trimmed_acceptable | apply trimmed_idem]. }
  split.
  - unfold loadMagazineArticles, readArticles, Fs.existsSync, Fs.readFileSync.
    rewrite Hfile. simpl. rewrite Hparse. simpl.
    rewrite (list_filter_iff _ acceptable) by (intros; apply isLoadedArticle_acceptable).
    rewrite (filter_Forall acceptable) by (eapply Forall_impl; [exact Hall | by intros ? [? _]]).
    rewrite mapM_normalizeArticle by (eapply Forall_impl; [exact Hall | by intros ? [? _]]).
    assert (trimmed <$> magazineArticles index = magazineArticles index) as ->.
    { clear -Hall. induction Hall as [|a l [_ Ha] _ IH]; [done|]. by rewrite fmap_cons, Ha, IH. }
    destruct index as [list map]. simpl in *. by rewrite Hmap.
  - eapply Forall_impl; [exact Hall|]. intros article [Hacc Htrim]. split.
    + by apply isLoadedArticle_acceptable.
    + by rewrite normalizeArticle_acceptable, Htrim.
Qed.

End ReloadFacts.

(** X4 on the example corpus: the loaded list, written to a second corpus
    file, loads to the same index. *)
Lemma reloading_the_loaded_list_changes_nothing_witness :
  ArticleService.loadMagazineArticles (H := MoreExamples.reloadHost)
    MoreExamples.fsReloaded ExampleHost.blogDataPath = (Returns (), ExampleHost.loadedIndex) ∧
  ArticleService.loadMagazineArticles (H := MoreExamples.reloadHost)
    MoreExamples.fsReloaded "/app/again.json" = (Returns (), ExampleHost.loadedIndex).
Proof.
  split; [vm_compute; reflexivity|].
  refine (proj1 (reloading_the_loaded_list_changes_nothing (H := MoreExamples.reloadHost)
                   MoreExamples.fsReloaded MoreExamples.fsReloaded
                   ExampleHost.blogDataPath "/app/again.json" MoreExamples.loadedText
                   ExampleHost.loadedIndex _ _ _)); vm_compute; reflexivity.
Defined.

Section CountFacts.
Context `{Host}.

Import ArticleService.

#[export] Instance occurs_ignoring_case_dec term field :
  Decision (occurs_ignoring_case term field).
Proof.
  refine (cast_if (decide (opt_includes field (Js.toLowerCase term) = true)));
    by rewrite <- opt_includes_spec.
Defined.

Lemma length_sort {A} (comparefn : A → A → Z) (l : list A) :
  length (Js.sort comparefn l) = length l.
Proof. by rewrite sort_perm. Qed.

(** X5: every query returns as many articles as the effective limit allows
    and no fewer: the number of articles returned is the smaller of the
    effective limit and the number of matches. *)
Theorem queries_return_limit_or_all_matches (index : Index) (limit : option Z) :
  let n := Z.to_nat (effective_limit limit) in
  (∀ term, length (searchArticles index term limit)
           = (n `min` length (filter (term_matches term) (magazineArticles index)))%nat) ∧
  (∀ term, length (searchArticlesByTitle index term limit)
           = (n `min` length (filter (λ a, occurs_ignoring_case term (title a))
                                     (magazineArticles index)))%nat) ∧
  (∀ name, length (filterArticlesByAuthor index name limit)
           = (n `min` length (filter (λ a, occurs_ignoring_case name (getAuthorRaw a))
                                     (magazineArticles index)))%nat) ∧
  (∀ startDate endDate results,
     filterArticlesByDateRange index startDate endDate limit = Returns results →
     length results
     = (n `min` length (filter (in_date_range startDate endDate)
                               (magazineArticles index)))%nat).
Proof.
  cbv zeta. split_and!.
  - intros term. by rewrite searchArticles_spec, length_take.
  - intros term. unfold searchArticlesByTitle. rewrite slice0_effective, length_take.
    do 2 f_equal. apply list_filter_iff. intros a. apply opt_includes_spec.
  - intros name. unfold filterArticlesByAuthor.
    rewrite slice0_effective, length_take, length_sort.
    do 2 f_equal. apply list_filter_iff. intros a. apply authorMatches_spec.
  - intros startDate endDate results Hres.
    destruct (filterArticlesByDateRange_cases index startDate endDate limit)
      as [(s & _ & _ & _ & Hthrow)|[(_ & s & _ & _ & _ & Hthrow)|(_ & _ & Hreturn)]];
      try congruence.
    rewrite Hreturn in Hres. injection Hres as <-.
    by rewrite slice0_effective, length_take, length_sort.
Qed.

(** X6: a date range whose start lies after its end is not an error: the
    filter returns no article. *)
Theorem inverted_date_range_is_empty (index : Index) (startDate endDate : string)
    (start end_ : Z) (limit : option Z) :
  startDate ≠ "" → endDate ≠ "" →
  Date_parse startDate = Some start → Date_parse endDate = Some end_ →
  end_ < start →
  filterArticlesByDateRange index (Some startDate) (Some endDate) limit = Returns [].
Proof.
  intros Hs He Hstart Hend Hlt.
  destruct (filterArticlesByDateRange_cases index (Some startDate) (Some endDate) limit)
    as [(s & [= <-] & _ & ? & _)|[(_ & s & [= <-] & _ & ? & _)|(_ & _ & ->)]];
    [congruence..|].
  assert (filter (in_date_range (Some startDate) (Some endDate)) (magazineArticles index) = [])
    as ->; [|by rewrite slice0_effective; destruct (Z.to_nat _)].
  induction (magazineArticles index) as [|a l IH]; [done|].
  rewrite filter_cons_False; [done|].
  unfold in_date_range, not_before, not_after.
  destruct startDate as [|c1 s1]; [done|]. destruct endDate as [|c2 s2]; [done|].
  rewrite Hstart, Hend. destruct (dateOf a); [lia | tauto].
Qed.

(** X7: [filterArticlesByAuthor] never returns an article without an author
    name, whatever name is asked for; with the empty name it returns the
    articles that have one, newest first, up to the limit. *)
Theorem author_filter_needs_an_author (index : Index) (limit : option Z) :
  (∀ name article, article ∈ filterArticlesByAuthor index name limit →
     ∃ raw, getAuthorRaw article = Some raw ∧ raw ≠ "") ∧
  filterArticlesByAuthor index "" limit
  = take (Z.to_nat (effective_limit limit))
         (Js.sort newestFirst
            (filter (λ a, is_Some (getAuthorRaw a)) (magazineArticles index))).
Proof.
  split.
  - intros name article Hin. unfold filterArticlesByAuthor in Hin.
    apply slice0_subseteq, elem_of_sort, list_elem_of_filter in Hin as [Hin _].
    unfold authorMatches in Hin. destruct (getAuthorRaw article) as [raw|] eqn:Hraw; [|done].
    exists raw. split; [done|]. by eapply getAuthorRaw_nonempty.
  - unfold filterArticlesByAuthor. rewrite slice0_effective. do 2 f_equal.
    apply list_filter_iff. intros a. rewrite authorMatches_spec.
    unfold occurs_ignoring_case. split.
    + intros (s & -> & _). eauto.
    + intros [s ->]. exists s. split; [done|]. apply includes_spec, includes_empty.
Qed.

End CountFacts.

(** X6 on the corpus of the specification's example: from February back to
    January. *)
Lemma inverted_date_range_is_empty_witness :
  ArticleService.filterArticlesByDateRange (H := ExampleHost.host) ExampleHost.specIndex
    (Some "2024-02-01") (Some "2024-01-01") (Some 10) = Returns [].
Proof.
  apply (inverted_date_range_is_empty (H := ExampleHost.host) ExampleHost.specIndex
           "2024-02-01" "2024-01-01" 1706745600000 1704067200000 (Some 10));
    (done || vm_compute; reflexivity).
Defined.

(** * The payload of the widgets *)

Section PayloadFacts.
Context `{Host}.

Import ArticleService Widget Tools.

Lemma first_truthy_spec (a b : option string) (value : string) :
  first_truthy a b = Some value → value ≠ "" ∧ Js.trim value = value.
Proof.
  unfold first_truthy.
  destruct a as [x|], b as [y|]; simpl;
    repeat match goal with
           | |- context [Js.truthy ?s] => destruct (Js.truthy s) eqn:?
           end;
    intros [= <-]; (split; [by apply truthy_nonempty | apply trim_idem]).
Qed.

Lemma first_truthy_left (a : option string) (value : string) :
  a = Some value → Js.trim value ≠ "" → ∀ b, first_truthy a b = Some (Js.trim value).
Proof.
  intros -> Hvalue b. unfold first_truthy. simpl.
  by rewrite (proj2 (truthy_nonempty _) Hvalue).
Qed.

(** X10: what [mapMagazineArticleToWidgetArticle] makes of a record. It
    throws exactly when the slug, the title or the publication date is
    missing, and returns [null] exactly when the three are there and the
    trimmed date does not parse. Otherwise the widget article carries the
    trimmed slug and title, the display name of the author, the date in ISO
    form, and a URL that is never empty: the trimmed link of the record, or
    the magazine address of the slug when the record has no link. *)
Theorem widget_article_of_a_record (article : MagazineArticle) :
  ((∃ message, mapMagazineArticleToWidgetArticle article = Throws message)
   ↔ slug article = None ∨ title article = None ∨ publicationDate article = None) ∧
  (mapMagazineArticleToWidgetArticle article = Returns None
   ↔ ∃ s t d, slug article = Some s ∧ title article = Some t ∧
              publicationDate article = Some d ∧ Date_parse (Js.trim d) = None) ∧
  (∀ w, mapMagazineArticleToWidgetArticle article = Returns (Some w) →
     slug article = Some (default "" (slug article)) ∧
     wSlug w = Js.trim (default "" (slug article)) ∧
     wTitle w = Js.trim (default "" (title article)) ∧
     wLead w = Js.trim (default "" (lead article)) ∧
     wAuthor w = getAuthorName article ∧ wAuthor w ≠ "" ∧
     (∃ time, Date_parse (Js.trim (default "" (publicationDate article))) = Some time
              ∧ wPublicationDate w = toISOString time) ∧
     (∀ l, link article = Some l → Js.trim l ≠ "" → wUrl w = Js.trim l) ∧
     (link article = None ∨ (∃ l, link article = Some l ∧ Js.trim l = "") →
        wUrl w = "https://www.unic.com/en/magazine/" +:+ wSlug w) ∧
     (∀ heroUrl, wHeroUrl w = Some heroUrl → heroUrl ≠ "") ∧
     (∀ heroAlt, wHeroAlt w = Some heroAlt → heroAlt ≠ "")).
Proof.
  unfold mapMagazineArticleToWidgetArticle, must_trim.
  destruct (slug article) as [s|] eqn:Hs; simpl;
    [|split_and!; [split; eauto | split; [done | by intros (? & ? & ? & ? & _)] | done]].
  destruct (title article) as [t|] eqn:Ht; simpl;
    [|split_and!; [split; eauto | split; [done | by intros (? & ? & ? & _ & ? & _)] | done]].
  destruct (publicationDate article) as [d|] eqn:Hd; simpl;
    [|split_and!; [split; eauto | split; [done | by intros (? & ? & ? & _ & _ & ? & _)] | done]].
  destruct (Date_parse (Js.trim d)) as [time|] eqn:Hparse.
  - destruct (extractHeroMedia article) as [hu ha] eqn:Hhero.
    split_and!.
    + split; [by intros [? ?] | by intros [?|[?|?]]].
    + split; [done | intros (? & ? & ? & _ & _ & [= <-] & ?); congruence].
    + intros w [= <-]. simpl. split_and!; try done.
      * by destruct (lead article).
      * apply getAuthorName_nonempty.
      * eauto.
      * intros l Hl Hne. by rewrite (first_truthy_left _ _ Hl Hne).
      * intros [Hl|(l & Hl & Hblank)]; rewrite Hl; unfold first_truthy; simpl; [done|].
        by rewrite Hblank.
      * intros heroUrl Hu. by apply first_truthy_spec in Hu as [? _].
      * intros heroAlt Ha. by apply first_truthy_spec in Ha as [? _].
  - split_and!.
    + split; [by intros [? ?] | by intros [?|[?|?]]].
    + split; [intros _; by exists s, t, d | done].
    + done.
Qed.

End PayloadFacts.

Section ToolFacts.
Context `{Host}.

Import ArticleService Widget Tools.

Lemma load_as_loaded (fs : Fs.t) (blogDataPath : string) (index : Index) :
  loadMagazineArticles fs blogDataPath = (Returns (), index) →
  Forall as_loaded (magazineArticles index).
Proof.
  intros (data & raws & _ & _ & -> & _)%loadMagazineArticles_success.
  apply Forall_fmap, Forall_forall. intros raw [Hraw _]%list_elem_of_filter.
  split; [by apply trimmed_acceptable | apply trimmed_idem].
Qed.

Lemma widget_article_of_loaded (article : MagazineArticle) :
  as_loaded article →
  ∃ w, mapMagazineArticleToWidgetArticle article = Returns (Some w) ∧ renders article w.
Proof.
  intros [(Hs & Ht & Hd & Hp) Htrim].
  unfold mapMagazineArticleToWidgetArticle, must_trim, renders, dateOf.
  assert (Js.trim <$> slug article = slug article) as Hs' by (by rewrite <- Htrim at 2).
  assert (Js.trim <$> title article = title article) as Ht' by (by rewrite <- Htrim at 2).
  assert (Js.trim <$> publicationDate article = publicationDate article) as Hd'
    by (by rewrite <- Htrim at 2).
  destruct (slug article) as [s|], (title article) as [t|],
           (publicationDate article) as [d|]; simpl in *; try done.
  injection Hs' as Hs'. injection Ht' as Ht'. injection Hd' as Hd'.
  destruct Hp as [time Htime]. rewrite Htime.
  destruct (extractHeroMedia article) as [hu ha].
  eexists. split; [done|]. simpl. rewrite Hs', Ht'. split_and!; [done..|].
  exists time. by rewrite <- Hd'.
Qed.

Lemma mapM_widget_articles (articles : list MagazineArticle) :
  Forall as_loaded articles →
  ∃ ws, mapM mapMagazineArticleToWidgetArticle articles = Returns (Some <$> ws)
        ∧ Forall2 renders articles ws.
Proof.
  induction 1 as [|a l Ha _ (ws & Hws & Hall)]; [by exists []|].
  destruct (widget_article_of_loaded a Ha) as (w & Hw & Hrenders).
  exists (w :: ws). simpl. rewrite Hw. simpl. rewrite Hws. by split; [|constructor].
Qed.

Lemma omap_Some {A} (l : list A) : omap (λ a, a) (Some <$> l) = l.
Proof. induction l as [|x l IH]; [done|]. csimpl. by f_equal. Qed.

(** X9: on a loaded index the handler of [search_articles] with a resolved
    widget never throws; its response carries one text, the metadata of the
    widget and a payload that shows every article the search returned, in
    the order of the results, with its slug, its title and the display name
    of its author: no result is dropped on the way to the widget, and the
    total of the payload is the number of results. *)
Theorem search_with_widget_shows_every_result (fs : Fs.t) (blogDataPath : string)
    (index : Index) (widget : WidgetDescriptor) (now : Z) (query : string) (limit : option Z) :
  loadMagazineArticles fs blogDataPath = (Returns (), index) →
  let limit' := default CONFIG.DEFAULT_LIMIT limit in
  let results := searchArticles index query (Some limit') in
  ∃ text heading summary articles,
    search_articles (Some widget) index now query limit
    = Returns {| content := [text];
                 structuredContent :=
                   Some (SearchPayload heading articles summary (length results)
                           (toISOString now) query limit' (length results) (length results));
                 _meta := Some (widgetInvocationMeta widget) |} ∧
    Forall2 renders results articles.
Proof.
  intros Hload. cbv zeta. unfold search_articles, createSearchWidgetPayload.
  destruct (mapM_widget_articles
              (searchArticles index query (Some (default CONFIG.DEFAULT_LIMIT limit))))
    as (ws & -> & Hall).
  { eapply Forall_forall. intros a Ha%searchArticles_subseteq.
    by apply (proj1 (Forall_forall _ _) (load_as_loaded _ _ _ Hload)). }
  simpl. rewrite omap_Some, <- (Forall2_length _ _ _ Hall).
  do 4 eexists. split; [reflexivity | done].
Qed.

Lemma searchArticlesByTitle_head (index : Index) (phrase : string) :
  head (searchArticlesByTitle index phrase (Some 1))
  = head (filter (λ a, occurs_ignoring_case phrase (title a)) (magazineArticles index)).
Proof.
  unfold searchArticlesByTitle. rewrite slice0_effective.
  rewrite (list_filter_iff _ (λ a, occurs_ignoring_case phrase (title a)))
    by (intros; apply opt_includes_spec).
  change (Z.to_nat (effective_limit (Some 1))) with 1%nat.
  by destruct (filter _ _).
Qed.

(** X8: [get_article_preview] previews the first article, in the order of
    the corpus, whose title holds the phrase, whatever the case of the
    letters. When no title holds it the answer is the text that tells so,
    with or without a widget; without a widget the answer is the formatted
    preview of that first article; with a widget, on a loaded index, it is
    the payload built from that article. *)
Theorem preview_shows_first_title_match (index : Index) (now : Z) (phrase : string)
    (widget : option WidgetDescriptor) :
  let matching :=
    filter (λ a, occurs_ignoring_case phrase (title a)) (magazineArticles index) in
  (matching = [] →
     get_article_preview widget index now phrase = Returns (textOnly (notFoundText phrase))) ∧
  (∀ article rest, matching = article :: rest →
     (widget = None →
        get_article_preview widget index now phrase
        = Returns (textOnly (formatArticlePreview article))) ∧
     (∀ w, widget = Some w → as_loaded article →
        ∃ text shown,
          get_article_preview widget index now phrase
          = Returns {| content := [text];
                       structuredContent :=
                         Some (PreviewPayload "Article Preview" (Some shown) (toISOString now));
                       _meta := Some (widgetInvocationMeta w) |} ∧
          renders article shown)).
Proof.
  cbv zeta. unfold get_article_preview. rewrite searchArticlesByTitle_head. split.
  - by intros ->.
  - intros article rest ->. simpl. split; [by intros ->|].
    intros w -> Hloaded. unfold createArticlePreviewWidgetPayload.
    destruct (widget_article_of_loaded article Hloaded) as (shown & -> & Hrenders).
    simpl. by do 2 eexists.
Qed.

End ToolFacts.

(** X9 on the loaded example corpus, with the descriptor of the article
    list: the search for [x] shows the two articles it returns. *)
Lemma search_with_widget_shows_every_result_witness :
  let widget :=
    {| Widget.id := "unic-article-list"; Widget.widgetTitle := "Unic magazine article list";
       Widget.templateUri := "ui://widget/article-list.html";
       Widget.invoking := "Curating magazine stories"; Widget.invoked := "Article list ready";
       Widget.html := Widget.placeholder |} in
  ArticleService.searchArticles ExampleHost.loadedIndex "x" (Some 10)
  = [ExampleHost.articleA; ExampleHost.articleB] ∧
  ∃ text heading summary articles,
    Tools.search_articles (H := ExampleHost.host) (Some widget) ExampleHost.loadedIndex 0 "x" None
    = Returns {| Tools.content := [text];
                 Tools.structuredContent :=
                   Some (Tools.SearchPayload heading articles summary 2 "0" "x" 10 2 2);
                 Tools._meta := Some (Widget.widgetInvocationMeta widget) |} ∧
    Forall2 (renders (H := ExampleHost.host))
            [ExampleHost.articleA; ExampleHost.articleB] articles.
Proof.
  cbv zeta. split; [vm_compute; reflexivity|].
  refine (search_with_widget_shows_every_result (H := ExampleHost.host)
            ExampleHost.fsCorpusOnly ExampleHost.blogDataPath ExampleHost.loadedIndex
            _ 0 "x" None _).
  vm_compute. reflexivity.
Defined.

Section WidgetDegradation.
Context `{Host}.

Import ArticleService Widget Tools.




End WidgetDegradation.


Section HandlerFacts.
Context `{Host}.

Import ArticleService Widget Tools Handlers.

(** X11: the tools without a widget. The handler of [filter_articles_by_date]
    throws exactly when a bound that is given and not empty does not parse,
    with the message of the article service; the handlers of
    [filter_articles_by_author] and [list_recent_articles] never throw; and
    what the three return is text only. *)
Theorem plain_tools_fail_only_on_dates (index : Index) (limit : option Z) :
  (∀ startDate endDate,
     ((∃ message, filter_articles_by_date index startDate endDate limit = Throws message)
      ↔ unparseable startDate ∨ unparseable endDate) ∧
     (∀ s, startDate = Some s → s ≠ "" → Date_parse s = None →
        filter_articles_by_date index startDate endDate limit
        = Throws (invalidDateMessage "start" s)) ∧
     (∀ response, filter_articles_by_date index startDate endDate limit = Returns response →
        text_only response)) ∧
  (∀ authorName, ∃ response,
     filter_articles_by_author index authorName limit = Returns response ∧
     text_only response) ∧
  (∃ response, list_recent_articles index limit = Returns response ∧ text_only response).
Proof.
  split_and!.
  - intros startDate endDate. unfold filter_articles_by_date.
    destruct (filterArticlesByDateRange_cases index startDate endDate
                (Some (default CONFIG.DEFAULT_LIMIT limit)))
      as [(s & Hs & Hne & Hparse & ->)|[(Hstart & s & He & Hne & Hparse & ->)|(Hs & He & ->)]];
      simpl.
    + split_and!; [split; [intros _; left; by exists s | eauto] | | done].
      intros s' Hs' _ _. congruence.
    + split_and!; [split; [intros _; right; by exists s | eauto] | | done].
      intros s' Hs' Hne' Hparse'. destruct Hstart. by exists s'.
    + split_and!; [split; [by intros [? ?] | tauto] | | intros ? [= <-]; by eexists].
      intros s' Hs' Hne' Hparse'. destruct Hs. by exists s'.
  - intros authorName. unfold filter_articles_by_author. eexists. split; [done | by eexists].
  - unfold list_recent_articles.
    destruct (filterArticlesByDateRange_cases index None None
                (Some (default CONFIG.DEFAULT_LIMIT limit)))
      as [(s & ? & _)|[(_ & s & ? & _)|(_ & _ & ->)]]; [done..|].
    simpl. eexists. split; [done | by eexists].
Qed.

End HandlerFacts.

Section EscapeIdentity.

Import Widget.

Lemma replace_gi_without_match (pattern replacement source : string) :
  (∀ before rest, source = before +:+ rest → Js.matches_here pattern rest = false) →
  Js.replace_gi pattern replacement source = source.
Proof.
  induction source as [|c source IH]; intros Hnone.
  - apply Js.replace_gi_equation_1.
  - rewrite replace_gi_cons, (Hnone "" (String c source)) by done.
    f_equal. apply IH. intros before rest ->. by apply (Hnone (String c before)).
Qed.

Lemma replace_gi_identity (ptail rtail source : string) :
  Forall (λ x, Js.canonicalize x ≠ "<"%char) (String.list_ascii_of_string ptail) →
  Forall (λ r, ∀ t, Js.matches_here (String "<" ptail) (r +:+ t) = false)
         (tails (String "<" rtail)) →
  Js.replace_gi (String "<" ptail) (String "<" rtail) source = source
  ↔ ¬ occurs_ignoring_ascii_case (String "<" ptail) source.
Proof.
  intros Hptail Hreplacement. split.
  - intros Hsame Hoccurs. rewrite <- Hsame in Hoccurs.
    by apply (replace_gi_escapes ptail rtail Hptail Hreplacement source).
  - intros Hnone. apply replace_gi_without_match. intros before rest ->.
    destruct (Js.matches_here (String "<" ptail) rest) eqn:Hmatch; [|done].
    destruct Hnone. apply occurs_spec. by exists before, rest.
Qed.

(** X12: escaping changes nothing but closing tags: [escapeForInlineScript]
    returns its input as it is exactly when the input holds no [</script],
    whatever the case of the letters, and [escapeForInlineStyle] exactly when
    it holds no [</style]; so escaping is idempotent. *)
Theorem escaping_keeps_safe_content (source : string) :
  (escapeForInlineScript source = source
   ↔ ¬ occurs_ignoring_ascii_case "</script" source) ∧
  (escapeForInlineStyle source = source
   ↔ ¬ occurs_ignoring_ascii_case "</style" source) ∧
  escapeForInlineScript (escapeForInlineScript source) = escapeForInlineScript source ∧
  escapeForInlineStyle (escapeForInlineStyle source) = escapeForInlineStyle source.
Proof.
  assert (∀ s, escapeForInlineScript s = s ↔ ¬ occurs_ignoring_ascii_case "</script" s)
    as Hscript.
  { intros s. apply (replace_gi_identity "/script" "\/script").
    - repeat constructor; by vm_compute.
    - repeat constructor; intros t; reflexivity. }
  assert (∀ s, escapeForInlineStyle s = s ↔ ¬ occurs_ignoring_ascii_case "</style" s)
    as Hstyle.
  { intros s. apply (replace_gi_identity "/style" "\/style").
    - repeat constructor; by vm_compute.
    - repeat constructor; intros t; reflexivity. }
  split_and!; [done..| |].
  - apply Hscript, (replace_gi_escapes "/script" "\/script").
    + repeat constructor; by vm_compute.
    + repeat constructor; intros t; reflexivity.
  - apply Hstyle, (replace_gi_escapes "/style" "\/style").
    + repeat constructor; by vm_compute.
    + repeat constructor; intros t; reflexivity.
Qed.

End EscapeIdentity.

(** * The accept header and the origin in production *)

Section AcceptFacts.

Import Accept.

Lemma map_units_append (f : ascii → ascii) (a b : string) :
  Js.map_units f (a +:+ b) = Js.map_units f a +:+ Js.map_units f b.
Proof. induction a as [|c a IH]; [done|]. rewrite append_cons. simpl. by rewrite IH. Qed.

Lemma accepts_iff_includes (rawAccept : option HeaderValue) :
  acceptsEventStream rawAccept
  ↔ ∃ value, joined rawAccept = Some value
             ∧ Js.includes (Js.toLowerCase value) eventStream = true.
Proof.
  unfold acceptsEventStream. split.
  - intros (value & before & after & Hjoined & Hvalue). exists value. split; [done|].
    apply includes_spec. by exists before, after.
  - intros (value & Hjoined & (before & after & Hvalue)%includes_spec).
    by exists value, before, after.
Qed.

Lemma ensureStreamableAccept_unchanged (rawAccept : option HeaderValue) :
  acceptsEventStream rawAccept → ensureStreamableAccept rawAccept = rawAccept.
Proof.
  intros (value & Hjoined & Hincludes)%accepts_iff_includes.
  unfold ensureStreamableAccept. rewrite Hjoined, Hincludes.
  destruct value; [by vm_compute in Hincludes | done].
Qed.

Lemma ensureStreamableAccept_accepts (rawAccept : option HeaderValue) :
  acceptsEventStream (ensureStreamableAccept rawAccept).
Proof.
  assert (acceptsEventStream (Some (One eventStream))) as Hplain
    by (by exists eventStream, "", "").
  unfold ensureStreamableAccept.
  destruct (joined rawAccept) as [accept|] eqn:Hjoined; [|done].
  destruct (Js.truthy accept); simpl; [|done].
  destruct (Js.includes (Js.toLowerCase accept) eventStream) eqn:Hincludes.
  - apply accepts_iff_includes. by exists accept.
  - destruct (String.eqb _ _); [done|].
    exists (accept +:+ ", " +:+ eventStream), (Js.toLowerCase accept +:+ ", "), "".
    split; [done|]. unfold Js.toLowerCase.
    rewrite !map_units_append, append_assoc, append_empty_r. done.
Qed.

(** X15: [ensureStreamableAccept] repairs the accept header. Afterwards the
    header accepts [text/event-stream], whatever it was before: missing,
    empty, an array or a string, in any case of the letters; a header that
    accepts it already is left as it is; and a second call changes nothing. *)
Theorem accept_header_is_repaired (rawAccept : option HeaderValue) :
  acceptsEventStream (ensureStreamableAccept rawAccept) ∧
  (acceptsEventStream rawAccept → ensureStreamableAccept rawAccept = rawAccept) ∧
  ensureStreamableAccept (ensureStreamableAccept rawAccept) = ensureStreamableAccept rawAccept ∧
  (¬ acceptsEventStream rawAccept →
     ∃ value, ensureStreamableAccept rawAccept = Some (One value) ∧
              (value = eventStream
               ∨ ∃ accept, joined rawAccept = Some accept
                           ∧ value = accept +:+ ", " +:+ eventStream)).
Proof.
  split_and!.
  - apply ensureStreamableAccept_accepts.
  - apply ensureStreamableAccept_unchanged.
  - apply ensureStreamableAccept_unchanged, ensureStreamableAccept_accepts.
  - intros Hnot. unfold ensureStreamableAccept.
    destruct (joined rawAccept) as [accept|] eqn:Hjoined;
      [|exists eventStream; by split; [|left]].
    destruct (Js.truthy accept); simpl; [|exists eventStream; by split; [|left]].
    destruct (Js.includes (Js.toLowerCase accept) eventStream) eqn:Hincludes.
    + destruct Hnot. apply accepts_iff_includes. by exists accept.
    + destruct (String.eqb _ _); [exists eventStream; by split; [|left]|].
      eexists. split; [done|]. right. by exists accept.
Qed.

End AcceptFacts.

Section OriginFacts.

Import Cors.

Lemma allow_list_nonempty_entries (env : Env) (origin : string) :
  origin ∈ allow_list env → origin ≠ "".
Proof.
  unfold allow_list. destruct (ALLOWED_ORIGIN env) as [value|].
  - destruct (decide (Js.trim value = "")).
    + unfold DEFAULT_ALLOWED_ORIGINS. intros Hin Hblank. subst origin.
      repeat (apply elem_of_cons in Hin as [Hin | Hin]; [done|]). by apply elem_of_nil in Hin.
    + by intros [? _]%list_elem_of_filter.
  - unfold DEFAULT_ALLOWED_ORIGINS. intros Hin Hblank. subst origin.
    repeat (apply elem_of_cons in Hin as [Hin | Hin]; [done|]). by apply elem_of_nil in Hin.
Qed.

(** X16: in production the allowed origin is never an origin outside the
    allow-list: [resolveAllowedOrigin] returns an origin of the list, or the
    first default origin when the configured list has no entry. The value is
    never empty, and it is the wildcard only if the list holds the
    wildcard. *)
Theorem production_origin_is_listed (env : Env) (requestOrigin : option string) :
  isDevelopment env = false →
  (resolveAllowedOrigin env requestOrigin ∈ allow_list env
   ∨ (allow_list env = [] ∧ resolveAllowedOrigin env requestOrigin = "https://chatgpt.com")) ∧
  resolveAllowedOrigin env requestOrigin ≠ "" ∧
  ("*" ∉ allow_list env → resolveAllowedOrigin env requestOrigin ≠ "*").
Proof.
  intros Hprod. rewrite resolveAllowedOrigin_production by done.
  assert (resolved_cases :
    (if isListed requestOrigin (allow_list env) then default "" requestOrigin
     else default "https://chatgpt.com" (head (allow_list env))) ∈ allow_list env
    ∨ (allow_list env = []
       ∧ (if isListed requestOrigin (allow_list env) then default "" requestOrigin
          else default "https://chatgpt.com" (head (allow_list env))) = "https://chatgpt.com")).
  { destruct (isListed requestOrigin (allow_list env)) eqn:Hlisted.
    - apply isListed_spec in Hlisted as (origin & -> & _ & Hin). by left.
    - destruct (allow_list env) as [|first rest]; [by right|]. left. simpl. by left. }
  split_and!; [done| |].
  - destruct resolved_cases as [Hin|[_ ->]]; [|done]. by eapply allow_list_nonempty_entries.
  - intros Hstar. destruct resolved_cases as [Hin|[_ ->]]; [|done]. by intros Heq; rewrite Heq in Hin.
Qed.

End OriginFacts.

(** X16 on a production deployment with two configured origins: a request
    from elsewhere is answered with the first of them. *)
Lemma production_origin_is_listed_witness :
  allow_list MoreExamples.production = ["https://a.example"; "https://b.example"] ∧
  Cors.resolveAllowedOrigin MoreExamples.production (Some "https://evil.example")
  = "https://a.example" ∧
  Cors.resolveAllowedOrigin MoreExamples.production (Some "https://b.example")
  = "https://b.example" ∧
  (Cors.resolveAllowedOrigin MoreExamples.production (Some "https://evil.example")
   ∈ allow_list MoreExamples.production
   ∨ (allow_list MoreExamples.production = []
      ∧ Cors.resolveAllowedOrigin MoreExamples.production (Some "https://evil.example")
        = "https://chatgpt.com")).
Proof.
  split_and!; [vm_compute; reflexivity..|].
  refine (proj1 (production_origin_is_listed MoreExamples.production
                   (Some "https://evil.example") _)).
  reflexivity.
Defined.

(** * The deployment: paths, initialization and the HTTP entry points *)

Section ConfigFacts.

Import Config.

Lemma firstExisting_spec (fs : Fs.t) (possiblePaths : list string) (otherwise : string) :
  (firstExisting fs possiblePaths otherwise ∈ possiblePaths
   ∨ firstExisting fs possiblePaths otherwise = otherwise) ∧
  ((∃ path, path ∈ possiblePaths ∧ Fs.existsSync fs path = true) →
   Fs.existsSync fs (firstExisting fs possiblePaths otherwise) = true ∧
   ∃ before after,
     possiblePaths = before ++ firstExisting fs possiblePaths otherwise :: after ∧
     Forall (λ path, Fs.existsSync fs path = false) before) ∧
  ((∀ path, path ∈ possiblePaths → Fs.existsSync fs path = false) →
   firstExisting fs possiblePaths otherwise = otherwise).
Proof.
  unfold firstExisting. induction possiblePaths as [|p l (IH1 & IH2 & IH3)]; simpl.
  - split_and!; [by right | by intros (? & ?%elem_of_nil & _) | done].
  - destruct (Fs.existsSync fs p) eqn:Hp; simpl.
    + split_and!.
      * left. by left.
      * intros _. split; [done|]. by exists [], l.
      * intros Hnone. rewrite (Hnone p) in Hp; [done | by left].
    + split_and!.
      * destruct IH1 as [?|?]; [left; by right | by right].
      * intros (path & [->|Hin]%elem_of_cons & Hexists); [congruence|].
        destruct IH2 as (Hex & before & after & Hl & Hbefore); [eauto|].
        split; [done|]. exists (p :: before), after. split; [by rewrite Hl at 1 | by constructor].
      * intros Hnone. apply IH3. intros path Hin. apply Hnone. by right.
Qed.

(** X13: where the deployment looks for the corpus file and for the widget
    assets. A variable of the environment that is set and not empty wins,
    whatever the file system holds. Without it, on the managed host the path
    is the first of the three candidates that exists, for the corpus file
    and for the assets alike, so it exists whenever one of them does, and
    the candidate under [/var/task] when none exists; elsewhere it is the
    path under the root directory. *)
Theorem deployment_paths_prefer_what_exists (env : Env) (fs : Fs.t) :
  (∀ path, BLOG_DATA_PATH_env env = Some path → path ≠ "" →
     resolveBlogDataPath env fs = path) ∧
  (∀ path, UI_ASSETS_DIR_env env = Some path → path ≠ "" →
     resolveUIAssetsDir env fs = path) ∧
  (Js.opt_truthy (BLOG_DATA_PATH_env env) = false →
   (Js.opt_truthy (VERCEL env) = true →
      resolveBlogDataPath env fs ∈ blogDataCandidates env ∧
      ((∃ path, path ∈ blogDataCandidates env ∧ Fs.existsSync fs path = true) →
         Fs.existsSync fs (resolveBlogDataPath env fs) = true ∧
         ∃ before after,
           blogDataCandidates env = before ++ resolveBlogDataPath env fs :: after ∧
           Forall (λ path, Fs.existsSync fs path = false) before) ∧
      ((∀ path, path ∈ blogDataCandidates env → Fs.existsSync fs path = false) →
         resolveBlogDataPath env fs = "/var/task/blogposts.en.json")) ∧
   (Js.opt_truthy (VERCEL env) = false →
      resolveBlogDataPath env fs = ROOT_DIR env +:+ "/blogposts.en.json")) ∧
  (Js.opt_truthy (UI_ASSETS_DIR_env env) = false →
   (Js.opt_truthy (VERCEL env) = true →
      resolveUIAssetsDir env fs ∈ uiAssetsCandidates env ∧
      ((∃ path, path ∈ uiAssetsCandidates env ∧ Fs.existsSync fs path = true) →
         Fs.existsSync fs (resolveUIAssetsDir env fs) = true ∧
         ∃ before after,
           uiAssetsCandidates env = before ++ resolveUIAssetsDir env fs :: after ∧
           Forall (λ path, Fs.existsSync fs path = false) before) ∧
      ((∀ path, path ∈ uiAssetsCandidates env → Fs.existsSync fs path = false) →
         resolveUIAssetsDir env fs = "/var/task/ui-sdk/dist")) ∧
   (Js.opt_truthy (VERCEL env) = false →
      resolveUIAssetsDir env fs = (ROOT_DIR env +:+ "/ui-sdk") +:+ "/dist")).
Proof.
  split_and!.
  - intros path Hpath Hne. unfold resolveBlogDataPath. rewrite Hpath.
    by rewrite (proj2 (truthy_nonempty _) Hne).
  - intros path Hpath Hne. unfold resolveUIAssetsDir. rewrite Hpath.
    by rewrite (proj2 (truthy_nonempty _) Hne).
  - intros Hunset.
    assert (resolveBlogDataPath env fs
            = if Js.opt_truthy (VERCEL env)
              then firstExisting fs (blogDataCandidates env)
                     (Fs.join "/var/task" "blogposts.en.json")
              else Fs.join (ROOT_DIR env) "blogposts.en.json") as ->.
    { unfold resolveBlogDataPath. destruct (BLOG_DATA_PATH_env env) as [p|]; [|done].
      simpl in Hunset. by rewrite Hunset. }
    split; intros ->; [|done].
    destruct (firstExisting_spec fs (blogDataCandidates env)
                (Fs.join "/var/task" "blogposts.en.json")) as (Hin & Hexists & Hnone).
    split_and!; [|done..].
    destruct Hin as [?| ->]; [done | by left].
  - intros Hunset.
    assert (resolveUIAssetsDir env fs
            = if Js.opt_truthy (VERCEL env)
              then firstExisting fs (uiAssetsCandidates env)
                     (Fs.join (Fs.join "/var/task" "ui-sdk") "dist")
              else Fs.join (Fs.join (ROOT_DIR env) "ui-sdk") "dist") as ->.
    { unfold resolveUIAssetsDir. destruct (UI_ASSETS_DIR_env env) as [p|]; [|done].
      simpl in Hunset. by rewrite Hunset. }
    split; intros ->; [|done].
    destruct (firstExisting_spec fs (uiAssetsCandidates env)
                (Fs.join (Fs.join "/var/task" "ui-sdk") "dist")) as (Hin & Hexists & Hnone).
    split_and!; [|done..].
    destruct Hin as [?| ->]; [done | by left].
Qed.

End ConfigFacts.

Section InitFacts.
Context `{Host} (cors : Cors.Env) (paths : Config.Paths).

Import ArticleService Config Server.

Lemma load_throws_iff (fs : Fs.t) (path : string) :
  (∃ message, (loadMagazineArticles fs path).1 = Throws message) ↔ corpus_unreadable fs path.
Proof.
  unfold corpus_unreadable, loadMagazineArticles, readArticles, Fs.existsSync, Fs.readFileSync.
  destruct (fs !! path) as [[data|entries]|] eqn:Hfile; simpl.
  - destruct (JSON_parse data) as [raws|] eqn:Hparse; simpl.
    + rewrite (list_filter_iff _ acceptable) by (intros; apply isLoadedArticle_acceptable).
      rewrite mapM_normalizeArticle
        by (apply Forall_forall; intros ? [? _]%list_elem_of_filter; done).
      simpl. split; [by intros [? ?]|].
      intros [?|[[? ?]|(? & [= <-] & ?)]]; congruence.
    + split; [|eauto]. intros _. right. right. eauto.
  - split; [|eauto]. intros _. right. left. eauto.
  - split; [|eauto]. intros _. by left.
Qed.

(** How [initializeApp] ends. *)
Lemma initializeApp_cases (fs : Fs.t) (index : Index) :
  (corpus_unreadable fs (BLOG_DATA_PATH paths) ∧
   ∃ message, (initializeApp paths fs index).1 = Throws message ∧
     (initializeApp paths fs index).2
     = if Fs.existsSync fs (BLOG_DATA_PATH paths) then emptyIndex else index) ∨
  (¬ corpus_unreadable fs (BLOG_DATA_PATH paths) ∧
   ∃ index',
     loadMagazineArticles fs (BLOG_DATA_PATH paths) = (Returns (), index') ∧
     initializeApp paths fs index
     = (Returns (Widget.initializeArticleListWidget fs (UI_ASSETS_DIR paths),
                 Widget.initializeArticlePreviewWidget fs (UI_ASSETS_DIR paths)),
        index')).
Proof.
  unfold initializeApp, validateEnvironment.
  destruct (Fs.existsSync fs (BLOG_DATA_PATH paths)) eqn:Hexists; simpl.
  - destruct (loadMagazineArticles fs (BLOG_DATA_PATH paths)) as [[[]|message] index'] eqn:Hload.
    + right. split; [|by exists index'].
      intros Hbad%load_throws_iff. rewrite Hload in Hbad. by destruct Hbad.
    + left. split; [apply load_throws_iff; rewrite Hload; eauto|].
      exists message. split; [done|]. simpl.
      unfold loadMagazineArticles in Hload.
      destruct (readArticles fs (BLOG_DATA_PATH paths)); [discriminate|].
      by injection Hload as _ <-.
  - left. split; [|eauto]. left. unfold Fs.existsSync in Hexists.
    by destruct (fs !! BLOG_DATA_PATH paths).
Qed.

(** X14: the initialization is ready once, and the widget assets never make
    it fail. From a state that is not initialized, [ensureWidgetsInitialized]
    throws when the corpus file is missing, is a directory or is not valid
    JSON, and returns when the file holds an array of article records,
    whatever the widget assets are. When it throws, the state stays not
    initialized, so the next request tries again. When it returns, the state
    is initialized, every article of the index is well formed, the two
    widgets are those of the widget initialization, and every later call
    returns at once with the state unchanged, whatever the file system has
    become. *)
Theorem initialization_is_ready_once (fs : Fs.t) (state : State) :
  widgetsInitialized state = false →
  let outcome := ensureWidgetsInitialized paths fs state in
  (corpus_unreadable fs (BLOG_DATA_PATH paths) → ∃ message, outcome.1 = Throws message) ∧
  (∀ data raws,
     fs !! BLOG_DATA_PATH paths = Some (Fs.File data) → JSON_parse data = Some raws →
     outcome.1 = Returns ()) ∧
  (∀ message, outcome.1 = Throws message →
     widgetsInitialized outcome.2 = false ∧
     articleListWidget outcome.2 = articleListWidget state ∧
     articlePreviewWidget outcome.2 = articlePreviewWidget state ∧
     (fs !! BLOG_DATA_PATH paths = None → index outcome.2 = index state) ∧
     (is_Some (fs !! BLOG_DATA_PATH paths) → index outcome.2 = emptyIndex)) ∧
  (outcome.1 = Returns () →
     widgetsInitialized outcome.2 = true ∧
     loadMagazineArticles fs (BLOG_DATA_PATH paths) = (Returns (), index outcome.2) ∧
     Forall well_formed (magazineArticles (index outcome.2)) ∧
     articleListWidget outcome.2
     = Widget.initializeArticleListWidget fs (UI_ASSETS_DIR paths) ∧
     articlePreviewWidget outcome.2
     = Widget.initializeArticlePreviewWidget fs (UI_ASSETS_DIR paths) ∧
     ∀ fs', ensureWidgetsInitialized paths fs' outcome.2 = (Returns (), outcome.2)).
Proof.
  intros Hflag. cbv zeta. unfold ensureWidgetsInitialized. rewrite Hflag.
  destruct (initializeApp_cases fs (index state))
    as [(Hbad & message & Hthrow & Hindex)|(Hgood & index' & Hload & Hinit)].
  - destruct (initializeApp paths fs (index state)) as [[[l p]|m] i]; simpl in *; [done|].
    split_and!; [eauto| | |done].
    + intros data raws Hfile Hparse.
      destruct Hbad as [Hnone|[[entries Hdir]|(data' & Hfile' & Hparse')]]; [congruence..|].
      rewrite Hfile in Hfile'. injection Hfile' as <-. congruence.
    + intros _ _. rewrite Hindex. unfold Fs.existsSync. split_and!; [done..| |].
      * by intros ->.
      * by intros [node ->].
  - rewrite Hinit. simpl. split_and!; [done | done | done |].
    intros _. split_and!; [done..|by eapply load_well_formed|done|done|done].
Qed.

End InitFacts.

(** X14 on the example deployment, which has a corpus file and no widget
    asset: the initialization succeeds, and stays done on an empty file
    system. *)
Lemma initialization_is_ready_once_witness :
  let outcome :=
    Server.ensureWidgetsInitialized (H := ExampleHost.host) MoreExamples.paths
      ExampleHost.fsCorpusOnly Server.initialState in
  outcome.1 = Returns () ∧
  Server.index outcome.2 = ExampleHost.loadedIndex ∧
  Server.ensureWidgetsInitialized (H := ExampleHost.host) MoreExamples.paths ∅ outcome.2
  = (Returns (), outcome.2).
Proof.
  cbv zeta.
  pose proof (initialization_is_ready_once (H := ExampleHost.host) MoreExamples.paths
                ExampleHost.fsCorpusOnly Server.initialState eq_refl) as Hready.
  cbv zeta in Hready. destruct Hready as (_ & Hreturns & _ & Hready).
  assert ((Server.ensureWidgetsInitialized (H := ExampleHost.host) MoreExamples.paths
             ExampleHost.fsCorpusOnly Server.initialState).1 = Returns ()) as Hdone
    by (apply (Hreturns ExampleHost.corpusText ExampleHost.corpusFile);
        vm_compute; reflexivity).
  destruct (Hready Hdone) as (_ & _ & _ & _ & _ & Hlater).
  split; [exact Hdone|]. split; [vm_compute; reflexivity | apply Hlater].
Defined.

Section ServerFacts.
Context `{Host} (cors : Cors.Env) (paths : Config.Paths).

Import ArticleService Config Server Accept.

Lemma ensureWidgetsInitialized_cases (fs : Fs.t) (state : State) :
  ((ensureWidgetsInitialized paths fs state).1 = Returns () ∧
   widgetsInitialized (ensureWidgetsInitialized paths fs state).2 = true ∧
   (widgetsInitialized state = true ∨ ¬ corpus_unreadable fs (BLOG_DATA_PATH paths))) ∨
  (∃ message, (ensureWidgetsInitialized paths fs state).1 = Throws message ∧
   widgetsInitialized state = false ∧ corpus_unreadable fs (BLOG_DATA_PATH paths)).
Proof.
  unfold ensureWidgetsInitialized.
  destruct (widgetsInitialized state) eqn:Hflag; [left; simpl; by rewrite Hflag; eauto|].
  destruct (initializeApp_cases paths fs (index state))
    as [(Hbad & message & Hthrow & _)|(Hgood & index' & _ & Hinit)].
  - destruct (initializeApp paths fs (index state)) as [[[l p]|m] i]; simpl in *; [done|].
    right. by exists m.
  - rewrite Hinit. left. simpl. eauto.
Qed.

Lemma handleMcpRequest_cases (fs : Fs.t) (state : State) (req : Request) :
  let corsHeaders :=
    Cors.getCorsHeaders cors (origin req)
      {[ "Access-Control-Expose-Headers" := "Mcp-Session-Id" ]} in
  (isProbe req = true ∧
   handleMcpRequest cors paths fs state req
   = (Responds 200
        (Cors.getCorsHeaders cors (origin req) ∅ ∪ {[ "content-type" := "text/plain" ]})
        (Text healthMessage), state)) ∨
  (isProbe req = false ∧
   (ensureWidgetsInitialized paths fs state).1 = Returns () ∧
   handleMcpRequest cors paths fs state req
   = (Forwards corsHeaders (ensureStreamableAccept (accept req)),
      (ensureWidgetsInitialized paths fs state).2)) ∨
  (isProbe req = false ∧
   ∃ message, (ensureWidgetsInitialized paths fs state).1 = Throws message ∧
   handleMcpRequest cors paths fs state req
   = (Rejects corsHeaders message, (ensureWidgetsInitialized paths fs state).2)).
Proof.
  cbv zeta. unfold handleMcpRequest. fold (isProbe req).
  destruct (isProbe req); [by left|]. right.
  destruct (ensureWidgetsInitialized paths fs state) as [[[]|message] state']; simpl.
  - by left.
  - right. split; [done|]. by exists message.
Qed.

(** X17: the probe of a browser, a [GET] without a session identifier, is
    answered at once with status 200 and a plain text, and with the headers
    of the cross-origin policy; the state is left as it is, so the probe
    never starts the initialization and is answered even when the corpus
    file is missing. The listener of the local server and the handler of the
    serverless deployment answer it the same way. *)
Theorem probe_is_answered_without_initializing (fs : Fs.t) (state : State) (req : Request) :
  method req = Some "GET" →
  Js.opt_truthy (mcpSessionId req) = false →
  ∃ headers,
    handleMcpRequest cors paths fs state req
    = (Responds 200 headers (Text healthMessage), state) ∧
    apiHandler cors paths fs state req = (Responds 200 headers (Text healthMessage), state) ∧
    (∀ MCP_PATH, Js.opt_truthy (url req) = true →
       Js.startsWith (pathname req) MCP_PATH = true → pathname req ≠ "/" →
       requestListener cors paths MCP_PATH fs state req
       = (Responds 200 headers (Text healthMessage), state)) ∧
    headers !! "content-type" = Some "text/plain" ∧
    headers !! "Access-Control-Allow-Origin"
    = Some (Cors.resolveAllowedOrigin cors (origin req)) ∧
    headers !! "Vary" = Some "Origin".
Proof.
  intros Hmethod Hsession.
  assert (handleMcpRequest cors paths fs state req
          = (Responds 200
               (Cors.getCorsHeaders cors (origin req) ∅ ∪ {[ "content-type" := "text/plain" ]})
               (Text healthMessage), state)) as Hhandle.
  { unfold handleMcpRequest, methodIs. by rewrite Hmethod, Hsession. }
  eexists. split_and!; [exact Hhandle| | | | |].
  - unfold apiHandler. rewrite Hhandle, Hmethod.
    replace (methodIs "OPTIONS" (Some "GET")) with false by done.
    by replace (isMcpMethod (Some "GET")) with true by done.
  - intros MCP_PATH Hurl Hpath Hroot. unfold requestListener.
    rewrite Hhandle, Hurl, Hpath, Hmethod, (proj2 (String.eqb_neq _ _) Hroot).
    replace (methodIs "OPTIONS" (Some "GET")) with false by done.
    by replace (isMcpMethod (Some "GET")) with true by done.
  - rewrite lookup_union_r; [by rewrite lookup_singleton_eq|].
    unfold Cors.getCorsHeaders. rewrite lookup_union_r by done.
    rewrite lookup_insert_ne by done.
    destruct (bool_decide _); [by rewrite lookup_union_r|].
    rewrite lookup_union_r by done. by rewrite lookup_singleton_ne.
  - rewrite lookup_union_l by done. by apply getCorsHeaders_origin.
  - rewrite lookup_union_l by done. unfold Cors.getCorsHeaders.
    rewrite lookup_union_r by done. by rewrite lookup_insert_eq.
Qed.

End ServerFacts.

Section RoutingFacts.
Context `{Host} (cors : Cors.Env) (paths : Config.Paths).

Import ArticleService Config Server Accept.

Lemma opt_truthy_spec (v : option string) :
  Js.opt_truthy v = true ↔ ∃ s, v = Some s ∧ s ≠ "".
Proof.
  destruct v as [s|]; simpl.
  - rewrite truthy_nonempty. split; [by exists s | by intros (? & [= <-] & ?)].
  - split; [done | by intros (? & ? & _)].
Qed.

(** The methods the entry points tell apart. *)
Lemma method_cases (method : option string) :
  method = Some "OPTIONS" ∨ method = Some "GET" ∨ method = Some "POST"
  ∨ method = Some "DELETE"
  ∨ (methodIs "OPTIONS" method = false ∧ methodIs "GET" method = false
     ∧ isMcpMethod method = false
     ∧ method ≠ Some "POST" ∧ method ≠ Some "DELETE" ∧ method ≠ Some "GET").
Proof.
  destruct method as [m|]; [|by repeat right].
  destruct (decide (m = "OPTIONS")) as [->|?]; [by left|].
  destruct (decide (m = "GET")) as [->|?]; [by right; left|].
  destruct (decide (m = "POST")) as [->|?]; [by right; right; left|].
  destruct (decide (m = "DELETE")) as [->|?]; [by right; right; right; left|].
  repeat right. unfold methodIs, isMcpMethod, MCP_METHODS.
  rewrite !bool_decide_eq_false_2; [split_and!; congruence|..]; [|congruence..].
  intros Hin. repeat (apply elem_of_cons in Hin as [-> | Hin]; [done|]).
  by apply elem_of_nil in Hin.
Qed.

Lemma reaches_transport_handedOn (MCP_PATH : string) (req : Request) :
  reaches_transport MCP_PATH req ↔ handedOn MCP_PATH req = true.
Proof.
  assert (reaches_transport MCP_PATH req
          ↔ Js.opt_truthy (url req) = true ∧ Js.startsWith (pathname req) MCP_PATH = true ∧
            (method req = Some "POST" ∨ method req = Some "DELETE"
             ∨ (method req = Some "GET" ∧ String.eqb (pathname req) "/" = false
                ∧ Js.opt_truthy (mcpSessionId req) = true))) as ->.
  { unfold reaches_transport.
    rewrite !opt_truthy_spec, startsWith_spec, String.eqb_neq. tauto. }
  unfold handedOn, isProbe.
  destruct (method_cases (method req))
    as [Hm|[Hm|[Hm|[Hm|(HO & HG & HM & HnP & HnD & HnG)]]]].
  1-4: rewrite Hm;
       destruct (Js.opt_truthy (url req)), (Js.startsWith (pathname req) MCP_PATH),
                (String.eqb (pathname req) "/"), (Js.opt_truthy (mcpSessionId req));
       vm_compute; (split; [intros (? & ? & [?|[?|(? & ? & ?)]])|intros ?]);
       first [done | split_and!; auto].
  rewrite HO, HG, HM, !andb_false_r. simpl.
  split; [intros (_ & _ & [?|[?|[? _]]]); done | done].
Qed.

(** What the listener does with a request it does not hand on. *)
Lemma requestListener_answers (MCP_PATH : string) (fs : Fs.t) (state : State) (req : Request) :
  handedOn MCP_PATH req = false →
  ∃ status headers body,
    requestListener cors paths MCP_PATH fs state req = (Responds status headers body, state)
    ∧ status ∈ [200; 204; 400; 404].
Proof.
  unfold handedOn, requestListener.
  destruct (Js.opt_truthy (url req)); simpl; [|intros _; do 3 eexists; split; [done|set_solver]].
  destruct (methodIs "OPTIONS" (method req) && Js.startsWith (pathname req) MCP_PATH); simpl;
    [intros _; do 3 eexists; split; [done|set_solver]|].
  destruct (methodIs "GET" (method req) && String.eqb (pathname req) "/"); simpl;
    [intros _; do 3 eexists; split; [done|set_solver]|].
  destruct (Js.startsWith (pathname req) MCP_PATH && Js.opt_truthy (method req)
            && isMcpMethod (method req)); simpl;
    [|intros _; do 3 eexists; split; [done|set_solver]].
  intros Hprobe%negb_false_iff.
  destruct (handleMcpRequest_cases cors paths fs state req)
    as [[_ ->]|[(? & _)|(? & _)]]; [|congruence..].
  do 3 eexists. split; [done|set_solver].
Qed.

(** What the listener does with a request it hands on. *)
Lemma requestListener_hands_on (MCP_PATH : string) (fs : Fs.t) (state : State)
    (req : Request) :
  handedOn MCP_PATH req = true →
  requestListener cors paths MCP_PATH fs state req = handleMcpRequest cors paths fs state req
  ∧ isProbe req = false.
Proof.
  unfold handedOn, requestListener.
  destruct (Js.opt_truthy (url req)); simpl; [|done].
  destruct (methodIs "OPTIONS" (method req) && Js.startsWith (pathname req) MCP_PATH); simpl;
    [done|].
  destruct (methodIs "GET" (method req) && String.eqb (pathname req) "/"); simpl; [done|].
  destruct (Js.startsWith (pathname req) MCP_PATH && Js.opt_truthy (method req)
            && isMcpMethod (method req)); simpl; [|done].
  by intros ->%negb_true_iff.
Qed.

(** X18: what the listener of the local server does with a request. A
    request without a URL is answered with status 400. A request whose URL
    does not parse is not answered: the promise of the listener is rejected
    with the error of [new URL], and the state is left as it is. A request
    whose URL parses reaches the initialization and the transport exactly
    when the parsed path starts with the protocol path and the request is a
    [POST], a [DELETE], or a [GET] with a session identifier on a path other
    than [/]; it is then forwarded with the headers of the cross-origin
    policy and a repaired accept header when the initialization returns, and
    rejected with those headers when it throws. Every other request whose
    URL parses is answered by the listener itself, with status 200, 204 or
    404, and leaves the state as it is. *)
Theorem listener_hands_on_protocol_requests (newURL : string → string → result string)
    (MCP_PATH : string) (fs : Fs.t) (state : State) (hostHeader : option string)
    (req : Request) :
  let outcome := listener cors paths newURL MCP_PATH fs state hostHeader req in
  let parsed :=
    newURL (default "" (url req)) ("http://" +:+ default "localhost" hostHeader) in
  let corsHeaders :=
    Cors.getCorsHeaders cors (origin req)
      {[ "Access-Control-Expose-Headers" := "Mcp-Session-Id" ]} in
  let initialization := ensureWidgetsInitialized paths fs state in
  (Js.opt_truthy (url req) = false →
     outcome = (Responds 400 ∅ (Text "Missing URL"), state)) ∧
  (Js.opt_truthy (url req) = true → ∀ message, parsed = Throws message →
     outcome = (Rejects ∅ message, state)) ∧
  (parsed_and_reaches newURL MCP_PATH hostHeader req →
     outcome.2 = initialization.2 ∧
     (initialization.1 = Returns () →
        outcome.1 = Forwards corsHeaders (ensureStreamableAccept (accept req))) ∧
     (∀ message, initialization.1 = Throws message →
        outcome.1 = Rejects corsHeaders message)) ∧
  (Js.opt_truthy (url req) = true →
   ∀ pathname, parsed = Returns pathname →
     ¬ reaches_transport MCP_PATH (withPathname pathname req) →
     outcome.2 = state ∧
     ∃ status headers body,
       outcome.1 = Responds status headers body ∧ status ∈ [200; 204; 404]) ∧
  (parsed_and_reaches newURL MCP_PATH hostHeader req
   ↔ (∃ accept', outcome.1 = Forwards corsHeaders accept')
     ∨ (∃ message, outcome.1 = Rejects corsHeaders message)).
Proof.
  cbv zeta. unfold parsed_and_reaches, listener.
  assert (Cors.getCorsHeaders cors (origin req)
            {[ "Access-Control-Expose-Headers" := "Mcp-Session-Id" ]} ≠ ∅) as Hheaders.
  { intros Hempty.
    assert (Cors.getCorsHeaders cors (origin req)
              {[ "Access-Control-Expose-Headers" := "Mcp-Session-Id" ]}
            !! "Access-Control-Expose-Headers" = Some "Mcp-Session-Id") as Hlookup
      by (apply lookup_union_Some_l, lookup_singleton_eq).
    by rewrite Hempty in Hlookup. }
  destruct (Js.opt_truthy (url req)) eqn:Hurl; simpl.
  2:{ split_and!; [done | done | | done |].
      - intros (parsed & _ & ((u & Hu & Hne) & _)). simpl in Hu.
        rewrite Hu in Hurl. simpl in Hurl. by apply truthy_nonempty in Hne; congruence.
      - split; [|by intros [[? ?]|[? ?]]].
        intros (parsed & _ & ((u & Hu & Hne) & _)). simpl in Hu.
        rewrite Hu in Hurl. simpl in Hurl. by apply truthy_nonempty in Hne; congruence. }
  destruct (newURL (default "" (url req)) ("http://" +:+ default "localhost" hostHeader))
    as [parsed|failure] eqn:Hparsed.
  2:{ split_and!; [done | by intros _ ? [= <-] | by intros (? & ? & _) | done |].
      split; [by intros (? & ? & _)|]. simpl.
      intros [[? ?]|[? [= Hempty _]]]; [done|]. by destruct Hheaders. }
  set (req' := withPathname parsed req).
  assert (Hsame : ∀ fs0 state0,
            handleMcpRequest cors paths fs0 state0 req'
            = handleMcpRequest cors paths fs0 state0 req) by done.
  destruct (handedOn MCP_PATH req') eqn:Hhanded.
  - pose proof (proj2 (reaches_transport_handedOn MCP_PATH req') Hhanded) as Hreaches.
    destruct (requestListener_hands_on MCP_PATH fs state req' Hhanded)
      as [-> Hprobe].
    rewrite Hsame.
    destruct (handleMcpRequest_cases cors paths fs state req)
      as [[Hprobe' _]|[(_ & Hens & ->)|(_ & message & Hens & ->)]]; simpl.
    { unfold isProbe in *. simpl in Hprobe. congruence. }
    + split_and!; [done | done | | |].
      * intros _. split_and!; [done | done |]. intros ? Hthrows. by rewrite Hens in Hthrows.
      * intros _ ? [= <-] Hno. by destruct Hno.
      * split; [intros _; left; by eexists | intros _; by exists parsed].
    + split_and!; [done | done | | |].
      * intros _. rewrite Hens. split_and!; [done | done |]. by intros ? [= <-].
      * intros _ ? [= <-] Hno. by destruct Hno.
      * split; [intros _; right; by eexists | intros _; by exists parsed].
  - assert (¬ reaches_transport MCP_PATH req') as Hno
      by (rewrite reaches_transport_handedOn; congruence).
    destruct (requestListener_answers MCP_PATH fs state req' Hhanded)
      as (status & headers & body & Hanswer & Hstatus).
    assert (status ∈ [200; 204; 404]) as Hstatus'.
    { unfold requestListener in Hanswer. subst req'. simpl in Hanswer.
      rewrite Hurl in Hanswer. simpl in Hanswer.
      repeat (apply elem_of_cons in Hstatus as [-> | Hstatus]); try set_solver.
      repeat match type of Hanswer with
             | (if ?c then _ else _) = _ => destruct c
             end; try discriminate.
      destruct (handleMcpRequest_cases cors paths fs state (withPathname parsed req))
        as [[_ Heq]|[(_ & _ & Heq)|(_ & ? & _ & Heq)]]; rewrite Heq in Hanswer;
        discriminate. }
    rewrite Hanswer. simpl. split_and!; [done | done | | |].
    + intros (parsed' & [= <-] & Hreaches). by destruct Hno.
    + intros _ ? [= <-] _. split; [done|]. by do 3 eexists.
    + split; [|by intros [[? ?]|[? ?]]].
      intros (parsed' & [= <-] & Hreaches). by destruct Hno.
Qed.

End RoutingFacts.

Lemma probe_is_answered_without_initializing_witness :
  ∃ headers,
    Server.handleMcpRequest (H := ExampleHost.host) MoreExamples.production MoreExamples.paths
      ∅ Server.initialState MoreExamples.probeRequest
    = (Server.Responds 200 headers (Server.Text Server.healthMessage), Server.initialState) ∧
    headers !! "Access-Control-Allow-Origin" = Some "https://a.example".
Proof.
  destruct (probe_is_answered_without_initializing (H := ExampleHost.host)
              MoreExamples.production MoreExamples.paths ∅ Server.initialState
              MoreExamples.probeRequest eq_refl eq_refl)
    as (headers & Hhandle & _ & _ & _ & Horigin & _).
  exists headers. split; [exact Hhandle | exact Horigin].
Defined.

Section EntryPointFacts.
Context `{Host} (cors : Cors.Env) (paths : Config.Paths).

Import ArticleService Config Server Accept.

(** The ways the serverless handler leaves a request. *)
Lemma apiHandler_cases (fs : Fs.t) (state : State) (req : Request) :
  let corsHeaders :=
    Cors.getCorsHeaders cors (origin req)
      {[ "Access-Control-Expose-Headers" := "Mcp-Session-Id" ]} in
  let initialization := ensureWidgetsInitialized paths fs state in
  (method req = Some "OPTIONS" ∧ isMcpMethod (method req) = false ∧
   apiHandler cors paths fs state req
   = (Responds 204
        (Cors.getCorsHeaders cors (origin req)
           (preflightHeaders (accessControlRequestHeaders req)))
        (Text ""), state)) ∨
  (method req ≠ Some "OPTIONS" ∧ isMcpMethod (method req) = false ∧
   apiHandler cors paths fs state req
   = (Responds 405 ∅ (Text "Method Not Allowed"), state)) ∨
  (isMcpMethod (method req) = true ∧ isProbe req = true ∧
   apiHandler cors paths fs state req
   = (Responds 200
        (Cors.getCorsHeaders cors (origin req) ∅ ∪ {[ "content-type" := "text/plain" ]})
        (Text healthMessage), state)) ∨
  (isMcpMethod (method req) = true ∧ isProbe req = false ∧
   initialization.1 = Returns () ∧
   apiHandler cors paths fs state req
   = (Forwards corsHeaders (ensureStreamableAccept (accept req)), initialization.2)) ∨
  (isMcpMethod (method req) = true ∧ isProbe req = false ∧
   ∃ message, initialization.1 = Throws message ∧
   apiHandler cors paths fs state req
   = (Responds 500 corsHeaders (Json "Internal server error" message), initialization.2)).
Proof.
  cbv zeta. unfold apiHandler.
  destruct (methodIs "OPTIONS" (method req)) eqn:Hoptions.
  { apply bool_decide_eq_true in Hoptions. left. by rewrite Hoptions. }
  apply bool_decide_eq_false in Hoptions. right.
  destruct (isMcpMethod (method req)) eqn:Hmcp.
  - assert (Js.opt_truthy (method req) = true) as ->.
    { destruct (method req) as [[|]|]; done. }
    simpl. right.
    destruct (handleMcpRequest_cases cors paths fs state req)
      as [[Hprobe ->]|[(Hprobe & Hens & ->)|(Hprobe & message & Hens & ->)]].
    + by left.
    + right. by left.
    + right. right. split_and!; [done..|]. by exists message.
  - left. by rewrite orb_true_r.
Qed.

(** X19: the handler of the serverless deployment answers every request it
    does not forward. Its promise is never rejected; a request is forwarded
    to the transport exactly when its method is one of the protocol, it is
    not the probe, and the initialization returns; it is answered with
    status 500 exactly when the initialization throws for such a request,
    and the body then carries the message of the error; a method that is
    neither [OPTIONS] nor one of the protocol is answered with status 405.
    The state changes only through the initialization. *)
Theorem serverless_handler_never_rejects (fs : Fs.t) (state : State) (req : Request) :
  let outcome := apiHandler cors paths fs state req in
  let initialization := ensureWidgetsInitialized paths fs state in
  let initializes := isMcpMethod (method req) && negb (isProbe req) in
  (∀ headers message, outcome.1 ≠ Rejects headers message) ∧
  ((∃ headers accept, outcome.1 = Forwards headers accept)
   ↔ initializes = true ∧ initialization.1 = Returns ()) ∧
  (∀ headers body,
     outcome.1 = Responds 500 headers body
     ↔ initializes = true ∧
       ∃ message, initialization.1 = Throws message ∧
         body = Json "Internal server error" message ∧
         headers = Cors.getCorsHeaders cors (origin req)
                     {[ "Access-Control-Expose-Headers" := "Mcp-Session-Id" ]}) ∧
  ((∃ headers body, outcome.1 = Responds 405 headers body)
   ↔ method req ≠ Some "OPTIONS" ∧ isMcpMethod (method req) = false) ∧
  (∀ status headers body,
     outcome.1 = Responds status headers body → status ∈ [200; 204; 405; 500]) ∧
  outcome.2 = (if initializes then initialization.2 else state).
Proof.
  cbv zeta.
  destruct (apiHandler_cases fs state req)
    as [(Hm & Hmcp & ->)|[(Hm & Hmcp & ->)|[(Hmcp & Hprobe & ->)
        |[(Hmcp & Hprobe & Hens & ->)|(Hmcp & Hprobe & message & Hens & ->)]]]];
    rewrite Hmcp; try rewrite Hprobe; simpl.
  - split_and!; [done| | | |intros ??? [= <- _ _]; set_solver|done].
    + split; [by intros (? & ? & ?) | by intros [? _]].
    + intros ??. split; [done | by intros [? _]].
    + split; [by intros (? & ? & ?) | by intros [? _]].
  - split_and!; [done| | | |intros ??? [= <- _ _]; set_solver|done].
    + split; [by intros (? & ? & ?) | by intros [? _]].
    + intros ??. split; [done | by intros [? _]].
    + split; [done | by do 2 eexists].
  - split_and!; [done| | | |intros ??? [= <- _ _]; set_solver|done].
    + split; [by intros (? & ? & ?) | by intros [? _]].
    + intros ??. split; [done | by intros [? _]].
    + split; [by intros (? & ? & ?) | by intros [_ ?]].
  - split_and!; [done| | | |done|done].
    + split; [done | by do 2 eexists].
    + intros ??. split; [done|]. intros (_ & ? & Hthrows & _). by rewrite Hens in Hthrows.
    + split; [by intros (? & ? & ?) | by intros [_ ?]].
  - split_and!; [done| | | |intros ??? [= <- _ _]; set_solver|done].
    + split; [by intros (? & ? & ?)|]. intros [_ Hreturns]. by rewrite Hens in Hreturns.
    + intros headers body. split.
      * intros [= <- <-]. split; [done|]. by exists message.
      * intros (_ & message' & Hthrows & -> & ->).
        rewrite Hens in Hthrows. by injection Hthrows as <-.
    + split; [by intros (? & ? & ?) | by intros [_ ?]].
Qed.

(** X20: a preflight request is answered without touching the state. Both
    entry points answer an [OPTIONS] request with status 204 and the same
    headers: the origin the cross-origin policy chooses, the four methods,
    the exposed session header, and as allowed headers those the request
    asks for, or [content-type, mcp-session-id] when it asks for none. The
    listener of the local server does so only on the protocol path; outside
    it answers 404. *)
Theorem preflight_is_answered_alike (fs : Fs.t) (state : State) (req : Request) :
  method req = Some "OPTIONS" →
  ∃ headers,
    apiHandler cors paths fs state req = (Responds 204 headers (Text ""), state) ∧
    (∀ MCP_PATH, Js.opt_truthy (url req) = true →
       requestListener cors paths MCP_PATH fs state req
       = if Js.startsWith (pathname req) MCP_PATH
         then (Responds 204 headers (Text ""), state)
         else (Responds 404 ∅ (Text "Not Found"), state)) ∧
    headers !! "Access-Control-Allow-Origin"
    = Some (Cors.resolveAllowedOrigin cors (origin req)) ∧
    headers !! "Access-Control-Allow-Methods" = Some "POST, GET, DELETE, OPTIONS" ∧
    headers !! "Access-Control-Expose-Headers" = Some "Mcp-Session-Id" ∧
    headers !! "Access-Control-Allow-Headers"
    = Some (match accessControlRequestHeaders req with
            | Some requested =>
                if bool_decide (requested = "") then "content-type, mcp-session-id"
                else requested
            | None => "content-type, mcp-session-id"
            end).
Proof.
  intros Hmethod.
  exists (Cors.getCorsHeaders cors (origin req)
            (preflightHeaders (accessControlRequestHeaders req))).
  split_and!.
  - unfold apiHandler. by rewrite Hmethod.
  - intros MCP_PATH Hurl. unfold requestListener. rewrite Hurl, Hmethod. simpl.
    replace (methodIs "OPTIONS" (Some "OPTIONS")) with true by done.
    replace (methodIs "GET" (Some "OPTIONS")) with false by done.
    replace (isMcpMethod (Some "OPTIONS")) with false by done.
    destruct (Js.startsWith (pathname req) MCP_PATH); [done|].
    by rewrite andb_false_r.
  - by apply getCorsHeaders_origin.
  - apply lookup_union_Some_l. unfold preflightHeaders. by rewrite lookup_insert_eq.
  - apply lookup_union_Some_l. unfold preflightHeaders.
    rewrite !lookup_insert_ne by done. by rewrite lookup_singleton_eq.
  - apply lookup_union_Some_l. unfold preflightHeaders.
    rewrite lookup_insert_ne by done. rewrite lookup_insert_eq. f_equal.
    destruct (accessControlRequestHeaders req) as [requested|]; [|done]. simpl.
    case_bool_decide as Hempty; [by rewrite Hempty|].
    by rewrite (proj2 (truthy_nonempty _) Hempty).
Qed.

End EntryPointFacts.

Lemma preflight_is_answered_alike_witness :
  ∃ headers,
    Server.requestListener (H := ExampleHost.host) MoreExamples.production MoreExamples.paths
      "/mcp" ∅ Server.initialState MoreExamples.preflightRequest
    = (Server.Responds 204 headers (Server.Text ""), Server.initialState) ∧
    headers !! "Access-Control-Allow-Origin" = Some "https://b.example" ∧
    headers !! "Access-Control-Allow-Headers" = Some "authorization".
Proof.
  destruct (preflight_is_answered_alike (H := ExampleHost.host)
              MoreExamples.production MoreExamples.paths ∅ Server.initialState
              MoreExamples.preflightRequest eq_refl)
    as (headers & _ & Hlistener & Horigin & _ & _ & Hallowed).
  exists headers. split_and!; [exact (Hlistener "/mcp" eq_refl) | exact Horigin | exact Hallowed].
Defined.

(** The listener on the example deployment: a request target that does not
    parse is not answered, a [POST] to the protocol path is forwarded with a
    repaired accept header, and the probe is answered with status 200. *)
Example listener_examples :
  Server.listener (H := ExampleHost.host) MoreExamples.production MoreExamples.paths
    MoreExamples.pathOfTarget "/mcp" ExampleHost.fsCorpusOnly Server.initialState None
    MoreExamples.slashRequest
  = (Server.Rejects ∅ "Invalid URL", Server.initialState) ∧
  (Server.listener (H := ExampleHost.host) MoreExamples.production MoreExamples.paths
     MoreExamples.pathOfTarget "/mcp" ExampleHost.fsCorpusOnly Server.initialState None
     MoreExamples.postRequest).1
  = Server.Forwards
      (Cors.getCorsHeaders MoreExamples.production (Some "https://a.example")
         {[ "Access-Control-Expose-Headers" := "Mcp-Session-Id" ]})
      (Some (Accept.One "application/json, text/event-stream")) ∧
  (Server.listener (H := ExampleHost.host) MoreExamples.production MoreExamples.paths
     MoreExamples.pathOfTarget "/mcp" ∅ Server.initialState None
     MoreExamples.probeRequest).1
  = Server.Responds 200
      (Cors.getCorsHeaders MoreExamples.production None ∅ ∪ {[ "content-type" := "text/plain" ]})
      (Server.Text Server.healthMessage).
Proof. split_and!; vm_compute; reflexivity. Qed.
